(** * water-intel: the ingest validation engine

    A shallow embedding of [ml/src/ingest/schema.py],
    [ml/src/ingest/validate.py] and [ml/src/ingest/eccc_loader.py]: the
    schema registry, the constraint catalog, the [ValidationResult]
    accumulator, the three passes of [DataValidator] together with
    [validate_all] and the dtype compatibility predicate, and the steps
    of [ECCCLoader].

    Conventions of the embedding.
    - A Python [str] is a [string] holding its UTF-8 bytes; the labels and
      messages of the module are ASCII, [lower] folds the ASCII letters,
      and [Str.len] counts characters, not bytes.
    - A pandas cell is [NA] (NaN, None, NaT), a number, a text or a
      timestamp.  A finite float64 is a rational, so numbers are [Q] and
      compared exactly.  The one float computation of the module, the null
      percentage, is carried out in [Q]; [null_percent_f64] is the same
      expression on doubles, and the two are compared at the thresholds.
    - A [DataFrame] is its row count (the length of the index) and its
      labelled columns; labels are distinct texts, as [read_csv] yields.
    - A pass that raises (a [TypeError] from an ordering of text against a
      number or of tz-aware dates against the naive clock reading, an
      [AttributeError] from the [.str] accessor) is [Raise]; a pass that
      returns is [Ok].
    - What the module calls but neither defines nor constrains (float and
      timestamp rendering, the datetime parser and the time zone
      awareness of what it returns, the iteration order of a [set], the
      text of a [Path]) is a field of the record [Runtime]; the wall
      clock read by [pd.Timestamp.now()] is the explicit argument
      [now]. *)

From Stdlib Require Import Ascii String QArith Qround DecimalString Floats.
From stdpp Require Import gmap strings list fin_maps.

Set Warnings "-register-all".

Local Open Scope string_scope.
Local Open Scope list_scope.
Local Open Scope Z_scope.

(** ** Texts *)

Module Str.

(** [str.lower] on one ASCII character. *)
Definition lower_ascii (c : ascii) : ascii :=
  let n := N_of_ascii c in
  if ((65 <=? n) && (n <=? 90))%N then ascii_of_N (n + 32) else c.

(** [s.lower()] *)
Fixpoint lower (s : string) : string :=
  match s with
  | EmptyString => EmptyString
  | String c s' => String (lower_ascii c) (lower s')
  end.

(** [p in s] for texts: [p] occurs in [s] as a contiguous run. *)
Fixpoint contains (p s : string) : bool :=
  String.prefix p s ||
  match s with
  | EmptyString => false
  | String _ s' => contains p s'
  end.

(** [x in l] for a list of texts. *)
Definition mem (x : string) (l : list string) : bool :=
  bool_decide (x ∈ l).

(** [sep.join(l)] *)
Fixpoint join (sep : string) (l : list string) : string :=
  match l with
  | [] => ""
  | [x] => x
  | x :: l' => x +:+ sep +:+ join sep l'
  end.

(** [f"{n}"] for an integer. *)
Definition of_Z (n : Z) : string := NilZero.string_of_int (Z.to_int n).

Definition of_nat (n : nat) : string := of_Z (Z.of_nat n).

(** The digits of [f"{n:,}"]: a comma before every group of three
    digits counted from the right. *)
Fixpoint group3 (digits : list ascii) (left : nat) : string :=
  match digits with
  | [] => ""
  | d :: ds =>
      String d (match ds with
                | [] => ""
                | _ => if (Nat.modulo left 3 =? 1)%nat
                       then String "," (group3 ds (Nat.pred left))
                       else group3 ds (Nat.pred left)
                end)
  end.

(** [f"{n:,}"] for a count. *)
Definition of_nat_grouped (n : nat) : string :=
  let ds := list_ascii_of_string (of_nat n) in
  group3 ds (length ds).

(** A continuation byte of UTF-8: [0b10xxxxxx]. *)
Definition continuation (c : ascii) : bool :=
  let n := N_of_ascii c in ((128 <=? n) && (n <? 192))%N.

(** [len(s)]: the number of characters of a text, every character being
    one byte followed by its continuation bytes. *)
Fixpoint len (s : string) : nat :=
  match s with
  | EmptyString => 0%nat
  | String c s' => if continuation c then len s' else S (len s')
  end.

End Str.

(** ** schema.py *)

Inductive SchemaType := RAW | NORMALIZED.

Definition RAW_REQUIRED_COLUMNS : list string :=
  ["site_no"; "sample_datetime"; "value"; "variable"; "unit"].

Definition RAW_DTYPES : list (string * string) :=
  [("site_no", "string"); ("sample_datetime", "datetime64[ns]");
   ("value", "float64"); ("variable", "string"); ("unit", "string");
   ("qualifier_flag", "string"); ("sdl", "float64"); ("mdl", "float64");
   ("variable_code", "string"); ("variable_fr", "string");
   ("qa_status", "string"); ("sample_id", "string")].

Definition NORMALIZED_REQUIRED_COLUMNS : list string :=
  ["station_id"; "timestamp"; "parameter"; "value"; "unit"].

Definition NORMALIZED_DTYPES : list (string * string) :=
  [("station_id", "string"); ("timestamp", "datetime64[ns]");
   ("parameter", "string"); ("value", "float64"); ("unit", "string");
   ("qualifier", "string"); ("qa_status", "string");
   ("sample_id", "string")].

(** [DataConstraints] *)
Module DataConstraints.
Definition MIN_VALUE : Q := (-1000)%Q.
Definition MAX_VALUE : Q := 1000000000%Q.
(** [f"{MIN_VALUE}"] and [f"{MAX_VALUE}"]: the [repr] of the two float
      literals [-1000.0] and [1e9]. *)
Definition MIN_VALUE_str : string := "-1000.0".
Definition MAX_VALUE_str : string := "1000000000.0".
Definition MIN_YEAR : Z := 1900.
Definition MAX_YEAR : Z := 2100.
Definition MAX_STATION_ID_LENGTH : nat := 50.
Definition VALID_QUALIFIERS : list string := ["<"; ">"; "~"; "E"; "U"; "nan"].
Definition VALID_QA_STATUS : list string := ["P"; "V"; "R"; "E"; "nan"].
End DataConstraints.

(** ** validate.py: the dtype compatibility predicate *)

(** [DataValidator._dtypes_compatible] *)
Definition _dtypes_compatible (actual expected : string) : bool :=
  let actual := Str.lower actual in
  let expected := Str.lower expected in
  if bool_decide (actual = expected) then true
  else if bool_decide (expected = "float64")
          && Str.mem actual ["float32"; "float64"; "int64"; "int32"] then true
  else if bool_decide (expected = "string")
          && Str.mem actual ["object"; "string"] then true
  else if Str.contains "datetime" expected && Str.contains "datetime" actual
       then true
  else false.

(** ** The table

    What the validator reads of a pandas [DataFrame]. *)

(** A naive timestamp: its calendar year and its position within that
    year, in nanoseconds.  Timestamps are ordered chronologically. *)
Record Timestamp := { year : Z; in_year : N }.

Definition Timestamp_ltb (t u : Timestamp) : bool :=
  (year t <? year u) || ((year t =? year u) && (in_year t <? in_year u)%N).

Definition Timestamp_eqb (t u : Timestamp) : bool :=
  (year t =? year u) && (in_year t =? in_year u)%N.

Inductive cell :=
| NA
| Num (x : Q)
| Str (s : string)
| Time (t : Timestamp).

(** [pd.isna] on one cell. *)
Definition isna (c : cell) : bool :=
  match c with NA => true | _ => false end.

Definition notna (c : cell) : bool := negb (isna c).

(** Equality of two cells as pandas hashes them for [unique], [nunique]
    and [duplicated]: by value, two missing cells being equal. *)
Definition cell_eqb (c d : cell) : bool :=
  match c, d with
  | NA, NA => true
  | Num x, Num y => Qeq_bool x y
  | Str s, Str t => bool_decide (s = t)
  | Time t, Time u => Timestamp_eqb t u
  | _, _ => false
  end.

Record Series := { dtype : string; values : list cell }.

Record DataFrame := { nrows : nat; columns : list (string * Series) }.

(** The tables pandas builds: every column as long as the index, no
    label twice. *)
Definition well_formed (df : DataFrame) : Prop :=
  Forall (fun c => length (values c.2) = nrows df) (columns df)
  /\ NoDup (map fst (columns df)).

(** [df.columns] *)
Definition column_labels (df : DataFrame) : list string :=
  map fst (columns df).

(** [df[col]], for a label known to be present. *)
Fixpoint lookup_column (col : string) (cols : list (string * Series))
  : option Series :=
  match cols with
  | [] => None
  | (l, s) :: cols' =>
      if bool_decide (l = col) then Some s else lookup_column col cols'
  end.

(** [col in df.columns] *)
Definition has_column (col : string) (df : DataFrame) : bool :=
  Str.mem col (column_labels df).

(** [df.empty]: some axis has length zero. *)
Definition empty (df : DataFrame) : bool :=
  (nrows df =? 0)%nat || (length (columns df) =? 0)%nat.

(** [s.dropna()] *)
Definition dropna (l : list cell) : list cell := filter (fun c => notna c = true) l.

(** [s.isna().sum()] *)
Definition isna_sum (l : list cell) : nat :=
  length (filter (fun c => isna c = true) l).

(** [c in seen] up to [cell_eqb]. *)
Definition cell_mem (c : cell) (seen : list cell) : bool :=
  existsb (cell_eqb c) seen.

(** [s.unique()]: the distinct cells in order of first appearance, the
    missing value included. *)
Fixpoint unique_from (seen : list cell) (l : list cell) : list cell :=
  match l with
  | [] => []
  | c :: l' =>
      if cell_mem c seen then unique_from seen l'
      else c :: unique_from (c :: seen) l'
  end.

Definition unique (l : list cell) : list cell := unique_from [] l.

(** [s.nunique()]: the number of distinct cells, missing ones left out. *)
Definition nunique (l : list cell) : nat := length (unique (dropna l)).

(** ** Exceptions *)

Inductive exception := TypeError | AttributeError.

Inductive exn (A : Type) :=
| Ok (a : A)
| Raise (e : exception).

Arguments Ok {A} a.
Arguments Raise {A} e.

Definition bind {A B : Type} (m : exn A) (k : A -> exn B) : exn B :=
  match m with
  | Ok a => k a
  | Raise e => Raise e
  end.

Notation "'let*' x ':=' m 'in' k" := (bind m (fun x => k))
  (at level 10, x name, m at level 200, k at level 200).

(** The order Python applies to two scalars: numbers with numbers, texts
    with texts, timestamps with timestamps; anything else raises
    [TypeError]. *)
Definition cell_ltb (c d : cell) : exn bool :=
  match c, d with
  | Num x, Num y => Ok (negb (Qle_bool y x))
  | Str s, Str t => Ok (String.ltb s t)
  | Time t, Time u => Ok (Timestamp_ltb t u)
  | _, _ => Raise TypeError
  end.

(** [s.min()] and [s.max()] on a series without missing cells: a left to
    right scan keeping the least (greatest) cell seen so far. *)
Fixpoint scan_min (best : cell) (l : list cell) : exn cell :=
  match l with
  | [] => Ok best
  | c :: l' => let* b := cell_ltb c best in scan_min (if b then c else best) l'
  end.

Fixpoint scan_max (best : cell) (l : list cell) : exn cell :=
  match l with
  | [] => Ok best
  | c :: l' => let* b := cell_ltb best c in scan_max (if b then c else best) l'
  end.

(** [sorted(l)]: insertion into an already sorted prefix. *)
Fixpoint insert_sorted (c : cell) (l : list cell) : exn (list cell) :=
  match l with
  | [] => Ok [c]
  | d :: l' =>
      let* b := cell_ltb d c in
      if b then (let* r := insert_sorted c l' in Ok (d :: r)) else Ok (c :: l)
  end.

Fixpoint sorted (l : list cell) : exn (list cell) :=
  match l with
  | [] => Ok []
  | c :: l' => let* r := sorted l' in insert_sorted c r
  end.

(** ** ValidationResult *)

(** The values stored in [info]: counts, floats, texts, scalars taken from
    the table, lists and string-keyed dicts of these. *)
Inductive info_value :=
| IInt (n : Z)
| IFloat (q : Q)
| IStr (s : string)
| ICell (c : cell)
| IList (l : list info_value)
| IDict (d : list (string * info_value)).

Record ValidationResult := {
  is_valid : bool;
  errors : list string;
  warnings : list string;
  info : gmap string info_value
}.

(** [ValidationResult(is_valid=True)] *)
Definition new_result : ValidationResult :=
  {| is_valid := true; errors := []; warnings := []; info := ∅ |}.

(** [ValidationResult.add_error] *)
Definition add_error (message : string) (r : ValidationResult)
  : ValidationResult :=
  {| is_valid := false;
     errors := errors r ++ [message];
     warnings := warnings r;
     info := info r |}.

(** [ValidationResult.add_warning] *)
Definition add_warning (message : string) (r : ValidationResult)
  : ValidationResult :=
  {| is_valid := is_valid r;
     errors := errors r;
     warnings := warnings r ++ [message];
     info := info r |}.

(** [ValidationResult.add_info] *)
Definition add_info (key : string) (value : info_value) (r : ValidationResult)
  : ValidationResult :=
  {| is_valid := is_valid r;
     errors := errors r;
     warnings := warnings r;
     info := <[key := value]> (info r) |}.

(** ** DataValidator *)

(** [d[key]] and [key in d] for the dtype tables. *)
Fixpoint dict_get (key : string) (d : list (string * string)) : option string :=
  match d with
  | [] => None
  | (k, v) :: d' => if bool_decide (k = key) then Some v else dict_get key d'
  end.

Definition Qgtb (x y : Q) : bool := negb (Qle_bool x y).

(** [(null_count / len(df)) * 100] *)
Definition null_percent (null_count len : nat) : Q :=
  (inject_Z (Z.of_nat null_count) / inject_Z (Z.of_nat len)) * 100.

Definition critical_cols (schema_type : SchemaType) : list string :=
  match schema_type with
  | NORMALIZED => ["timestamp"; "station_id"; "parameter"; "value"]
  | RAW => ["sample_datetime"; "site_no"; "variable"; "value"]
  end.

Definition date_col (schema_type : SchemaType) : string :=
  match schema_type with
  | NORMALIZED => "timestamp"
  | RAW => "sample_datetime"
  end.

Definition id_cols (schema_type : SchemaType) : list string :=
  match schema_type with
  | NORMALIZED => ["timestamp"; "station_id"; "parameter"]
  | RAW => ["sample_datetime"; "site_no"; "variable"]
  end.

Definition station_col (schema_type : SchemaType) : string :=
  match schema_type with NORMALIZED => "station_id" | RAW => "site_no" end.

Definition param_col (schema_type : SchemaType) : string :=
  match schema_type with NORMALIZED => "parameter" | RAW => "variable" end.

Definition qual_col (schema_type : SchemaType) : string :=
  match schema_type with NORMALIZED => "qualifier" | RAW => "qualifier_flag" end.

(** [(s < bound).sum()] and [(s > bound).sum()], cell by cell. *)
Fixpoint count_where (p : cell -> exn bool) (l : list cell) : exn nat :=
  match l with
  | [] => Ok 0%nat
  | c :: l' =>
      let* b := p c in
      let* n := count_where p l' in
      Ok (if b then S n else n)
  end.

(** The least and the greatest of the parsed dates. *)
Definition min_date (t : Timestamp) (l : list Timestamp) : Timestamp :=
  fold_left (fun best u => if Timestamp_ltb u best then u else best) l t.

Definition max_date (t : Timestamp) (l : list Timestamp) : Timestamp :=
  fold_left (fun best u => if Timestamp_ltb best u then u else best) l t.

(** [(valid_dates > now).sum()] *)
Definition future_count (now : Timestamp) (valid_dates : list Timestamp) : nat :=
  length (filter (fun t => Timestamp_ltb now t = true) valid_dates).

(** The rows of [df[subset]]: row [i] holds cell [i] of every column. *)
Definition key_rows (cols : list (list cell)) (n : nat) : list (list cell) :=
  map (fun i => map (fun c => nth i c NA) cols) (seq 0 n).

Fixpoint key_eqb (k k' : list cell) : bool :=
  match k, k' with
  | [], [] => true
  | c :: k, c' :: k' => cell_eqb c c' && key_eqb k k'
  | _, _ => false
  end.

(** [df.duplicated(subset=...)] with the default [keep='first']: a row is
    flagged when an earlier row carries the same key. *)
Fixpoint duplicated_from (seen : list (list cell)) (rows : list (list cell))
  : list bool :=
  match rows with
  | [] => []
  | k :: rows' => existsb (key_eqb k) seen :: duplicated_from (k :: seen) rows'
  end.

Definition duplicated (rows : list (list cell)) : list bool :=
  duplicated_from [] rows.

(** [mask.sum()] *)
Definition bool_sum (mask : list bool) : nat :=
  length (filter (fun b => b = true) mask).

Definition is_num (c : cell) : bool := match c with Num _ => true | _ => false end.
Definition is_str (c : cell) : bool := match c with Str _ => true | _ => false end.
Definition is_time (c : cell) : bool := match c with Time _ => true | _ => false end.

(** The [.str] accessor of an object column refuses (with
    [AttributeError]) a column whose present cells are all numbers or all
    timestamps. *)
Definition str_accessor (l : list cell) : exn (list cell) :=
  match dropna l with
  | [] => Ok l
  | nn => if forallb is_num nn || forallb is_time nn
          then Raise AttributeError else Ok l
  end.

(** [s.str.len().max()]: the greatest length over the texts of the column,
    [None] (NaN) when it holds no text. *)
Definition str_len_max (l : list cell) : option nat :=
  fold_left (fun best c =>
               match c, best with
               | Str s, Some n => Some (Nat.max n (Str.len s))
               | Str s, None => Some (Str.len s)
               | _, _ => best
               end) l None.

(** [f"{max_len}"]: the lengths are an integer series when every cell is
    a text and a float series otherwise. *)
Definition max_len_str (l : list cell) (max_len : nat) : string :=
  if forallb is_str l then Str.of_nat max_len else Str.of_nat max_len +:+ ".0".

(** What the module calls of Python and pandas without constraining it. *)
Record Runtime := {
  (** [f"{x:.1f}"] for a float *)
  fmt_1f : Q -> string;
  (** [str(x)] for a number of the table *)
  str_num : Q -> string;
  (** [str(t)] for a timestamp *)
  str_timestamp : Timestamp -> string;
  (** the parser behind [pd.to_datetime(..., errors='coerce')]: the
      timestamp read from a present cell, or [None] where it fails; it may
      consult the whole column to settle on a format *)
  parse_datetime : list cell -> cell -> option Timestamp;
  (** whether [pd.to_datetime(..., errors='coerce')] returns the column
      with a time zone, as it does for texts that carry a UTC offset and
      for a column that is already tz-aware; its timestamps are then not
      ordered against the naive [pd.Timestamp.now()] *)
  tz_aware : list cell -> bool;
  (** the order in which the interpreter iterates a [set] of texts *)
  set_iter : gset string -> list string;
  (** [str(Path(p))]: the text of the path built from the text [p] *)
  str_path : string -> string
}.

Section Validator.

Variable rt : Runtime.

(** [self.schema_type] *)
Variable schema_type : SchemaType.

(** [str(q)] for a cell of the table. *)
Definition str_cell (c : cell) : string :=
  match c with
  | NA => "nan"
  | Num x => str_num rt x
  | Str s => s
  | Time t => str_timestamp rt t
  end.

(** [pd.to_datetime(s, errors='coerce')]: a missing cell stays missing
    (NaT), a timestamp is kept, any other cell goes through the parser. *)
Definition coerce (column : list cell) (c : cell) : option Timestamp :=
  match c with
  | NA => None
  | Time t => Some t
  | _ => parse_datetime rt column c
  end.

Definition to_datetime (l : list cell) : list (option Timestamp) :=
  map (coerce l) l.

Definition required_cols : list string :=
  match schema_type with
  | RAW => RAW_REQUIRED_COLUMNS
  | NORMALIZED => NORMALIZED_REQUIRED_COLUMNS
  end.

Definition expected_dtypes : list (string * string) :=
  match schema_type with
  | RAW => RAW_DTYPES
  | NORMALIZED => NORMALIZED_DTYPES
  end.

(** *** validate_schema *)

Definition missing_cols (df : DataFrame) : list string :=
  filter (fun col => has_column col df = false) required_cols.

Definition check_missing (df : DataFrame) (result : ValidationResult)
  : ValidationResult :=
  match missing_cols df with
  | [] => result
  | missing =>
      add_info "missing_columns" (IList (map IStr missing))
        (add_error ("Missing required columns: " +:+ Str.join ", " missing)
           result)
  end.

Definition unexpected_cols (df : DataFrame) : gset string :=
  list_to_set (column_labels df) ∖ list_to_set (map fst expected_dtypes).

Definition check_unexpected (df : DataFrame) (result : ValidationResult)
  : ValidationResult :=
  let unexpected := unexpected_cols df in
  if bool_decide (unexpected = ∅) then result
  else
    add_info "unexpected_columns" (IList (map IStr (set_iter rt unexpected)))
      (add_warning
         ("Unexpected columns found: " +:+ Str.join ", " (set_iter rt unexpected))
         result).

Definition dtype_issues (df : DataFrame) : list string :=
  flat_map
    (fun col =>
       match dict_get col expected_dtypes, lookup_column col (columns df) with
       | Some expected_dtype, Some s =>
           let actual_dtype := dtype s in
           if _dtypes_compatible actual_dtype expected_dtype then []
           else [col +:+ ": expected " +:+ expected_dtype
                     +:+ ", got " +:+ actual_dtype]
       | _, _ => []
       end)
    (column_labels df).

Definition check_dtypes (df : DataFrame) (result : ValidationResult)
  : ValidationResult :=
  match dtype_issues df with
  | [] => result
  | issues =>
      fold_left (fun r issue => add_warning ("  - " +:+ issue) r) issues
        (add_warning "Data type mismatches found:" result)
  end.

Definition validate_schema (df : DataFrame) : ValidationResult :=
  let result := new_result in
  if empty df then add_error "DataFrame is empty (0 rows)" result
  else
    let result := add_info "row_count" (IInt (Z.of_nat (nrows df))) result in
    let result :=
      add_info "column_count" (IInt (Z.of_nat (length (columns df)))) result in
    let result := check_missing df result in
    let result := check_unexpected df result in
    check_dtypes df result.

(** *** validate_data_quality *)

Definition null_message (col : string) (null_count : nat) (null_pct : Q)
  : string :=
  "Column '" +:+ col +:+ "' has " +:+ Str.of_nat_grouped null_count
    +:+ " null values (" +:+ fmt_1f rt null_pct +:+ "%)".

(** One turn of the loop over the critical columns; the state is the
    result and the [null_counts] dict built so far. *)
Definition check_nulls_col (df : DataFrame)
    (st : ValidationResult * list (string * info_value)) (col : string)
  : ValidationResult * list (string * info_value) :=
  let '(result, null_counts) := st in
  if has_column col df then
    match lookup_column col (columns df) with
    | Some s =>
        let null_count := isna_sum (values s) in
        if (0 <? null_count)%nat then
          let null_pct := null_percent null_count (nrows df) in
          let null_counts :=
            null_counts ++
              [(col, IDict [("count", IInt (Z.of_nat null_count));
                            ("percent", IFloat null_pct)])] in
          if Qgtb null_pct 50 then
            (add_error (null_message col null_count null_pct) result,
             null_counts)
          else if Qgtb null_pct 10 then
            (add_warning (null_message col null_count null_pct) result,
             null_counts)
          else (result, null_counts)
        else st
    | None => st
    end
  else st.

Definition check_nulls (df : DataFrame) (result : ValidationResult)
  : ValidationResult :=
  let '(result, null_counts) :=
    fold_left (check_nulls_col df) (critical_cols schema_type) (result, []) in
  match null_counts with
  | [] => result
  | _ => add_info "null_counts" (IDict null_counts) result
  end.

Definition below_message (count : nat) : string :=
  Str.of_nat count +:+ " values below minimum threshold ("
    +:+ DataConstraints.MIN_VALUE_str +:+ ")".

Definition above_message (count : nat) : string :=
  Str.of_nat count +:+ " values above maximum threshold ("
    +:+ DataConstraints.MAX_VALUE_str +:+ ")".

Definition check_below (min_val : cell) (non_null_values : list cell)
    (result : ValidationResult) : exn ValidationResult :=
  let* below := cell_ltb min_val (Num DataConstraints.MIN_VALUE) in
  if below then
    let* count :=
      count_where (fun v => cell_ltb v (Num DataConstraints.MIN_VALUE))
        non_null_values in
    Ok (add_warning (below_message count) result)
  else Ok result.

Definition check_above (max_val : cell) (non_null_values : list cell)
    (result : ValidationResult) : exn ValidationResult :=
  let* above := cell_ltb (Num DataConstraints.MAX_VALUE) max_val in
  if above then
    let* count :=
      count_where (fun v => cell_ltb (Num DataConstraints.MAX_VALUE) v)
        non_null_values in
    Ok (add_warning (above_message count) result)
  else Ok result.

Definition check_value_range (df : DataFrame) (result : ValidationResult)
  : exn ValidationResult :=
  let value_col := "value" in
  if has_column value_col df then
    match lookup_column value_col (columns df) with
    | Some s =>
        let non_null_values := dropna (values s) in
        match non_null_values with
        | [] => Ok result
        | c :: rest =>
            let* min_val := scan_min c rest in
            let* max_val := scan_max c rest in
            let result :=
              add_info "value_range"
                (IDict [("min", ICell min_val); ("max", ICell max_val)])
                result in
            let* result := check_below min_val non_null_values result in
            check_above max_val non_null_values result
        end
    | None => Ok result
    end
  else Ok result.

(** [dates.isna().sum() - df[date_col].isna().sum()] *)
Definition invalid_dates (s : Series) : Z :=
  Z.of_nat (length (filter (fun d => d = None) (to_datetime (values s))))
  - Z.of_nat (isna_sum (values s)).

(** [dates.dropna()] *)
Definition valid_dates (s : Series) : list Timestamp :=
  omap id (to_datetime (values s)).

Definition invalid_dates_message (n : Z) : string :=
  Str.of_Z n +:+ " datetime values could not be parsed".

Definition min_year_message (y : Z) : string :=
  "Dates before " +:+ Str.of_Z DataConstraints.MIN_YEAR
    +:+ " found (earliest: " +:+ Str.of_Z y +:+ ")".

Definition max_year_message (y : Z) : string :=
  "Dates after " +:+ Str.of_Z DataConstraints.MAX_YEAR
    +:+ " found (latest: " +:+ Str.of_Z y +:+ ")".

Definition future_message (n : nat) : string :=
  Str.of_nat n +:+ " timestamps are in the future".

Definition check_invalid_dates (s : Series) (result : ValidationResult)
  : ValidationResult :=
  if 0 <? invalid_dates s
  then add_error (invalid_dates_message (invalid_dates s)) result
  else result.

(** The checks on the parsed dates; [now] is [pd.Timestamp.now()], a
    naive timestamp, and [valid_dates > now] raises [TypeError] on
    tz-aware dates. *)
Definition check_date_range (now : Timestamp) (s : Series)
    (result : ValidationResult) : exn ValidationResult :=
  match valid_dates s with
  | [] => Ok result
  | t :: rest =>
      let min_date := min_date t rest in
      let max_date := max_date t rest in
      let result :=
        add_info "date_range"
          (IDict [("min", IStr (str_timestamp rt min_date));
                  ("max", IStr (str_timestamp rt max_date))]) result in
      let result :=
        if year min_date <? DataConstraints.MIN_YEAR
        then add_warning (min_year_message (year min_date)) result
        else result in
      let result :=
        if DataConstraints.MAX_YEAR <? year max_date
        then add_error (max_year_message (year max_date)) result
        else result in
      if tz_aware rt (values s) then Raise TypeError
      else
        let future_count := future_count now (t :: rest) in
        if (0 <? future_count)%nat
        then Ok (add_warning (future_message future_count) result)
        else Ok result
  end.

Definition check_dates (now : Timestamp) (df : DataFrame)
    (result : ValidationResult) : exn ValidationResult :=
  if has_column (date_col schema_type) df then
    match lookup_column (date_col schema_type) (columns df) with
    | Some s => check_date_range now s (check_invalid_dates s result)
    | None => Ok result
    end
  else Ok result.

Definition validate_data_quality (now : Timestamp) (df : DataFrame)
  : exn ValidationResult :=
  let result := new_result in
  if empty df then
    Ok (add_error "Cannot validate quality of empty DataFrame" result)
  else
    let result := check_nulls df result in
    let* result := check_value_range df result in
    check_dates now df result.

(** *** validate_business_rules *)

(** [df.duplicated(subset=id_cols).sum()] *)
(** [df[id_cols]], row by row. *)
Definition id_keys (df : DataFrame) : list (list cell) :=
  let subset :=
    omap (fun col => values <$> lookup_column col (columns df))
      (id_cols schema_type) in
  key_rows subset (nrows df).

Definition duplicate_count (df : DataFrame) : nat :=
  bool_sum (duplicated (id_keys df)).

Definition duplicate_message (n : nat) : string :=
  Str.of_nat n +:+ " duplicate records found (same timestamp + station + parameter)".

Definition check_duplicates (df : DataFrame) (result : ValidationResult)
  : ValidationResult :=
  if forallb (fun col => has_column col df) (id_cols schema_type) then
    let duplicate_count := duplicate_count df in
    if (0 <? duplicate_count)%nat then
      add_info "duplicate_count" (IInt (Z.of_nat duplicate_count))
        (add_warning (duplicate_message duplicate_count) result)
    else result
  else result.

Definition check_stations (df : DataFrame) (result : ValidationResult)
  : exn ValidationResult :=
  if has_column (station_col schema_type) df then
    match lookup_column (station_col schema_type) (columns df) with
    | Some s =>
        let unique_stations := nunique (values s) in
        let result :=
          add_info "unique_stations" (IInt (Z.of_nat unique_stations)) result in
        let result :=
          if (unique_stations =? 0)%nat
          then add_error "No unique stations found" result
          else result in
        if bool_decide (dtype s = "object") then
          let* texts := str_accessor (values s) in
          match str_len_max texts with
          | Some max_len =>
              if (DataConstraints.MAX_STATION_ID_LENGTH <? max_len)%nat then
                Ok (add_warning
                      ("Station IDs exceed max length ("
                         +:+ max_len_str texts max_len +:+ " > "
                         +:+ Str.of_nat DataConstraints.MAX_STATION_ID_LENGTH
                         +:+ ")") result)
              else Ok result
          | None => Ok result
          end
        else Ok result
    | None => Ok result
    end
  else Ok result.

Definition check_parameters (df : DataFrame) (result : ValidationResult)
  : exn ValidationResult :=
  if has_column (param_col schema_type) df then
    match lookup_column (param_col schema_type) (columns df) with
    | Some s =>
        let unique_params := nunique (values s) in
        let result :=
          add_info "unique_parameters" (IInt (Z.of_nat unique_params)) result in
        let result :=
          if (unique_params =? 0)%nat
          then add_error "No unique parameters found" result
          else result in
        let param_list := unique (values s) in
        let* names := sorted (filter (fun p => notna p = true) param_list) in
        Ok (add_info "parameters" (IList (map ICell names)) result)
    | None => Ok result
    end
  else Ok result.

(** The qualifier and the QA status checks: the distinct present codes of
    column [col] whose text is not among [valid]. *)
Definition check_codes (col heading : string) (valid : list string)
    (df : DataFrame) (result : ValidationResult) : ValidationResult :=
  if has_column col df then
    match lookup_column col (columns df) with
    | Some s =>
        let codes := unique (dropna (values s)) in
        let invalid :=
          filter (fun q => Str.mem (str_cell q) valid = false) codes in
        match invalid with
        | [] => result
        | _ => add_warning
                 (heading +:+ Str.join ", " (map str_cell invalid)) result
        end
    | None => result
    end
  else result.

Definition validate_business_rules (df : DataFrame) : exn ValidationResult :=
  let result := new_result in
  if empty df then Ok result
  else
    let result := check_duplicates df result in
    let* result := check_stations df result in
    let* result := check_parameters df result in
    let result :=
      check_codes (qual_col schema_type) "Unknown qualifier codes found: "
        DataConstraints.VALID_QUALIFIERS df result in
    let result :=
      check_codes "qa_status" "Unknown QA status codes found: "
        DataConstraints.VALID_QA_STATUS df result in
    Ok result.

(** *** validate_all *)

(** [d.update(other)]: the entries of [other] replace those of [d]. *)
Definition update (d other : gmap string info_value) : gmap string info_value :=
  other ∪ d.

Definition validate_all (now : Timestamp) (df : DataFrame)
  : exn ValidationResult :=
  let combined := new_result in
  let schema_result := validate_schema df in
  let* quality_result := validate_data_quality now df in
  let* business_result := validate_business_rules df in
  let combined_errors :=
    ((errors combined ++ errors schema_result) ++ errors quality_result)
      ++ errors business_result in
  let combined_warnings :=
    ((warnings combined ++ warnings schema_result) ++ warnings quality_result)
      ++ warnings business_result in
  let combined_info :=
    update (update (update (info combined) (info schema_result))
              (info quality_result)) (info business_result) in
  Ok {| is_valid := (length combined_errors =? 0)%nat;
        errors := combined_errors;
        warnings := combined_warnings;
        info := combined_info |}.

End Validator.

(** [validate_raw_data] and [validate_normalized_data] *)
Definition validate_raw_data (rt : Runtime) (now : Timestamp) (df : DataFrame)
  : exn ValidationResult := validate_all rt RAW now df.

Definition validate_normalized_data (rt : Runtime) (now : Timestamp)
    (df : DataFrame) : exn ValidationResult := validate_all rt NORMALIZED now df.

(** ** A runtime and tables to run the validator on *)

Module Demo.

(** A toy parser: four texts stand for a date at the start of the year
    they spell, the last of them in UTC; every other text and every
    number fails to parse. *)
Definition parse (column : list cell) (c : cell) : option Timestamp :=
  match c with
  | Str "1899" => Some {| year := 1899; in_year := 0 |}
  | Str "2024" => Some {| year := 2024; in_year := 0 |}
  | Str "2101" => Some {| year := 2101; in_year := 0 |}
  | Str "2024Z" => Some {| year := 2024; in_year := 0 |}
  | _ => None
  end.

(** A column that spells a date in UTC parses to tz-aware timestamps. *)
Definition zoned (column : list cell) : bool :=
  existsb (fun c => match c with Str "2024Z" => true | _ => false end) column.

(** A toy [Path]: a leading [./] is dropped. *)
Definition path_text (p : string) : string :=
  match p with
  | String "." (String "/" rest) => rest
  | _ => p
  end.

Definition rt : Runtime :=
  {| fmt_1f := fun q => Str.of_Z (Qfloor q) +:+ ".x";
     str_num := fun q => Str.of_Z (Qfloor q) +:+ ".x";
     str_timestamp := fun t => Str.of_Z (year t) +:+ "-..";
     parse_datetime := parse;
     tz_aware := zoned;
     set_iter := elements;
     str_path := path_text |}.

Definition now : Timestamp := {| year := 2025; in_year := 0 |}.

(** Two other readings of the clock. *)
Definition earlier : Timestamp := {| year := 2023; in_year := 0 |}.
Definition later : Timestamp := {| year := 2026; in_year := 0 |}.

Definition col (l : string) (d : string) (v : list cell) : string * Series :=
  (l, {| dtype := d; values := v |}).

Definition good : DataFrame :=
  {| nrows := 2;
     columns :=
       [col "station_id" "object" [Str "S1"; Str "S1"];
        col "timestamp" "object" [Str "2024"; Str "2024"];
        col "parameter" "object" [Str "PH"; Str "PH"];
        col "value" "float64" [Num 7; Num 8];
        col "unit" "object" [Str "u"; Str "u"];
        col "extra" "int64" [Num 1; Num 2]] |}.

(** A table whose columns are declared and whose index is empty. *)
Definition no_rows : DataFrame :=
  {| nrows := 0;
     columns := [col "station_id" "object" []; col "bogus" "int64" []] |}.

(** A table that lacks required columns. *)
Definition bad : DataFrame :=
  {| nrows := 1;
     columns := [col "station_id" "object" [Str "S1"];
                 col "value" "float64" [Num 7]] |}.

(** Ten rows: half of the values missing, one station missing, dates
    before 1900 and after 2100, one text that is no date, repeated keys
    and an unknown qualifier; the [unit] column is absent. *)
Definition messy_timestamp : Series :=
  {| dtype := "object";
     values := [Str "2024"; Str "2024"; Str "1899"; Str "2101"; Str "soon";
                NA; Str "2024"; Str "2024"; Str "2024"; Str "2024"] |}.

Definition messy_value : Series :=
  {| dtype := "float64";
     values := [Num 7; Num 8; NA; NA; NA; NA; NA; Num (-2000); Num 3; Num 4] |}.

Definition messy : DataFrame :=
  {| nrows := 10;
     columns :=
       [col "station_id" "object"
          [Str "S1"; Str "S1"; Str "S1"; Str "S2"; Str "S2";
           Str "S2"; Str "S3"; Str "S3"; Str "S3"; NA];
        ("timestamp", messy_timestamp);
        col "parameter" "object"
          [Str "PH"; Str "PH"; Str "PH"; Str "PH"; Str "PH";
           Str "TURBIDITY"; Str "PH"; Str "PH"; Str "PH"; Str "PH"];
        ("value", messy_value);
        col "qualifier" "object"
          [Str "<"; Str "Z"; NA; NA; NA; NA; NA; NA; NA; NA]] |}.

(** Two rows with one identity key and two values. *)
Definition pair : DataFrame :=
  {| nrows := 2;
     columns :=
       [col "site_no" "object" [Str "S1"; Str "S1"];
        col "sample_datetime" "object" [Str "2024"; Str "2024"];
        col "variable" "object" [Str "PH"; Str "PH"];
        col "value" "float64" [Num 7; Num 8];
        col "unit" "object" [Str "pH"; Str "pH"]] |}.

(** A value column read as text. *)
Definition text_values : DataFrame :=
  {| nrows := 1;
     columns := [col "value" "object" [Str "n/a"]] |}.

(** Two rows stamped in UTC. *)
Definition utc : DataFrame :=
  {| nrows := 2;
     columns :=
       [col "station_id" "object" [Str "S1"; Str "S2"];
        col "timestamp" "object" [Str "2024Z"; Str "2024Z"];
        col "parameter" "object" [Str "PH"; Str "PH"];
        col "value" "float64" [Num 7; Num 8];
        col "unit" "object" [Str "u"; Str "u"]] |}.

End Demo.


(** ** Texts: what tells two messages apart *)

Definition head (s : string) : option ascii :=
  match s with
  | String c _ => Some c
  | EmptyString => None
  end.

Definition sign_or_digit (c : ascii) : bool :=
  Str.mem (String c "")
    ["-"; "0"; "1"; "2"; "3"; "4"; "5"; "6"; "7"; "8"; "9"].

(** A message opening with a number opens with neither [C] nor [D]. *)
Definition numeric_head (m : string) : Prop :=
  exists c, head m = Some c /\ sign_or_digit c = true.

(** ** The dtype rule of the specification *)

(** The rule as the specification words it, on lowercased labels: equal
    labels; a floating-point expectation met by a 32- or 64-bit integer or
    float; a string expectation met by a string-like label; both labels
    holding "timestamp" or "datetime". *)
Definition spec_dtypes_compatible (actual expected : string) : Prop :=
  let a := Str.lower actual in
  let e := Str.lower expected in
  let temporal s :=
    Str.contains "timestamp" s = true \/ Str.contains "datetime" s = true in
  a = e
  \/ ((e = "float32" \/ e = "float64")
      /\ (a = "int32" \/ a = "int64" \/ a = "float32" \/ a = "float64"))
  \/ (e = "string" /\ (a = "object" \/ a = "string"))
  \/ (temporal e /\ temporal a).

Definition occurs_in (p s : string) : Prop :=
  exists pre post, s = pre +:+ p +:+ post.

(** ** The validity invariant and the results a call produces *)

(** [is_valid] says that no error was recorded. *)
Definition consistent (r : ValidationResult) : Prop :=
  is_valid r = true <-> errors r = [].

(** [r] is what one of the four entry points returns on [df]. *)
Inductive produced (rt : Runtime) (schema_type : SchemaType)
    (now : Timestamp) (df : DataFrame) (r : ValidationResult) : Prop :=
| by_validate_schema :
    validate_schema rt schema_type df = r -> produced rt schema_type now df r
| by_validate_data_quality :
    validate_data_quality rt schema_type now df = Ok r ->
    produced rt schema_type now df r
| by_validate_business_rules :
    validate_business_rules rt schema_type df = Ok r ->
    produced rt schema_type now df r
| by_validate_all :
    validate_all rt schema_type now df = Ok r ->
    produced rt schema_type now df r.

(** A later check of the business pass: it keeps the warnings recorded so
    far and the [duplicate_count] entry, and the only errors it may add
    are the two cardinality errors. *)
Definition later_check (r r' : ValidationResult) : Prop :=
  (consistent r -> consistent r')
  /\ (exists W, warnings r' = warnings r ++ W)
  /\ info r' !! "duplicate_count" = info r !! "duplicate_count"
  /\ (exists E, errors r' = errors r ++ E
               /\ Forall (fun m => m = "No unique stations found"
                                   \/ m = "No unique parameters found") E).

(** ** The findings of the quality pass, check by check *)

(** The null finding of column [col]: its null count and percentage, when
    the column is present and holds a null. *)
Definition null_finding (df : DataFrame) (col : string) : option (nat * Q) :=
  if has_column col df then
    match lookup_column col (columns df) with
    | Some s =>
        let null_count := isna_sum (values s) in
        if (0 <? null_count)%nat
        then Some (null_count, null_percent null_count (nrows df))
        else None
    | None => None
    end
  else None.

Definition null_errors (rt : Runtime) (df : DataFrame) (cols : list string)
  : list string :=
  flat_map
    (fun col =>
       match null_finding df col with
       | Some (k, pct) =>
           if Qgtb pct 50 then [null_message rt col k pct] else []
       | None => []
       end) cols.

Definition null_warnings (rt : Runtime) (df : DataFrame) (cols : list string)
  : list string :=
  flat_map
    (fun col =>
       match null_finding df col with
       | Some (k, pct) =>
           if Qgtb pct 50 then []
           else if Qgtb pct 10 then [null_message rt col k pct] else []
       | None => []
       end) cols.

(** The date column of the table, when present. *)
Definition date_series (schema_type : SchemaType) (df : DataFrame)
  : option Series :=
  if has_column (date_col schema_type) df
  then lookup_column (date_col schema_type) (columns df)
  else None.

Definition date_errors (rt : Runtime) (s : Series) : list string :=
  (if 0 <? invalid_dates rt s
   then [invalid_dates_message (invalid_dates rt s)] else [])
  ++ match valid_dates rt s with
     | [] => []
     | t :: rest =>
         if DataConstraints.MAX_YEAR <? year (max_date t rest)
         then [max_year_message (year (max_date t rest))] else []
     end.

Definition date_warnings (rt : Runtime) (now : Timestamp) (s : Series)
  : list string :=
  match valid_dates rt s with
  | [] => []
  | t :: rest =>
      (if year (min_date t rest) <? DataConstraints.MIN_YEAR
       then [min_year_message (year (min_date t rest))] else [])
      ++ (if (0 <? future_count now (t :: rest))%nat
          then [future_message (future_count now (t :: rest))] else [])
  end.

(** The present cells of a column that the coercion turns into NaT. *)
Definition failed_to_parse (rt : Runtime) (s : Series) : nat :=
  length
    (filter (fun c => notna c = true /\ coerce rt (values s) c = None)
       (values s)).

(** ** The clock *)

(** The dates the quality pass compares with the clock. *)
Definition parsed_dates (rt : Runtime) (schema_type : SchemaType)
    (df : DataFrame) : list Timestamp :=
  match date_series schema_type df with
  | Some s => valid_dates rt s
  | None => []
  end.

(** ** The null percentage in binary64 *)

(** [(null_count / len(df)) * 100] as the interpreter evaluates it, on
    IEEE 754 doubles. *)
Definition null_percent_f64 (null_count len : nat) : float :=
  let to_float n := PrimFloat.of_uint63 (Uint63.of_Z (Z.of_nat n)) in
  PrimFloat.mul (PrimFloat.div (to_float null_count) (to_float len)) 100%float.

(** Both threshold tests give the same answer on the double and on the
    exact percentage, for [null_count] nulls among [len] rows. *)
Definition thresholds_agree (null_count len : nat) : bool :=
  let exact := null_percent null_count len in
  let double := null_percent_f64 null_count len in
  bool_decide (Qgtb exact 50 = PrimFloat.ltb 50%float double)
  && bool_decide (Qgtb exact 10 = PrimFloat.ltb 10%float double).

(** ** Tables on which the passes return *)

(** The cells of column [col], when present, all satisfy [p] or are
    missing. *)
Definition column_of (p : cell -> bool) (col : string) (df : DataFrame) : Prop :=
  forall s, lookup_column col (columns df) = Some s ->
            Forall (fun c => p c = true \/ c = NA) (values s).

(** ** schema.py: the registry and the column mapping *)

Definition RAW_OPTIONAL_COLUMNS : list string :=
  ["qualifier_flag"; "sdl"; "mdl"; "variable_code"; "variable_fr";
   "qa_status"; "sample_id"].

Definition RAW_ALL_COLUMNS : gset string :=
  list_to_set (RAW_REQUIRED_COLUMNS ++ RAW_OPTIONAL_COLUMNS).

Definition NORMALIZED_OPTIONAL_COLUMNS : list string :=
  ["qualifier"; "qa_status"; "sample_id"].

Definition NORMALIZED_ALL_COLUMNS : gset string :=
  list_to_set (NORMALIZED_REQUIRED_COLUMNS ++ NORMALIZED_OPTIONAL_COLUMNS).

Definition COLUMN_MAPPING : list (string * string) :=
  [("site_no", "station_id"); ("sample_datetime", "timestamp");
   ("variable", "parameter"); ("value", "value"); ("unit", "unit");
   ("qualifier_flag", "qualifier"); ("qa_status", "qa_status");
   ("sample_id", "sample_id")].

(** [d[key] = value] on a dict kept in insertion order: an existing key
    keeps its place and takes the new value, a new key goes last. *)
Fixpoint dict_set (key value : string) (d : list (string * string))
  : list (string * string) :=
  match d with
  | [] => [(key, value)]
  | (k, v) :: d' =>
      if bool_decide (k = key) then (k, value) :: d'
      else (k, v) :: dict_set key value d'
  end.

(** [{v: k for k, v in d.items()}] *)
Definition dict_reverse (d : list (string * string)) : list (string * string) :=
  fold_left (fun acc kv => dict_set kv.2 kv.1 acc) d [].

Definition REVERSE_COLUMN_MAPPING : list (string * string) :=
  dict_reverse COLUMN_MAPPING.

(** The dict [get_schema_info] returns. *)
Record SchemaInfo := {
  type : string;
  required_columns : list string;
  optional_columns : list string;
  all_columns : gset string;
  dtypes : list (string * string)
}.

(** [get_schema_info] *)
Definition get_schema_info (schema_type : SchemaType) : SchemaInfo :=
  match schema_type with
  | RAW =>
      {| type := "raw";
         required_columns := RAW_REQUIRED_COLUMNS;
         optional_columns := RAW_OPTIONAL_COLUMNS;
         all_columns := RAW_ALL_COLUMNS;
         dtypes := RAW_DTYPES |}
  | NORMALIZED =>
      {| type := "normalized";
         required_columns := NORMALIZED_REQUIRED_COLUMNS;
         optional_columns := NORMALIZED_OPTIONAL_COLUMNS;
         all_columns := NORMALIZED_ALL_COLUMNS;
         dtypes := NORMALIZED_DTYPES |}
  end.

(** The [descriptions] table of [get_column_description]. *)
Definition descriptions : list (string * string) :=
  [("station_id", "Unique identifier for the monitoring station");
   ("timestamp", "Date and time of sample collection");
   ("parameter", "Name of the water quality parameter being measured");
   ("value", "Numeric measurement value");
   ("unit", "Unit of measurement (e.g., MG/L, DEG C, NTU)");
   ("qualifier", "Data qualifier flag (e.g., < for below detection limit)");
   ("qa_status", "Quality assurance status code (P=Provisional, V=Validated)");
   ("sample_id", "Unique identifier for the sample");
   ("site_no", "Station/site identifier code");
   ("sample_datetime", "Timestamp of sample collection");
   ("variable", "Water quality parameter name");
   ("variable_code", "Numeric code for the parameter");
   ("variable_fr", "French translation of parameter name");
   ("qualifier_flag", "Data quality qualifier");
   ("sdl", "Sample detection limit");
   ("mdl", "Method detection limit")].

(** [get_column_description]: [descriptions.get(column_name, fallback)] *)
Definition get_column_description (column_name : string)
    (schema_type : SchemaType) : string :=
  match dict_get column_name descriptions with
  | Some description => description
  | None => "Column: " +:+ column_name
  end.

(** ** eccc_loader.py *)

Module ECCCLoader.

(** What the loader raises. *)
Inductive exception :=
| FileNotFoundError (msg : string)
| ValueError (msg : string)
| RuntimeError (msg : string)
| KeyError (key : string).

(** What the file system holds at [file_path]: nothing, something
    [pd.read_csv] fails on (with the text of its exception), or a CSV that
    reads as a table. *)
Inductive file :=
| Missing
| Unreadable (why : string)
| Csv (df : DataFrame).

(** The fields of the loader, and the lines it has printed; the [Path]
    held by [file_path] is known by its text. *)
Record t := {
  file_path : string;
  raw_df : option DataFrame;
  normalized_df : option DataFrame;
  validation_result : option ValidationResult;
  stdout : list string
}.

(** A method either returns or raises; in both cases the loader is left
    in some state. *)
Inductive outcome (A : Type) :=
| Returns (a : A) (self : t)
| Raises (e : exception) (self : t).

Arguments Returns {A} a self.
Arguments Raises {A} e self.

Definition and_then {A B : Type} (m : outcome A) (k : A -> t -> outcome B)
  : outcome B :=
  match m with
  | Returns a self => k a self
  | Raises e self => Raises e self
  end.

(** [ECCCLoader(file_path)]: the loader keeps [Path(file_path)]. *)
Definition new (rt : Runtime) (path : string) : t :=
  {| file_path := str_path rt path;
     raw_df := None;
     normalized_df := None;
     validation_result := None;
     stdout := [] |}.

Definition set_raw_df (df : DataFrame) (self : t) : t :=
  {| file_path := file_path self;
     raw_df := Some df;
     normalized_df := normalized_df self;
     validation_result := validation_result self;
     stdout := stdout self |}.

Definition set_normalized_df (df : DataFrame) (self : t) : t :=
  {| file_path := file_path self;
     raw_df := raw_df self;
     normalized_df := Some df;
     validation_result := validation_result self;
     stdout := stdout self |}.

Definition set_validation_result (r : ValidationResult) (self : t) : t :=
  {| file_path := file_path self;
     raw_df := raw_df self;
     normalized_df := normalized_df self;
     validation_result := Some r;
     stdout := stdout self |}.

(** [print(line)] *)
Definition print (line : string) (self : t) : t :=
  {| file_path := file_path self;
     raw_df := raw_df self;
     normalized_df := normalized_df self;
     validation_result := validation_result self;
     stdout := stdout self ++ [line] |}.

(** [df[col] = s] for a label the table has: the column keeps its place. *)
Fixpoint set_column (col : string) (s : Series) (cols : list (string * Series))
  : list (string * Series) :=
  match cols with
  | [] => [(col, s)]
  | (l, s') :: cols' =>
      if bool_decide (l = col) then (l, s) :: cols'
      else (l, s') :: set_column col s cols'
  end.

(** [df[labels]]: the named columns, in the order of [labels]. *)
Definition select (labels : list string) (df : DataFrame) : DataFrame :=
  {| nrows := nrows df;
     columns :=
       omap (fun l => (fun s => (l, s)) <$> lookup_column l (columns df))
         labels |}.

(** [df.rename(columns=mapping)] *)
Definition rename (mapping : list (string * string)) (df : DataFrame)
  : DataFrame :=
  {| nrows := nrows df;
     columns :=
       map (fun c => (default c.1 (dict_get c.1 mapping), c.2)) (columns df) |}.

(** The table [normalize_columns] builds from the raw one under a column
    mapping: the mapped columns the raw table has, in the order of the
    mapping, under their new names. *)
Definition normalize_with (mapping : list (string * string)) (df : DataFrame)
  : DataFrame :=
  let columns_to_keep := filter (fun kv => has_column kv.1 df = true) mapping in
  rename columns_to_keep (select (map fst columns_to_keep) df).

Section Methods.

Variable rt : Runtime.

(** The dtype label of the series [pd.to_datetime] returns. *)
Variable datetime_dtype : string.

(** [ECCCLoader.load] *)
Definition load (fs : file) (self : t) : outcome DataFrame :=
  match fs with
  | Missing =>
      Raises (FileNotFoundError ("CSV file not found: " +:+ file_path self))
        self
  | Unreadable why => Raises (ValueError ("Failed to load CSV: " +:+ why)) self
  | Csv df =>
      let self := set_raw_df df self in
      if empty df then Raises (ValueError "CSV file is empty") self
      else Returns df self
  end.

(** [ECCCLoader.validate_schema]; the loader's validator is bound to the
    raw variant. *)
Definition validate_schema (self : t) : outcome ValidationResult :=
  match raw_df self with
  | None => Raises (RuntimeError "Must call load() before validate_schema()") self
  | Some df =>
      let result := validate_schema rt RAW df in
      Returns result (set_validation_result result self)
  end.

(** The series [pd.to_datetime(s, errors='coerce')] returns. *)
Definition parsed_series (s : Series) : Series :=
  {| dtype := datetime_dtype;
     values := map (fun d => match d with Some t => Time t | None => NA end)
                 (to_datetime rt (values s)) |}.

Definition parse_warning (null_count : nat) : string :=
  "Warning: " +:+ Str.of_nat null_count
    +:+ " datetime values could not be parsed".

(** [df['sample_datetime'] = pd.to_datetime(df['sample_datetime'], ...)] *)
Definition with_parsed_dates (df : DataFrame) (s : Series) : DataFrame :=
  {| nrows := nrows df;
     columns := set_column "sample_datetime" (parsed_series s) (columns df) |}.

(** [ECCCLoader.parse_dates] *)
Definition parse_dates (self : t) : outcome DataFrame :=
  match raw_df self with
  | None => Raises (RuntimeError "Must call load() before parse_dates()") self
  | Some df =>
      match lookup_column "sample_datetime" (columns df) with
      | None => Raises (KeyError "sample_datetime") self
      | Some s =>
          let parsed := parsed_series s in
          let df := with_parsed_dates df s in
          let self := set_raw_df df self in
          let null_count := isna_sum (values parsed) in
          let self :=
            if (0 <? null_count)%nat then print (parse_warning null_count) self
            else self in
          Returns df self
      end
  end.

(** [ECCCLoader.normalize_columns] *)
Definition normalize_columns (self : t) : outcome DataFrame :=
  match raw_df self with
  | None =>
      Raises (RuntimeError "Must call load() before normalize_columns()") self
  | Some df =>
      let normalized := normalize_with COLUMN_MAPPING df in
      Returns normalized (set_normalized_df normalized self)
  end.

Definition newline : string := String (ascii_of_nat 10) "".

(** [ECCCLoader.process] *)
Definition process (fs : file) (self : t) : outcome (option DataFrame) :=
  and_then (load fs self) (fun _ self =>
  and_then (validate_schema self) (fun validation self =>
  if negb (is_valid validation) then
    Raises (ValueError ("Schema validation failed:" +:+ newline
                          +:+ Str.join newline (errors validation))) self
  else
  and_then (parse_dates self) (fun _ self =>
  and_then (normalize_columns self) (fun _ self =>
  Returns (normalized_df self) self)))).

(** [load_eccc_data] *)
Definition load_eccc_data (path : string) (fs : file)
  : outcome (option DataFrame) :=
  process fs (new rt path).

End Methods.

End ECCCLoader.

(** ** The findings of the business pass *)

(** The error of a cardinality check: column [col], when present, has no
    distinct value. *)
Definition cardinality_errors (col message : string) (df : DataFrame)
  : list string :=
  match lookup_column col (columns df) with
  | Some s => if (nunique (values s) =? 0)%nat then [message] else []
  | None => []
  end.

(** Column [col] is present and every cell of it is missing. *)
Definition all_null (col : string) (df : DataFrame) : Prop :=
  exists s, lookup_column col (columns df) = Some s
            /\ Forall (fun c => c = NA) (values s).

(** ** The findings of the value check *)

(** [v < MIN_VALUE] and [v > MAX_VALUE] on a cell of a numeric series. *)
Definition below_min (c : cell) : bool :=
  match c with
  | Num x => negb (Qle_bool DataConstraints.MIN_VALUE x)
  | _ => false
  end.

Definition above_max (c : cell) : bool :=
  match c with
  | Num x => negb (Qle_bool x DataConstraints.MAX_VALUE)
  | _ => false
  end.

(** The warnings owed to the values [l]: one counting the values under
    the lower bound when there is one, then one counting the values over
    the upper bound when there is one. *)
Definition value_warnings (l : list cell) : list string :=
  let below := length (filter (fun c => below_min c = true) l) in
  let above := length (filter (fun c => above_max c = true) l) in
  (if (0 <? below)%nat then [below_message below] else [])
  ++ (if (0 <? above)%nat then [above_message above] else []).

(** [lo] is a least and [hi] a greatest number of [l]. *)
Definition least (lo : Q) (l : list cell) : Prop :=
  In (Num lo) l /\ forall y, In (Num y) l -> Qle lo y.

Definition greatest (hi : Q) (l : list cell) : Prop :=
  In (Num hi) l /\ forall y, In (Num y) l -> Qle y hi.

(** ** The warnings of the schema pass *)

Definition unexpected_warnings (rt : Runtime) (schema_type : SchemaType)
    (df : DataFrame) : list string :=
  let unexpected := unexpected_cols schema_type df in
  if bool_decide (unexpected = ∅) then []
  else ["Unexpected columns found: "
          +:+ Str.join ", " (set_iter rt unexpected)].

Definition dtype_warnings (schema_type : SchemaType) (df : DataFrame)
  : list string :=
  match dtype_issues schema_type df with
  | [] => []
  | issues =>
      "Data type mismatches found:" :: map (fun issue => "  - " +:+ issue) issues
  end.

(** Every column of the table is declared by the variant and holds a
    dtype compatible with the declared one. *)
Definition conforms (schema_type : SchemaType) (df : DataFrame) : Prop :=
  forall col, In col (column_labels df) ->
    exists expected s,
      dict_get col (expected_dtypes schema_type) = Some expected
      /\ lookup_column col (columns df) = Some s
      /\ _dtypes_compatible (dtype s) expected = true.

(** ** The warnings of the business pass *)

Definition duplicate_warnings (schema_type : SchemaType) (df : DataFrame)
  : list string :=
  if forallb (fun col => has_column col df) (id_cols schema_type) then
    if (0 <? duplicate_count schema_type df)%nat
    then [duplicate_message (duplicate_count schema_type df)]
    else []
  else [].

Definition station_message (l : list cell) (max_len : nat) : string :=
  "Station IDs exceed max length (" +:+ max_len_str l max_len +:+ " > "
    +:+ Str.of_nat DataConstraints.MAX_STATION_ID_LENGTH +:+ ")".

Definition station_warnings (schema_type : SchemaType) (df : DataFrame)
  : list string :=
  match lookup_column (station_col schema_type) (columns df) with
  | Some s =>
      if bool_decide (dtype s = "object") then
        match str_len_max (values s) with
        | Some max_len =>
            if (DataConstraints.MAX_STATION_ID_LENGTH <? max_len)%nat
            then [station_message (values s) max_len]
            else []
        | None => []
        end
      else []
  | None => []
  end.

(** The distinct present codes of [l] whose text is not among [valid], in
    order of first appearance. *)
Definition unknown_codes (rt : Runtime) (valid : list string) (l : list cell)
  : list cell :=
  filter (fun q => Str.mem (str_cell rt q) valid = false) (unique (dropna l)).

Definition code_warnings (rt : Runtime) (col heading : string)
    (valid : list string) (df : DataFrame) : list string :=
  match lookup_column col (columns df) with
  | Some s =>
      match unknown_codes rt valid (values s) with
      | [] => []
      | invalid => [heading +:+ Str.join ", " (map (str_cell rt) invalid)]
      end
  | None => []
  end.

(** The two code checks of the business pass. *)
Inductive code_check := Qualifiers | QaStatus.

Definition code_col (schema_type : SchemaType) (k : code_check) : string :=
  match k with
  | Qualifiers => qual_col schema_type
  | QaStatus => "qa_status"
  end.

Definition code_heading (k : code_check) : string :=
  match k with
  | Qualifiers => "Unknown qualifier codes found: "
  | QaStatus => "Unknown QA status codes found: "
  end.

Definition code_valid (k : code_check) : list string :=
  match k with
  | Qualifiers => DataConstraints.VALID_QUALIFIERS
  | QaStatus => DataConstraints.VALID_QA_STATUS
  end.

(** ** The parameter list *)

(** [c < d] holds in the order of [sorted]. *)
Definition cell_lt (c d : cell) : Prop := cell_ltb c d = Ok true.

(** [d] is under the first cell of [l], if any. *)
Definition below_head (d : cell) (l : list cell) : Prop :=
  match l with
  | [] => True
  | c :: _ => cell_lt d c
  end.

(** Every cell of [l] is under the next one. *)
Fixpoint increasing (l : list cell) : Prop :=
  match l with
  | [] => True
  | c :: l' => below_head c l' /\ increasing l'
  end.

(** ** Time zones *)

(** The date column, when present, parses to naive timestamps. *)
Definition naive_dates (rt : Runtime) (schema_type : SchemaType)
    (df : DataFrame) : Prop :=
  forall s, date_series schema_type df = Some s ->
            tz_aware rt (values s) = false.

(** ** Rows with the same identity key *)

(** Two cells that hold the same value: two missing cells, two equal
    numbers, the same text, the same instant. *)
Inductive same_cell : cell -> cell -> Prop :=
| same_NA : same_cell NA NA
| same_Num (x y : Q) : Qeq x y -> same_cell (Num x) (Num y)
| same_Str (s : string) : same_cell (Str s) (Str s)
| same_Time (t : Timestamp) : same_cell (Time t) (Time t).

(** Rows [i] and [j] of the column [l] hold the same value. *)
Definition same_at (l : list cell) (i j : nat) : Prop :=
  exists c c', l !! i = Some c /\ l !! j = Some c' /\ same_cell c c'.

(** * Properties *)

(** ** Texts *)

Lemma of_Z_head (n : Z) (s : string) :
  exists c, head (Str.of_Z n +:+ s) = Some c /\ sign_or_digit c = true.
Proof.
  unfold Str.of_Z. destruct (Z.to_int n) as [d|d]; simpl.
  - destruct d; simpl; eexists; split; reflexivity.
  - eexists; split; reflexivity.
Qed.

Lemma of_nat_head (n : nat) (s : string) :
  exists c, head (Str.of_nat n +:+ s) = Some c /\ sign_or_digit c = true.
Proof. apply of_Z_head. Qed.

Lemma numeric_head_not (m : string) (c : ascii) :
  numeric_head m -> sign_or_digit c = false -> head m <> Some c.
Proof.
  intros (d & Hd & Hs) Hc Heq. rewrite Hd in Heq.
  injection Heq as ->. congruence.
Qed.

(** [p in s] is: [s] reads [pre ++ p ++ post]. *)
Lemma prefix_spec (p s : string) :
  String.prefix p s = true <-> exists post, s = p +:+ post.
Proof.
  revert s. induction p as [|c p IH]; intros s.
  - split; [intros _; now exists s | intros _; now destruct s].
  - destruct s as [|d s]; simpl.
    + split; [discriminate | intros [post H]; discriminate H].
    + destruct (ascii_dec c d) as [->|Hne].
      * rewrite IH. split; intros [post H]; exists post.
        -- now rewrite H.
        -- now injection H.
      * split; [discriminate|]. intros [post H].
        injection H as H1 H2. congruence.
Qed.

Lemma contains_spec (p s : string) :
  Str.contains p s = true <-> exists pre post, s = pre +:+ p +:+ post.
Proof.
  induction s as [|d s IH]; cbn [Str.contains].
  - rewrite orb_false_r, prefix_spec. split.
    + intros [post H]. now exists "", post.
    + intros (pre & post & H). destruct pre; simpl in H.
      * eauto.
      * discriminate H.
  - rewrite orb_true_iff, IH, prefix_spec. split.
    + intros [[post H] | (pre & post & H)].
      * now exists "", post.
      * exists (String d pre), post. simpl. now rewrite H.
    + intros (pre & post & H). destruct pre as [|c pre]; simpl in H.
      * left. eauto.
      * right. injection H as _ H. eauto.
Qed.


Lemma mem_cons (x y : string) (l : list string) :
  Str.mem x (y :: l) = true <-> x = y \/ Str.mem x l = true.
Proof.
  unfold Str.mem. rewrite !bool_decide_eq_true, elem_of_cons. reflexivity.
Qed.

Lemma mem_nil (x : string) : Str.mem x [] = true <-> False.
Proof.
  unfold Str.mem. rewrite bool_decide_eq_true. split; [|tauto].
  intros H. inversion H.
Qed.

(** C3, amended: on the lowercased labels the predicate answers compatible
    exactly when the labels are equal, or the expected label is float64
    and the actual one is float32, float64, int64 or int32, or the
    expected label is string and the actual one is object or string, or
    both labels hold "datetime" as a substring; it is a total function, so
    it answers incompatible in every other case. *)
Theorem dtypes_compatible_exact (actual expected : string) :
  _dtypes_compatible actual expected = true <->
  (Str.lower actual = Str.lower expected
   \/ (Str.lower expected = "float64"
       /\ (Str.lower actual = "float32" \/ Str.lower actual = "float64"
           \/ Str.lower actual = "int64" \/ Str.lower actual = "int32"))
   \/ (Str.lower expected = "string"
       /\ (Str.lower actual = "object" \/ Str.lower actual = "string"))
   \/ (occurs_in "datetime" (Str.lower expected)
       /\ occurs_in "datetime" (Str.lower actual))).
Proof.
  unfold _dtypes_compatible, occurs_in.
  set (a := Str.lower actual). set (e := Str.lower expected).
  rewrite <- !contains_spec.
  destruct (bool_decide (a = e)) eqn:Hae.
  { apply bool_decide_eq_true in Hae. tauto. }
  apply bool_decide_eq_false in Hae.
  destruct (bool_decide (e = "float64") && _) eqn:Hf.
  { apply andb_true_iff in Hf as [He Ha].
    apply bool_decide_eq_true in He.
    rewrite !mem_cons, mem_nil in Ha. tauto. }
  destruct (bool_decide (e = "string") && _) eqn:Hs.
  { apply andb_true_iff in Hs as [He Ha].
    apply bool_decide_eq_true in He.
    rewrite !mem_cons, mem_nil in Ha. tauto. }
  apply andb_false_iff in Hf, Hs.
  rewrite bool_decide_eq_false in Hf, Hs.
  assert (Hf' : ~ (e = "float64"
                   /\ (a = "float32" \/ a = "float64" \/ a = "int64"
                       \/ a = "int32"))).
  { intros [He Ha]. destruct Hf as [Hf|Hf]; [tauto|].
    apply not_true_iff_false in Hf. apply Hf.
    rewrite !mem_cons, mem_nil. tauto. }
  assert (Hs' : ~ (e = "string" /\ (a = "object" \/ a = "string"))).
  { intros [He Ha]. destruct Hs as [Hs|Hs]; [tauto|].
    apply not_true_iff_false in Hs. apply Hs.
    rewrite !mem_cons, mem_nil. tauto. }
  destruct (Str.contains "datetime" e && Str.contains "datetime" a) eqn:Hd.
  - apply andb_true_iff in Hd. tauto.
  - apply andb_false_iff in Hd. split; [discriminate|].
    intros [H|[H|[H|[H1 H2]]]]; try tauto.
    destruct Hd; congruence.
Qed.

(** C3 as stated fails: both labels hold "timestamp" as a substring, which
    the stated rule accepts, and the predicate answers incompatible. *)
Lemma dtypes_compatible_timestamp_counterexample :
  spec_dtypes_compatible "timestamp" "timestamp[ns]"
  /\ _dtypes_compatible "timestamp" "timestamp[ns]" = false.
Proof.
  split.
  - unfold spec_dtypes_compatible. right. right. right.
    split; left; reflexivity.
  - reflexivity.
Qed.

(** The floating-point branch is keyed on the one label float64. *)
Example dtypes_float32_expected :
  _dtypes_compatible "int64" "float32" = false
  /\ _dtypes_compatible "INT64" "Float64" = true
  /\ _dtypes_compatible "datetime64[ns, UTC]" "datetime64[ns]" = true
  /\ _dtypes_compatible "float64" "int64" = false.
Proof. repeat split. Qed.

(** ** The accumulator *)

Implicit Types (r : ValidationResult) (df : DataFrame) (rt : Runtime).
Implicit Types (schema_type : SchemaType) (now : Timestamp) (m : string).

Lemma consistent_new : consistent new_result.
Proof. unfold consistent. simpl. tauto. Qed.

Lemma consistent_add_error m r : consistent (add_error m r).
Proof.
  unfold consistent. simpl. split; [discriminate|].
  intros H. destruct (errors r); discriminate H.
Qed.

Lemma consistent_add_warning m r : consistent r -> consistent (add_warning m r).
Proof. unfold consistent. simpl. tauto. Qed.

Lemma consistent_add_info k v r : consistent r -> consistent (add_info k v r).
Proof. unfold consistent. simpl. tauto. Qed.

Create HintDb result.
#[local] Hint Resolve consistent_new consistent_add_error
  consistent_add_warning consistent_add_info : result.

(** Walks through the branches of a check, one accumulator call at a
    time. *)
Ltac branches :=
  repeat match goal with
    | |- context [if ?b then _ else _] => destruct b eqn:?
    | |- context [match ?x with _ => _ end] => destruct x eqn:?
    end.

(** Opens a pass that returned: every bound computation returned too. *)
Ltac returned H :=
  repeat match type of H with
    | bind ?m _ = Ok _ =>
        let E := fresh "E" in
        destruct m eqn:E; cbn [bind] in H; [|discriminate H]
    | (if ?b then _ else _) = Ok _ => destruct b eqn:?
    | (match ?x with _ => _ end) = Ok _ => destruct x eqn:?
    | Raise _ = Ok _ => discriminate H
    | Ok _ = Ok _ => injection H as H; try subst
    end.

Lemma fold_warnings_consistent (f : string -> string) (l : list string) r :
  consistent r ->
  consistent (fold_left (fun r issue => add_warning (f issue) r) l r).
Proof.
  revert r. induction l as [|x l IH]; intros r Hr; simpl; auto with result.
Qed.

Lemma check_missing_consistent schema_type df r :
  consistent r -> consistent (check_missing schema_type df r).
Proof. intros Hr. unfold check_missing. branches; auto with result. Qed.

Lemma check_unexpected_consistent rt schema_type df r :
  consistent r -> consistent (check_unexpected rt schema_type df r).
Proof. intros Hr. unfold check_unexpected. branches; auto with result. Qed.

Lemma check_dtypes_consistent schema_type df r :
  consistent r -> consistent (check_dtypes schema_type df r).
Proof.
  intros Hr. unfold check_dtypes. destruct (dtype_issues schema_type df).
  - assumption.
  - apply fold_warnings_consistent with (f := fun i => "  - " +:+ i).
    auto with result.
Qed.

Lemma validate_schema_consistent rt schema_type df :
  consistent (validate_schema rt schema_type df).
Proof.
  unfold validate_schema. destruct (empty df); [auto with result|].
  apply check_dtypes_consistent, check_unexpected_consistent,
    check_missing_consistent.
  auto with result.
Qed.

Lemma check_nulls_col_consistent rt df st col :
  consistent st.1 -> consistent (check_nulls_col rt df st col).1.
Proof.
  intros Hr. destruct st as [r nc]. unfold check_nulls_col.
  branches; simpl; auto with result.
Qed.

Lemma fold_check_nulls_consistent rt df cols st :
  consistent st.1 ->
  consistent (fold_left (check_nulls_col rt df) cols st).1.
Proof.
  revert st. induction cols as [|c cols IH]; intros st Hst; simpl.
  - assumption.
  - apply IH, check_nulls_col_consistent, Hst.
Qed.

Lemma check_nulls_consistent rt schema_type df r :
  consistent r -> consistent (check_nulls rt schema_type df r).
Proof.
  intros Hr. unfold check_nulls.
  pose proof (fold_check_nulls_consistent rt df (critical_cols schema_type)
                (r, []) Hr) as H.
  destruct (fold_left _ _ _) as [r' nc]. simpl in H.
  destruct nc; auto with result.
Qed.

Lemma of_same_errors r r' :
  is_valid r' = is_valid r -> errors r' = errors r ->
  consistent r -> consistent r'.
Proof. unfold consistent. intros -> ->. tauto. Qed.

Lemma check_below_spec v l r r' :
  check_below v l r = Ok r' ->
  r' = r \/ exists n, r' = add_warning (below_message n) r.
Proof. unfold check_below. intros H. returned H; eauto. Qed.

Lemma check_above_spec v l r r' :
  check_above v l r = Ok r' ->
  r' = r \/ exists n, r' = add_warning (above_message n) r.
Proof. unfold check_above. intros H. returned H; eauto. Qed.

Lemma below_message_numeric n : numeric_head (below_message n).
Proof. apply of_nat_head. Qed.

Lemma above_message_numeric n : numeric_head (above_message n).
Proof. apply of_nat_head. Qed.

(** The value check records warnings only, each opening with a count. *)
Lemma check_value_range_spec df r r' :
  check_value_range df r = Ok r' ->
  is_valid r' = is_valid r /\ errors r' = errors r
  /\ exists W, warnings r' = warnings r ++ W /\ Forall numeric_head W.
Proof.
  unfold check_value_range. intros H. returned H;
    try (split; [reflexivity|split; [reflexivity|]];
         exists []; rewrite app_nil_r; split; [reflexivity|constructor]).
  apply check_below_spec in E1. apply check_above_spec in H.
  pose proof below_message_numeric. pose proof above_message_numeric.
  destruct E1 as [->|[n ->]], H as [->|[k ->]]; simpl;
    (split; [reflexivity|split; [reflexivity|]]).
  - exists []. rewrite app_nil_r. split; [reflexivity|constructor].
  - exists [above_message k]. split; [reflexivity|]. repeat constructor; auto.
  - exists [below_message n]. split; [reflexivity|]. repeat constructor; auto.
  - exists [below_message n; above_message k]. rewrite <- app_assoc.
    split; [reflexivity|]. repeat constructor; auto.
Qed.

Lemma check_value_range_consistent df r r' :
  check_value_range df r = Ok r' -> consistent r -> consistent r'.
Proof.
  intros H. apply check_value_range_spec in H as (Hv & He & _).
  now apply of_same_errors.
Qed.

Lemma check_dates_consistent rt schema_type now df r r' :
  check_dates rt schema_type now df r = Ok r' ->
  consistent r -> consistent r'.
Proof.
  unfold check_dates, check_date_range, check_invalid_dates.
  intros H Hr. returned H; branches; auto 10 with result.
Qed.

Lemma validate_data_quality_consistent rt schema_type now df r :
  validate_data_quality rt schema_type now df = Ok r -> consistent r.
Proof.
  unfold validate_data_quality. intros H.
  destruct (empty df).
  - injection H as <-. auto with result.
  - returned H.
    eapply check_dates_consistent; [eassumption|].
    eapply check_value_range_consistent; [eassumption|].
    apply check_nulls_consistent. auto with result.
Qed.

(** *** The business checks, one by one *)

Lemma check_duplicates_consistent schema_type df r :
  consistent r -> consistent (check_duplicates schema_type df r).
Proof. intros Hr. unfold check_duplicates. branches; auto with result. Qed.

Ltac later_split := unfold later_check; split; [|split; [|split]].

Lemma later_check_refl r : later_check r r.
Proof.
  later_split.
  - tauto.
  - exists []. now rewrite app_nil_r.
  - reflexivity.
  - exists []. rewrite app_nil_r. split; [reflexivity|constructor].
Qed.

Lemma later_check_trans r1 r2 r3 :
  later_check r1 r2 -> later_check r2 r3 -> later_check r1 r3.
Proof.
  intros (Hc1 & [W1 Hw1] & Hi1 & E1 & He1 & Hf1)
         (Hc2 & [W2 Hw2] & Hi2 & E2 & He2 & Hf2).
  later_split.
  - tauto.
  - exists (W1 ++ W2). now rewrite Hw2, Hw1, app_assoc.
  - congruence.
  - exists (E1 ++ E2). split.
    + now rewrite He2, He1, app_assoc.
    + apply Forall_app. tauto.
Qed.

Lemma later_add_warning m r : later_check r (add_warning m r).
Proof.
  later_split.
  - apply consistent_add_warning.
  - now exists [m].
  - reflexivity.
  - exists []. simpl. rewrite app_nil_r. split; [reflexivity|constructor].
Qed.

Lemma later_add_info k v r :
  k <> "duplicate_count" -> later_check r (add_info k v r).
Proof.
  intros Hk. later_split.
  - apply consistent_add_info.
  - exists []. simpl. now rewrite app_nil_r.
  - simpl. now apply lookup_insert_ne.
  - exists []. simpl. rewrite app_nil_r. split; [reflexivity|constructor].
Qed.

Lemma later_add_error m r :
  m = "No unique stations found" \/ m = "No unique parameters found" ->
  later_check r (add_error m r).
Proof.
  intros Hm. later_split.
  - intros _. apply consistent_add_error.
  - exists []. simpl. now rewrite app_nil_r.
  - reflexivity.
  - exists [m]. split; [reflexivity|]. constructor; [assumption|constructor].
Qed.

#[local] Hint Resolve later_check_refl later_add_warning later_add_info
  later_add_error : result.

Ltac later_steps :=
  repeat first
    [ apply later_check_refl
    | match goal with
      | |- later_check _ (if ?b then _ else _) => destruct b
      end
    | eapply later_check_trans;
      [| first [ apply later_add_warning
               | apply later_add_info; discriminate
               | apply later_add_error; tauto ] ] ].

Lemma check_stations_later schema_type df r r' :
  check_stations schema_type df r = Ok r' -> later_check r r'.
Proof.
  unfold check_stations. intros H. returned H; later_steps.
Qed.

Lemma check_parameters_later schema_type df r r' :
  check_parameters schema_type df r = Ok r' -> later_check r r'.
Proof.
  unfold check_parameters. intros H. returned H; later_steps.
Qed.

Lemma check_codes_later rt col heading valid df r :
  later_check r (check_codes rt col heading valid df r).
Proof. unfold check_codes. branches; later_steps. Qed.

(** The business pass after its duplicate check. *)
Lemma validate_business_rules_later rt schema_type df r :
  empty df = false ->
  validate_business_rules rt schema_type df = Ok r ->
  later_check (check_duplicates schema_type df new_result) r.
Proof.
  unfold validate_business_rules. intros -> H. returned H.
  eapply later_check_trans; [eapply check_stations_later; eassumption|].
  eapply later_check_trans; [eapply check_parameters_later; eassumption|].
  eapply later_check_trans; apply check_codes_later.
Qed.

Lemma validate_business_rules_empty rt schema_type df :
  empty df = true -> validate_business_rules rt schema_type df = Ok new_result.
Proof. unfold validate_business_rules. now intros ->. Qed.

Lemma validate_business_rules_consistent rt schema_type df r :
  validate_business_rules rt schema_type df = Ok r -> consistent r.
Proof.
  intros H. destruct (empty df) eqn:He.
  - rewrite validate_business_rules_empty in H by assumption.
    injection H as <-. auto with result.
  - apply validate_business_rules_later in H as [Hc _]; [|assumption].
    apply Hc, check_duplicates_consistent. auto with result.
Qed.

(** *** validate_all *)

(** What [validate_all] builds from the results of the three passes. *)
Lemma validate_all_returns rt schema_type now df q b :
  validate_data_quality rt schema_type now df = Ok q ->
  validate_business_rules rt schema_type df = Ok b ->
  let s := validate_schema rt schema_type df in
  validate_all rt schema_type now df =
  Ok {| is_valid := (length (errors s ++ errors q ++ errors b) =? 0)%nat;
        errors := errors s ++ errors q ++ errors b;
        warnings := warnings s ++ warnings q ++ warnings b;
        info := info b ∪ (info q ∪ (info s ∪ ∅)) |}.
Proof.
  intros Hq Hb. unfold validate_all. rewrite Hq, Hb. cbn [bind].
  unfold update. simpl. now rewrite <- !app_assoc.
Qed.

Lemma validate_all_inv rt schema_type now df r :
  validate_all rt schema_type now df = Ok r ->
  exists q b,
    validate_data_quality rt schema_type now df = Ok q
    /\ validate_business_rules rt schema_type df = Ok b.
Proof.
  unfold validate_all. intros H.
  destruct (validate_data_quality rt schema_type now df) as [q|];
    [|discriminate H].
  destruct (validate_business_rules rt schema_type df) as [b|];
    [|discriminate H].
  eauto.
Qed.

Lemma validate_all_consistent rt schema_type now df r :
  validate_all rt schema_type now df = Ok r -> consistent r.
Proof.
  intros H. destruct (validate_all_inv _ _ _ _ _ H) as (q & b & Hq & Hb).
  rewrite (validate_all_returns _ _ _ _ _ _ Hq Hb) in H.
  injection H as <-. unfold consistent. simpl.
  rewrite Nat.eqb_eq. apply length_zero_iff_nil.
Qed.

(** C1: whatever [validate_schema], [validate_data_quality],
    [validate_business_rules] or [validate_all] returns is valid exactly
    when its error sequence is empty; and [add_error] on it appends the
    message and clears validity. *)
Theorem is_valid_iff_no_errors rt schema_type now df r m :
  produced rt schema_type now df r ->
  (is_valid r = true <-> errors r = [])
  /\ errors (add_error m r) = errors r ++ [m]
  /\ warnings (add_error m r) = warnings r
  /\ is_valid (add_error m r) = false.
Proof.
  intros Hp. split; [|repeat split].
  destruct Hp as [<-|H|H|H].
  - apply validate_schema_consistent.
  - eapply validate_data_quality_consistent, H.
  - eapply validate_business_rules_consistent, H.
  - eapply validate_all_consistent, H.
Qed.

Lemma is_valid_iff_no_errors_witness :
  let r := validate_schema Demo.rt NORMALIZED Demo.bad in
  produced Demo.rt NORMALIZED Demo.now Demo.bad r
  /\ errors r = ["Missing required columns: timestamp, parameter, unit"]
  /\ (is_valid r = true <-> errors r = [])
  /\ is_valid (add_error "again" r) = false.
Proof.
  assert (Hp : produced Demo.rt NORMALIZED Demo.now Demo.bad
                 (validate_schema Demo.rt NORMALIZED Demo.bad))
    by (apply by_validate_schema; reflexivity).
  split; [exact Hp|]. split; [reflexivity|].
  pose proof (is_valid_iff_no_errors Demo.rt NORMALIZED Demo.now Demo.bad
                _ "again" Hp) as (H1 & _ & _ & H2).
  split; [exact H1 | exact H2].
Defined.

(** C2: when the quality and the business pass return, [validate_all]
    returns; its errors are those of the schema, quality and business
    results in that order, its warnings likewise, its info looks a key up
    in the business result first, then the quality result, then the schema
    result, and it is valid exactly when the joined errors are empty. *)
Theorem validate_all_merges rt schema_type now df q b :
  validate_data_quality rt schema_type now df = Ok q ->
  validate_business_rules rt schema_type df = Ok b ->
  let s := validate_schema rt schema_type df in
  exists r,
    validate_all rt schema_type now df = Ok r
    /\ errors r = errors s ++ errors q ++ errors b
    /\ warnings r = warnings s ++ warnings q ++ warnings b
    /\ (forall k, info r !! k =
                  match info b !! k with
                  | Some v => Some v
                  | None => match info q !! k with
                            | Some v => Some v
                            | None => info s !! k
                            end
                  end)
    /\ (is_valid r = true <-> errors s ++ errors q ++ errors b = []).
Proof.
  intros Hq Hb s. eexists. split; [apply validate_all_returns; eassumption|].
  simpl. split; [reflexivity|]. split; [reflexivity|]. split.
  - intros k. rewrite !lookup_union, lookup_empty. fold s.
    destruct (info b !! k), (info q !! k), (info s !! k); reflexivity.
  - rewrite Nat.eqb_eq. apply length_zero_iff_nil.
Qed.

(** [validate_all] raises exactly when the quality or the business pass
    does, the quality pass being run first. *)
Lemma validate_all_raises rt schema_type now df e :
  validate_all rt schema_type now df = Raise e <->
  validate_data_quality rt schema_type now df = Raise e
  \/ ((exists q, validate_data_quality rt schema_type now df = Ok q)
      /\ validate_business_rules rt schema_type df = Raise e).
Proof.
  unfold validate_all.
  destruct (validate_data_quality rt schema_type now df) as [q|e1]; cbn [bind].
  - destruct (validate_business_rules rt schema_type df) as [b|e2]; cbn [bind].
    + split; [discriminate|]. intros [H|[_ H]]; discriminate H.
    + split; [intros H; right; eauto|]. intros [H|[_ H]]; [discriminate H|exact H].
  - split; [tauto|]. intros [H|[[q H] _]]; [exact H|discriminate H].
Qed.

Lemma validate_all_merges_witness :
  exists q b r,
    validate_data_quality Demo.rt NORMALIZED Demo.now Demo.messy = Ok q
    /\ validate_business_rules Demo.rt NORMALIZED Demo.messy = Ok b
    /\ validate_all Demo.rt NORMALIZED Demo.now Demo.messy = Ok r
    /\ errors r = errors (validate_schema Demo.rt NORMALIZED Demo.messy)
                    ++ errors q ++ errors b
    /\ errors r = ["Missing required columns: unit";
                   "1 datetime values could not be parsed";
                   "Dates after 2100 found (latest: 2101)"]
    /\ is_valid r = false.
Proof.
  destruct (validate_data_quality Demo.rt NORMALIZED Demo.now Demo.messy)
    as [q|] eqn:Hq; [|vm_compute in Hq; discriminate Hq].
  destruct (validate_business_rules Demo.rt NORMALIZED Demo.messy)
    as [b|] eqn:Hb; [|vm_compute in Hb; discriminate Hb].
  destruct (validate_all_merges Demo.rt NORMALIZED Demo.now Demo.messy q b
              Hq Hb) as (r & Hr & He & _ & _ & _).
  exists q, b, r. split; [reflexivity|]. split; [reflexivity|].
  split; [exact Hr|]. split; [exact He|].
  vm_compute in Hq, Hb. injection Hq as <-. injection Hb as <-.
  vm_compute in Hr. injection Hr as <-. split; reflexivity.
Defined.

(** ** The empty table *)

(** A table without rows is [empty], whatever columns it declares. *)
Lemma no_rows_empty df : nrows df = 0%nat -> empty df = true.
Proof. unfold empty. now intros ->. Qed.

(** C8, amended: on a table with zero rows, whatever columns it declares,
    [validate_schema] returns at once with exactly one error, the
    empty-table error "DataFrame is empty (0 rows)"; no warning and no
    info entry is recorded (so none of the missing-column,
    unexpected-column and dtype checks ran) and the result is invalid. *)
Theorem validate_schema_no_rows rt schema_type df :
  nrows df = 0%nat ->
  validate_schema rt schema_type df =
  {| is_valid := false;
     errors := ["DataFrame is empty (0 rows)"];
     warnings := [];
     info := ∅ |}.
Proof.
  intros H. unfold validate_schema. now rewrite no_rows_empty.
Qed.

Lemma validate_schema_no_rows_witness :
  nrows Demo.no_rows = 0%nat
  /\ validate_schema Demo.rt RAW Demo.no_rows =
     {| is_valid := false;
        errors := ["DataFrame is empty (0 rows)"];
        warnings := [];
        info := ∅ |}.
Proof.
  split; [reflexivity|].
  apply (validate_schema_no_rows Demo.rt RAW Demo.no_rows). reflexivity.
Defined.

(** C8 as stated fails on the text of the error: the one error of a
    zero-row table is not "table is empty (0 rows)". *)
Lemma validate_schema_no_rows_counterexample :
  nrows Demo.no_rows = 0%nat
  /\ errors (validate_schema Demo.rt NORMALIZED Demo.no_rows)
     <> ["table is empty (0 rows)"].
Proof. split; [reflexivity|]. vm_compute. discriminate. Qed.

(** C10: on a table with zero rows [validate_data_quality] returns an
    invalid result holding its own empty-table error and nothing else,
    and [validate_business_rules] returns a valid result without errors,
    warnings or info. *)
Theorem non_schema_passes_no_rows rt schema_type now df :
  nrows df = 0%nat ->
  validate_data_quality rt schema_type now df =
    Ok {| is_valid := false;
          errors := ["Cannot validate quality of empty DataFrame"];
          warnings := [];
          info := ∅ |}
  /\ validate_business_rules rt schema_type df =
    Ok {| is_valid := true; errors := []; warnings := []; info := ∅ |}.
Proof.
  intros H. apply no_rows_empty in H.
  unfold validate_data_quality, validate_business_rules. rewrite H.
  split; reflexivity.
Qed.

Lemma non_schema_passes_no_rows_witness :
  nrows Demo.no_rows = 0%nat
  /\ validate_data_quality Demo.rt RAW Demo.now Demo.no_rows =
       Ok {| is_valid := false;
             errors := ["Cannot validate quality of empty DataFrame"];
             warnings := [];
             info := ∅ |}
  /\ validate_business_rules Demo.rt RAW Demo.no_rows =
       Ok {| is_valid := true; errors := []; warnings := []; info := ∅ |}.
Proof.
  split; [reflexivity|].
  apply (non_schema_passes_no_rows Demo.rt RAW Demo.now Demo.no_rows).
  reflexivity.
Defined.

(** ** The quality pass *)

Lemma check_nulls_col_finding rt df r nc col :
  check_nulls_col rt df (r, nc) col =
  match null_finding df col with
  | Some (k, pct) =>
      let nc' :=
        nc ++ [(col, IDict [("count", IInt (Z.of_nat k));
                            ("percent", IFloat pct)])] in
      if Qgtb pct 50 then (add_error (null_message rt col k pct) r, nc')
      else if Qgtb pct 10 then (add_warning (null_message rt col k pct) r, nc')
      else (r, nc')
  | None => (r, nc)
  end.
Proof.
  unfold check_nulls_col, null_finding.
  destruct (has_column col df); [|reflexivity].
  destruct (lookup_column col (columns df)); [|reflexivity].
  destruct (0 <? isna_sum (values s))%nat; reflexivity.
Qed.

Lemma fold_check_nulls_trace rt df cols st :
  errors (fold_left (check_nulls_col rt df) cols st).1 =
    errors st.1 ++ null_errors rt df cols
  /\ warnings (fold_left (check_nulls_col rt df) cols st).1 =
    warnings st.1 ++ null_warnings rt df cols.
Proof.
  revert st. induction cols as [|c cols IH]; intros [r nc].
  - simpl. now rewrite !app_nil_r.
  - cbn [fold_left null_errors null_warnings flat_map].
    rewrite check_nulls_col_finding.
    destruct (null_finding df c) as [[k pct]|]; cbn zeta.
    + destruct (Qgtb pct 50); [|destruct (Qgtb pct 10)];
        match goal with
        | |- context [fold_left _ cols ?st] => destruct (IH st) as [He Hw]
        end; rewrite He, Hw; simpl; rewrite <- ?app_assoc; split; reflexivity.
    + apply (IH (r, nc)).
Qed.

Lemma check_nulls_trace rt schema_type df r :
  errors (check_nulls rt schema_type df r) =
    errors r ++ null_errors rt df (critical_cols schema_type)
  /\ warnings (check_nulls rt schema_type df r) =
    warnings r ++ null_warnings rt df (critical_cols schema_type).
Proof.
  unfold check_nulls.
  pose proof (fold_check_nulls_trace rt df (critical_cols schema_type) (r, []))
    as H.
  destruct (fold_left _ _ _) as [r' nc]. simpl in H.
  destruct nc; exact H.
Qed.

Lemma check_dates_trace rt schema_type now df r r' :
  check_dates rt schema_type now df r = Ok r' ->
  match date_series schema_type df with
  | Some s =>
      errors r' = errors r ++ date_errors rt s
      /\ warnings r' = warnings r ++ date_warnings rt now s
  | None => r' = r
  end.
Proof.
  unfold check_dates, date_series.
  destruct (has_column _ df); [|now intros [= <-]].
  destruct (lookup_column _ _) as [s|]; [|now intros [= <-]].
  unfold check_date_range, check_invalid_dates, date_errors, date_warnings.
  destruct (valid_dates rt s) as [|t rest]; simpl.
  - intros [= <-].
    destruct (0 <? invalid_dates rt s); simpl; rewrite ?app_nil_r; auto.
  - destruct (tz_aware rt (values s)); [discriminate|].
    destruct (0 <? invalid_dates rt s),
      (year (min_date t rest) <? DataConstraints.MIN_YEAR),
      (DataConstraints.MAX_YEAR <? year (max_date t rest)),
      (0 <? future_count now (t :: rest))%nat;
      intros [= <-]; simpl; rewrite <- ?app_assoc, ?app_nil_r; auto.
Qed.

(** The errors and the warnings of the quality pass on a table that is not
    empty: null findings, then the value warnings, then date findings. *)
Lemma validate_data_quality_trace rt schema_type now df r :
  empty df = false ->
  validate_data_quality rt schema_type now df = Ok r ->
  let dates := date_series schema_type df in
  errors r = null_errors rt df (critical_cols schema_type)
             ++ from_option (date_errors rt) [] dates
  /\ exists W,
      Forall numeric_head W
      /\ warnings r = null_warnings rt df (critical_cols schema_type)
                      ++ W ++ from_option (date_warnings rt now) [] dates.
Proof.
  unfold validate_data_quality. intros -> H. returned H.
  apply check_value_range_spec in E as (_ & He & W & Hw & HW).
  destruct (check_nulls_trace rt schema_type df new_result) as [Hne Hnw].
  rewrite Hne in He. rewrite Hnw in Hw. simpl in He, Hw.
  pose proof (check_dates_trace rt schema_type now df a r H) as Hd.
  simpl in Hd. destruct (date_series schema_type df) as [s|]; simpl.
  - destruct Hd as [Hde Hdw]. rewrite Hde, Hdw, He, Hw. split; [reflexivity|].
    exists W. split; [assumption|]. now rewrite app_assoc.
  - rewrite Hd, He, Hw, !app_nil_r. split; [reflexivity|].
    exists W. now rewrite app_nil_r.
Qed.

(** *** Telling the messages of the quality pass apart *)


Lemma min_year_message_head y : head (min_year_message y) = Some "D"%char.
Proof. reflexivity. Qed.

Lemma max_year_message_head y : head (max_year_message y) = Some "D"%char.
Proof. reflexivity. Qed.

Lemma invalid_dates_message_numeric n : numeric_head (invalid_dates_message n).
Proof. apply of_Z_head. Qed.

Lemma future_message_numeric n : numeric_head (future_message n).
Proof. apply of_nat_head. Qed.

Lemma year_messages_differ y y' : min_year_message y <> max_year_message y'.
Proof. unfold min_year_message, max_year_message. discriminate. Qed.

Lemma numeric_head_C m : numeric_head m -> head m <> Some "C"%char.
Proof. intros H. apply numeric_head_not; [assumption | reflexivity]. Qed.

Lemma numeric_head_D m : numeric_head m -> head m <> Some "D"%char.
Proof. intros H. apply numeric_head_not; [assumption | reflexivity]. Qed.


(** *** Reading the findings *)

Lemma in_null_errors rt df cols m :
  In m (null_errors rt df cols) <->
  exists col k pct,
    In col cols /\ null_finding df col = Some (k, pct)
    /\ Qgtb pct 50 = true /\ m = null_message rt col k pct.
Proof.
  unfold null_errors. rewrite in_flat_map. split.
  - intros (col & Hin & Hm).
    destruct (null_finding df col) as [[k pct]|] eqn:Hf; [|destruct Hm].
    destruct (Qgtb pct 50) eqn:Hq; [|destruct Hm].
    destruct Hm as [<-|[]]. now exists col, k, pct.
  - intros (col & k & pct & Hin & Hf & Hq & ->).
    exists col. split; [assumption|]. rewrite Hf, Hq. now left.
Qed.

Lemma in_null_warnings rt df cols m :
  In m (null_warnings rt df cols) <->
  exists col k pct,
    In col cols /\ null_finding df col = Some (k, pct)
    /\ Qgtb pct 50 = false /\ Qgtb pct 10 = true
    /\ m = null_message rt col k pct.
Proof.
  unfold null_warnings. rewrite in_flat_map. split.
  - intros (col & Hin & Hm).
    destruct (null_finding df col) as [[k pct]|] eqn:Hf; [|destruct Hm].
    destruct (Qgtb pct 50) eqn:Hq; [destruct Hm|].
    destruct (Qgtb pct 10) eqn:Hq'; [|destruct Hm].
    destruct Hm as [<-|[]]. now exists col, k, pct.
  - intros (col & k & pct & Hin & Hf & Hq & Hq' & ->).
    exists col. split; [assumption|]. rewrite Hf, Hq, Hq'. now left.
Qed.

Lemma in_date_errors rt s m :
  In m (date_errors rt s) <->
  (0 < invalid_dates rt s /\ m = invalid_dates_message (invalid_dates rt s))
  \/ (exists t rest,
        valid_dates rt s = t :: rest
        /\ DataConstraints.MAX_YEAR < year (max_date t rest)
        /\ m = max_year_message (year (max_date t rest))).
Proof.
  unfold date_errors. rewrite in_app_iff.
  match goal with |- ?A \/ ?B <-> ?A' \/ ?B' =>
    enough ((A <-> A') /\ (B <-> B')) by tauto
  end.
  split.
  - destruct (Z.ltb_spec 0 (invalid_dates rt s)); simpl.
    + split; [intros [<-|[]]; auto | intros [_ ->]; now left].
    + split; [tauto | intros [H' _]; lia].
  - destruct (valid_dates rt s) as [|t rest].
    + split; [intros [] | intros (t & rest & H & _); discriminate H].
    + destruct (Z.ltb_spec DataConstraints.MAX_YEAR (year (max_date t rest))).
      * split; [intros [<-|[]]; eauto|].
        intros (t' & rest' & H' & _ & ->). injection H' as <- <-. now left.
      * split; [intros []|].
        intros (t' & rest' & H' & Hlt & _). injection H' as <- <-. lia.
Qed.

Lemma in_date_warnings rt now s m :
  In m (date_warnings rt now s) <->
  exists t rest,
    valid_dates rt s = t :: rest
    /\ ((year (min_date t rest) < DataConstraints.MIN_YEAR
         /\ m = min_year_message (year (min_date t rest)))
        \/ ((0 < future_count now (t :: rest))%nat
            /\ m = future_message (future_count now (t :: rest)))).
Proof.
  unfold date_warnings. destruct (valid_dates rt s) as [|t rest].
  - split; [intros [] | intros (t & rest & H & _); discriminate H].
  - rewrite in_app_iff. split.
    + intros [H|H]; exists t, rest; (split; [reflexivity|]).
      * destruct (Z.ltb_spec (year (min_date t rest)) DataConstraints.MIN_YEAR);
          [|destruct H]. destruct H as [<-|[]]. now left.
      * destruct (Nat.ltb_spec 0 (future_count now (t :: rest)));
          [|destruct H]. destruct H as [<-|[]]. now right.
    + intros (t' & rest' & H' & [[Hlt ->]|[Hlt ->]]); injection H' as <- <-.
      * left. apply Z.ltb_lt in Hlt. rewrite Hlt. now left.
      * right. apply Nat.ltb_lt in Hlt. rewrite Hlt. now left.
Qed.

(** *** Tables *)

Lemma lookup_column_In col cols s :
  lookup_column col cols = Some s -> In (col, s) cols.
Proof.
  induction cols as [|[l s'] cols IH]; simpl; [discriminate|].
  case_bool_decide as Hl.
  - intros [= ->]. subst. now left.
  - intros H. right. auto.
Qed.

Lemma lookup_column_has col df s :
  lookup_column col (columns df) = Some s -> has_column col df = true.
Proof.
  intros H. apply lookup_column_In in H.
  unfold has_column, Str.mem, column_labels. apply bool_decide_eq_true.
  apply list_elem_of_In, in_map_iff. now exists (col, s).
Qed.

Lemma well_formed_length df col s :
  well_formed df -> lookup_column col (columns df) = Some s ->
  length (values s) = nrows df.
Proof.
  intros [Hlen _] H. apply lookup_column_In in H.
  rewrite Forall_forall in Hlen. apply list_elem_of_In in H.
  exact (Hlen _ H).
Qed.

(** A well-formed table holding a cell is not empty. *)
Lemma well_formed_not_empty df col s c :
  well_formed df -> lookup_column col (columns df) = Some s ->
  In c (values s) -> empty df = false.
Proof.
  intros Hwf H Hc. pose proof (well_formed_length _ _ _ Hwf H) as Hlen.
  apply lookup_column_In in H. unfold empty.
  destruct (values s); [destruct Hc|]. destruct (columns df); [destruct H|].
  simpl in Hlen. rewrite <- Hlen. reflexivity.
Qed.




(** *** Null percentages *)

Lemma not_in_numeric W m c :
  Forall numeric_head W -> head m = Some c -> sign_or_digit c = false ->
  ~ In m W.
Proof.
  intros HW Hm Hc Hin. rewrite Forall_forall in HW.
  apply list_elem_of_In in Hin.
  now apply (numeric_head_not m c (HW _ Hin) Hc).
Qed.







Lemma messy_well_formed : well_formed Demo.messy.
Proof.
  split.
  - repeat constructor.
  - apply (bool_decide_unpack _). vm_compute. exact I.
Defined.


(** Exactly 10 percent is silent: one null among the ten timestamps of
    [Demo.messy] leaves no message about that column. *)
Example ten_percent_silent :
  exists r,
    validate_data_quality Demo.rt NORMALIZED Demo.now Demo.messy = Ok r
    /\ (null_percent 1 (nrows Demo.messy) == 10)%Q
    /\ Forall (fun m => Str.contains "'timestamp'" m = false)
         (errors r ++ warnings r).
Proof.
  eexists. split; [vm_compute; reflexivity|]. split; [reflexivity|].
  repeat constructor.
Qed.

(** *** Year bounds *)

Lemma Timestamp_ltb_year t u : Timestamp_ltb t u = true -> year t <= year u.
Proof.
  unfold Timestamp_ltb. rewrite orb_true_iff, andb_true_iff. lia.
Qed.

Lemma min_date_le t l :
  year (min_date t l) <= year t
  /\ forall u, In u l -> year (min_date t l) <= year u.
Proof.
  unfold min_date. revert t. induction l as [|v l IH]; intros t; simpl.
  - split; [lia | intros u []].
  - destruct (IH (if Timestamp_ltb v t then v else t)) as [H1 H2].
    destruct (Timestamp_ltb v t) eqn:Hv.
    + apply Timestamp_ltb_year in Hv. split; [lia|].
      intros u [<-|Hu]; [lia | auto].
    + assert (year t <= year v).
      { unfold Timestamp_ltb in Hv.
        rewrite orb_false_iff, andb_false_iff in Hv. lia. }
      split; [lia|]. intros u [<-|Hu]; [lia | auto].
Qed.

Lemma max_date_ge t l :
  year t <= year (max_date t l)
  /\ forall u, In u l -> year u <= year (max_date t l).
Proof.
  unfold max_date. revert t. induction l as [|v l IH]; intros t; simpl.
  - split; [lia | intros u []].
  - destruct (IH (if Timestamp_ltb t v then v else t)) as [H1 H2].
    destruct (Timestamp_ltb t v) eqn:Hv.
    + apply Timestamp_ltb_year in Hv. split; [lia|].
      intros u [<-|Hu]; [lia | auto].
    + assert (year v <= year t).
      { unfold Timestamp_ltb in Hv.
        rewrite orb_false_iff, andb_false_iff in Hv. lia. }
      split; [lia|]. intros u [<-|Hu]; [lia | auto].
Qed.

Lemma valid_dates_cell rt s t rest :
  valid_dates rt s = t :: rest -> exists c, In c (values s).
Proof.
  unfold valid_dates, to_datetime. destruct (values s) as [|c l].
  - discriminate.
  - intros _. exists c. now left.
Qed.

Lemma date_series_present schema_type df s :
  lookup_column (date_col schema_type) (columns df) = Some s ->
  date_series schema_type df = Some s.
Proof.
  intros H. unfold date_series. now rewrite (lookup_column_has _ _ _ H).
Qed.

Lemma in_errors_invalid r m : consistent r -> In m (errors r) -> is_valid r = false.
Proof.
  intros [Hc _] Hin. destruct (is_valid r); [|reflexivity].
  rewrite Hc in Hin by reflexivity. destruct Hin.
Qed.

(** C5: when the date column yields at least one parsed date, a year of
    the earliest date below 1900 is recorded as a warning and not as an
    error, and a year of the latest date above 2100 is recorded as an
    error and not as a warning, making the result invalid; the two
    findings are independent of each other. *)
Theorem year_bound_findings rt schema_type now df r s t rest :
  well_formed df ->
  validate_data_quality rt schema_type now df = Ok r ->
  lookup_column (date_col schema_type) (columns df) = Some s ->
  valid_dates rt s = t :: rest ->
  let earliest := min_date t rest in
  let latest := max_date t rest in
  (forall u, In u (t :: rest) -> year earliest <= year u <= year latest)
  /\ (year earliest < DataConstraints.MIN_YEAR ->
      In (min_year_message (year earliest)) (warnings r)
      /\ ~ In (min_year_message (year earliest)) (errors r))
  /\ (DataConstraints.MAX_YEAR < year latest ->
      In (max_year_message (year latest)) (errors r)
      /\ ~ In (max_year_message (year latest)) (warnings r)
      /\ is_valid r = false).
Proof.
  intros Hwf Hr Hs Hv earliest latest.
  assert (He : empty df = false).
  { destruct (valid_dates_cell _ _ _ _ Hv) as [c Hc].
    eapply well_formed_not_empty; eassumption. }
  destruct (validate_data_quality_trace _ _ _ _ _ He Hr)
    as [HE (W & HW & HWs)].
  rewrite (date_series_present _ _ _ Hs) in HE, HWs. simpl in HE, HWs.
  split; [|split].
  - destruct (min_date_le t rest) as [H1 H2], (max_date_ge t rest) as [H3 H4].
    intros u [<-|Hu]; split; auto.
  - intros Hlt. split.
    + rewrite HWs, !in_app_iff, in_date_warnings. right. right.
      exists t, rest. tauto.
    + rewrite HE, in_app_iff, in_null_errors, in_date_errors.
      intros [(c & k & p & _ & _ & _ & Hm)
             |[[_ Hm]|(t' & rest' & _ & _ & Hm)]].
      * discriminate Hm.
      * apply (numeric_head_D _ (invalid_dates_message_numeric (invalid_dates rt s))).
        now rewrite <- Hm.
      * now apply year_messages_differ in Hm.
  - intros Hlt.
    assert (Hin : In (max_year_message (year latest)) (errors r)).
    { rewrite HE, in_app_iff, in_date_errors. right. right.
      exists t, rest. tauto. }
    split; [exact Hin|]. split.
    + rewrite HWs, !in_app_iff, in_null_warnings, in_date_warnings.
      intros [(c & k & p & _ & _ & _ & _ & Hm)
             |[HinW|(t' & rest' & _ & [[_ Hm]|[_ Hm]])]].
      * discriminate Hm.
      * revert HinW. now apply (not_in_numeric W _ "D"%char HW).
      * symmetry in Hm. now apply year_messages_differ in Hm.
      * apply (numeric_head_D _ (future_message_numeric (future_count now (t' :: rest')))).
        now rewrite <- Hm.
    + eapply in_errors_invalid; [|exact Hin].
      eapply validate_data_quality_consistent, Hr.
Qed.

Lemma year_bound_findings_witness :
  exists r,
    validate_data_quality Demo.rt NORMALIZED Demo.now Demo.messy = Ok r
    /\ In "Dates before 1900 found (earliest: 1899)" (warnings r)
    /\ ~ In "Dates before 1900 found (earliest: 1899)" (errors r)
    /\ In "Dates after 2100 found (latest: 2101)" (errors r)
    /\ ~ In "Dates after 2100 found (latest: 2101)" (warnings r).
Proof.
  destruct (validate_data_quality Demo.rt NORMALIZED Demo.now Demo.messy)
    as [r|] eqn:Hr; [|vm_compute in Hr; discriminate Hr].
  destruct (valid_dates Demo.rt Demo.messy_timestamp) as [|t rest] eqn:Hv;
    [vm_compute in Hv; discriminate Hv|].
  pose proof (year_bound_findings Demo.rt NORMALIZED Demo.now Demo.messy r
                Demo.messy_timestamp t rest messy_well_formed Hr eq_refl Hv)
    as (_ & Hlo & Hhi).
  vm_compute in Hv. injection Hv as <- <-.
  destruct Hlo as [Hw Hne]; [reflexivity|].
  destruct Hhi as (He & Hnw & _); [reflexivity|].
  exists r. split; [reflexivity|]. split; [exact Hw|]. split; [exact Hne|].
  split; [exact He | exact Hnw].
Defined.

(** *** Dates that fail to parse *)

Lemma coerced_nulls rt column l :
  length (filter (fun d => d = None) (map (coerce rt column) l)) =
  (isna_sum l
   + length (filter (fun c => notna c = true /\ coerce rt column c = None) l))%nat.
Proof.
  unfold isna_sum. induction l as [|c l IH]; [reflexivity|].
  cbn [map]. rewrite !filter_cons.
  destruct c as [|x|x|t]; simpl;
    repeat (destruct (decide _) as [?|?]; simpl);
    try rewrite IH; try lia; try tauto; try discriminate.
  all: exfalso; intuition congruence.
Qed.

Lemma invalid_dates_failed rt s :
  invalid_dates rt s = Z.of_nat (failed_to_parse rt s).
Proof.
  unfold invalid_dates, failed_to_parse, to_datetime.
  rewrite coerced_nulls. lia.
Qed.

Lemma well_formed_empty_series df col s :
  well_formed df -> lookup_column col (columns df) = Some s ->
  empty df = true -> values s = [].
Proof.
  intros Hwf Hs He. pose proof (well_formed_length _ _ _ Hwf Hs) as Hlen.
  apply lookup_column_In in Hs. unfold empty in He.
  destruct (columns df); [destruct Hs|]. simpl in He.
  rewrite orb_false_r in He. apply Nat.eqb_eq in He.
  rewrite He in Hlen. now apply length_zero_iff_nil.
Qed.

(** C6: with the date column present, the invalid-date count is the
    number of cells that are null after the coercion less the number that
    were null before it, which is the number of present cells that failed
    to parse; the pass records the could-not-be-parsed error, with that
    count, exactly when the count is positive. *)
Theorem invalid_dates_policy rt schema_type now df r s :
  well_formed df ->
  validate_data_quality rt schema_type now df = Ok r ->
  lookup_column (date_col schema_type) (columns df) = Some s ->
  let null_after :=
    length (filter (fun d => d = None) (to_datetime rt (values s))) in
  let null_before := isna_sum (values s) in
  invalid_dates rt s = Z.of_nat null_after - Z.of_nat null_before
  /\ invalid_dates rt s = Z.of_nat (failed_to_parse rt s)
  /\ (0 < invalid_dates rt s ->
      In (invalid_dates_message (invalid_dates rt s)) (errors r)
      /\ is_valid r = false)
  /\ (forall n, In (invalid_dates_message n) (errors r) ->
                0 < invalid_dates rt s
                /\ invalid_dates_message n =
                   invalid_dates_message (invalid_dates rt s)).
Proof.
  intros Hwf Hr Hs null_after null_before.
  split; [reflexivity|]. split; [apply invalid_dates_failed|].
  destruct (empty df) eqn:He.
  - pose proof (well_formed_empty_series _ _ _ Hwf Hs He) as Hnil.
    assert (H0 : invalid_dates rt s = 0).
    { unfold invalid_dates, to_datetime. rewrite Hnil. reflexivity. }
    unfold validate_data_quality in Hr. rewrite He in Hr.
    injection Hr as <-. rewrite H0. split; [lia|].
    intros n [Hm|[]]. exfalso.
    apply (numeric_head_C _ (invalid_dates_message_numeric n)).
    now rewrite <- Hm.
  - destruct (validate_data_quality_trace _ _ _ _ _ He Hr) as [HE _].
    rewrite (date_series_present _ _ _ Hs) in HE. simpl in HE. split.
    + intros Hpos.
      assert (Hin : In (invalid_dates_message (invalid_dates rt s)) (errors r)).
      { rewrite HE, in_app_iff, in_date_errors. tauto. }
      split; [exact Hin|].
      eapply in_errors_invalid; [|exact Hin].
      eapply validate_data_quality_consistent, Hr.
    + intros n. rewrite HE, in_app_iff, in_null_errors, in_date_errors.
      intros [(c & k & p & _ & _ & _ & Hm)
             |[[Hpos Hm]|(t & rest & _ & _ & Hm)]].
      * exfalso. apply (numeric_head_C _ (invalid_dates_message_numeric n)).
        now rewrite Hm.
      * tauto.
      * exfalso. apply (numeric_head_D _ (invalid_dates_message_numeric n)).
        now rewrite Hm.
Qed.

Lemma invalid_dates_policy_witness :
  exists r,
    validate_data_quality Demo.rt NORMALIZED Demo.now Demo.messy = Ok r
    /\ isna_sum (values Demo.messy_timestamp) = 1%nat
    /\ invalid_dates Demo.rt Demo.messy_timestamp = 2 - 1
    /\ failed_to_parse Demo.rt Demo.messy_timestamp = 1%nat
    /\ In "1 datetime values could not be parsed" (errors r).
Proof.
  destruct (validate_data_quality Demo.rt NORMALIZED Demo.now Demo.messy)
    as [r|] eqn:Hr; [|vm_compute in Hr; discriminate Hr].
  destruct (invalid_dates_policy Demo.rt NORMALIZED Demo.now Demo.messy r
              Demo.messy_timestamp messy_well_formed Hr eq_refl)
    as (H1 & H2 & H3 & _).
  destruct H3 as [Hin _]; [reflexivity|].
  exists r. split; [reflexivity|]. split; [reflexivity|].
  split; [exact H1|]. split; [reflexivity | exact Hin].
Defined.

(** ** Duplicate records *)

Lemma duplicated_from_lookup seen rows i k :
  rows !! i = Some k ->
  duplicated_from seen rows !! i =
  Some (existsb (key_eqb k) (rev (take i rows) ++ seen)).
Proof.
  revert seen i. induction rows as [|k0 rows IH]; intros seen i H.
  - destruct i; discriminate H.
  - destruct i as [|i]; simpl in *.
    + now injection H as ->.
    + rewrite (IH (k0 :: seen) i H). now rewrite <- app_assoc.
Qed.

Lemma duplicated_from_length seen rows :
  length (duplicated_from seen rows) = length rows.
Proof.
  revert seen. induction rows as [|k rows IH]; intros seen; simpl; auto.
Qed.

(** A row is flagged exactly when an earlier row carries the same key. *)
Lemma duplicated_spec rows i :
  duplicated rows !! i = Some true <->
  exists k, rows !! i = Some k
            /\ exists j k', (j < i)%nat /\ rows !! j = Some k'
                            /\ key_eqb k k' = true.
Proof.
  unfold duplicated. split.
  - intros H.
    assert (Hi : (i < length rows)%nat).
    { rewrite <- (duplicated_from_length []). eapply lookup_lt_Some, H. }
    destruct (lookup_lt_is_Some_2 rows i Hi) as [k Hk].
    rewrite (duplicated_from_lookup _ _ _ _ Hk), app_nil_r in H.
    injection H as H. apply existsb_exists in H as (k' & Hin & Heq).
    rewrite <- in_rev in Hin.
    apply list_elem_of_In, list_elem_of_lookup in Hin as [j Hj].
    apply lookup_take_Some in Hj as [Hj Hlt].
    exists k. split; [assumption|]. now exists j, k'.
  - intros (k & Hk & j & k' & Hlt & Hj & Heq).
    rewrite (duplicated_from_lookup _ _ _ _ Hk), app_nil_r. f_equal.
    apply existsb_exists. exists k'. split; [|assumption].
    rewrite <- in_rev. apply list_elem_of_In, list_elem_of_lookup. exists j.
    now apply lookup_take_Some.
Qed.

Lemma has_column_not_empty col df :
  has_column col df = true -> empty df = true -> nrows df = 0%nat.
Proof.
  unfold has_column, Str.mem, column_labels, empty. intros Hc He.
  apply bool_decide_eq_true in Hc.
  destruct (columns df); [inversion Hc|]. simpl in He.
  rewrite orb_false_r in He. now apply Nat.eqb_eq.
Qed.

Lemma id_cols_present_no_rows schema_type df :
  forallb (fun col => has_column col df) (id_cols schema_type) = true ->
  empty df = true -> duplicate_count schema_type df = 0%nat.
Proof.
  intros Hall He. unfold duplicate_count, id_keys.
  assert (Hn : nrows df = 0%nat).
  { destruct schema_type; simpl in Hall;
      apply andb_true_iff in Hall as [Hc _];
      eapply has_column_not_empty; eassumption. }
  now rewrite Hn.
Qed.

Lemma duplicate_message_numeric n : numeric_head (duplicate_message n).
Proof. apply of_nat_head. Qed.

Lemma has_column_lookup col df :
  has_column col df = true ->
  exists s, lookup_column col (columns df) = Some s.
Proof.
  unfold has_column, Str.mem, column_labels. rewrite bool_decide_eq_true.
  induction (columns df) as [|[l s] cols IH]; simpl.
  - intros H. inversion H.
  - rewrite elem_of_cons. case_bool_decide as Hl; [eauto|].
    intros [H|H]; [congruence | auto].
Qed.

Lemma cell_eqb_same c d : cell_eqb c d = true <-> same_cell c d.
Proof.
  split.
  - destruct c as [|x|x|t], d as [|y|y|u]; simpl; try discriminate; intros H.
    + constructor.
    + constructor. now apply Qeq_bool_iff.
    + apply bool_decide_eq_true in H. subst. constructor.
    + unfold Timestamp_eqb in H. apply andb_true_iff in H as [Hy Hn].
      apply Z.eqb_eq in Hy. apply N.eqb_eq in Hn.
      destruct t, u; simpl in *; subst. constructor.
  - intros [|x y Hxy|x|t]; simpl.
    + reflexivity.
    + now apply Qeq_bool_iff.
    + now apply bool_decide_eq_true.
    + unfold Timestamp_eqb. now rewrite Z.eqb_refl, N.eqb_refl.
Qed.

Lemma lookup_map {A B} (f : A -> B) (l : list A) i :
  map f l !! i = f <$> l !! i.
Proof.
  revert i. induction l as [|x l IH]; intros [|i]; simpl; auto.
Qed.

Lemma key_rows_length cols n : length (key_rows cols n) = n.
Proof. unfold key_rows. now rewrite length_map, length_seq. Qed.

Lemma key_rows_lookup cols n i :
  (i < n)%nat ->
  key_rows cols n !! i = Some (map (fun c => nth i c NA) cols).
Proof.
  intros Hi. unfold key_rows. rewrite lookup_map.
  now rewrite (lookup_seq_lt 0 n i Hi).
Qed.

Lemma lookup_nth (l : list cell) i :
  (i < length l)%nat -> l !! i = Some (nth i l NA).
Proof.
  intros Hi. destruct (lookup_lt_is_Some_2 l i Hi) as [x Hx].
  now rewrite (nth_lookup_Some _ _ NA _ Hx).
Qed.

Lemma same_at_nth l i j :
  (i < length l)%nat -> (j < length l)%nat ->
  same_at l i j <-> cell_eqb (nth i l NA) (nth j l NA) = true.
Proof.
  intros Hi Hj. unfold same_at.
  rewrite (lookup_nth l i Hi), (lookup_nth l j Hj), cell_eqb_same. split.
  - now intros (c & c' & [= <-] & [= <-] & H).
  - intros H. eauto.
Qed.

(** Row [i] of three columns of [n] cells is flagged exactly when an
    earlier row holds the same value in each of the three. *)
Lemma duplicated_rows (a b c : list cell) n i :
  length a = n -> length b = n -> length c = n ->
  duplicated (key_rows [a; b; c] n) !! i = Some true <->
  exists j, (j < i)%nat /\ same_at a i j /\ same_at b i j /\ same_at c i j.
Proof.
  intros Ha Hb Hc. rewrite duplicated_spec. split.
  - intros (k & Hk & j & k' & Hlt & Hj & Heq).
    assert (Hi : (i < n)%nat).
    { apply lookup_lt_Some in Hk. now rewrite key_rows_length in Hk. }
    rewrite key_rows_lookup in Hk by assumption.
    rewrite key_rows_lookup in Hj by lia.
    injection Hk as <-. injection Hj as <-. simpl in Heq.
    rewrite andb_true_r in Heq. apply andb_true_iff in Heq as [H1 Heq].
    apply andb_true_iff in Heq as [H2 H3].
    exists j. split; [assumption|].
    rewrite !same_at_nth by lia. auto.
  - intros (j & Hlt & H1 & H2 & H3).
    assert (Hi : (i < n)%nat).
    { destruct H1 as (x & _ & Hx & _). apply lookup_lt_Some in Hx. lia. }
    rewrite !same_at_nth in * by lia.
    exists (map (fun l => nth i l NA) [a; b; c]).
    split; [now apply key_rows_lookup|].
    exists j, (map (fun l => nth j l NA) [a; b; c]).
    split; [assumption|]. split; [apply key_rows_lookup; lia|].
    simpl. now rewrite H1, H2, H3.
Qed.

(** The identity columns of a table that has them, and its keys. *)
Lemma id_columns_present schema_type df :
  forallb (fun col => has_column col df) (id_cols schema_type) = true ->
  exists ts st pa,
    lookup_column (date_col schema_type) (columns df) = Some ts
    /\ lookup_column (station_col schema_type) (columns df) = Some st
    /\ lookup_column (param_col schema_type) (columns df) = Some pa
    /\ id_keys schema_type df =
       key_rows [values ts; values st; values pa] (nrows df).
Proof.
  intros Hall.
  assert (H3 : has_column (date_col schema_type) df = true
               /\ has_column (station_col schema_type) df = true
               /\ has_column (param_col schema_type) df = true).
  { destruct schema_type; simpl in Hall;
      apply andb_true_iff in Hall as [H1 Hall];
      apply andb_true_iff in Hall as [H2 Hall];
      apply andb_true_iff in Hall as [H3 _]; auto. }
  destruct H3 as (H1 & H2 & H3).
  destruct (has_column_lookup _ _ H1) as [ts Hts].
  destruct (has_column_lookup _ _ H2) as [st Hst].
  destruct (has_column_lookup _ _ H3) as [pa Hpa].
  exists ts, st, pa. repeat (split; [assumption|]).
  unfold id_keys. destruct schema_type; simpl in *;
    now rewrite Hts, Hst, Hpa.
Qed.

(** C7: on a table that has the three identity columns (timestamp,
    station, parameter, under the names of the variant), row [i] counts
    as a duplicate exactly when an earlier row [j] holds the same value
    in each of the three columns, and the duplicate count is the number
    of such rows, so that of two rows with one key only the second
    counts; a positive count is recorded as a warning and under
    [duplicate_count], never among the errors. *)
Theorem duplicate_findings rt schema_type df r :
  validate_business_rules rt schema_type df = Ok r ->
  forallb (fun col => has_column col df) (id_cols schema_type) = true ->
  well_formed df ->
  let n := duplicate_count schema_type df in
  exists ts st pa flags,
    lookup_column (date_col schema_type) (columns df) = Some ts
    /\ lookup_column (station_col schema_type) (columns df) = Some st
    /\ lookup_column (param_col schema_type) (columns df) = Some pa
    /\ length flags = nrows df
    /\ (forall i,
          flags !! i = Some true <->
          exists j, (j < i)%nat
                    /\ same_at (values ts) i j
                    /\ same_at (values st) i j
                    /\ same_at (values pa) i j)
    /\ n = length (filter (fun b => b = true) flags)
    /\ ((0 < n)%nat ->
        In (duplicate_message n) (warnings r)
        /\ info r !! "duplicate_count" = Some (IInt (Z.of_nat n))
        /\ ~ In (duplicate_message n) (errors r)).
Proof.
  intros Hr Hall Hwf n.
  destruct (id_columns_present _ _ Hall) as (ts & st & pa & Hts & Hst & Hpa & Hk).
  exists ts, st, pa, (duplicated (id_keys schema_type df)).
  repeat (split; [assumption|]).
  split.
  { unfold duplicated. now rewrite duplicated_from_length, Hk, key_rows_length. }
  split.
  { intros i. rewrite Hk.
    apply duplicated_rows; eapply well_formed_length; eassumption. }
  split; [reflexivity|].
  intros Hn. destruct (empty df) eqn:He.
  { pose proof (id_cols_present_no_rows _ _ Hall He) as H0.
    fold n in H0. lia. }
  apply validate_business_rules_later in Hr
    as (_ & [W HW] & Hi & E & HE & HEs); [|assumption].
  unfold check_duplicates in HW, Hi, HE. rewrite Hall in HW, Hi, HE.
  fold n in HW, Hi, HE.
  apply Nat.ltb_lt in Hn. rewrite Hn in HW, Hi, HE. simpl in HW, Hi, HE.
  split; [|split].
  - rewrite HW. now left.
  - rewrite Hi. apply lookup_insert_eq.
  - rewrite HE. intros Hin. rewrite Forall_forall in HEs.
    apply list_elem_of_In in Hin.
    destruct (HEs _ Hin) as [Hm|Hm];
      apply (numeric_head_not _ "N"%char (duplicate_message_numeric n));
      try reflexivity; now rewrite Hm.
Qed.

Lemma pair_well_formed : well_formed Demo.pair.
Proof.
  split.
  - repeat constructor.
  - apply (bool_decide_unpack _). vm_compute. exact I.
Defined.

Lemma duplicate_findings_witness :
  exists r,
    validate_business_rules Demo.rt RAW Demo.pair = Ok r
    /\ duplicate_count RAW Demo.pair = 1%nat
    /\ In "1 duplicate records found (same timestamp + station + parameter)"
         (warnings r)
    /\ info r !! "duplicate_count" = Some (IInt 1)
    /\ errors r = [].
Proof.
  destruct (validate_business_rules Demo.rt RAW Demo.pair)
    as [r|] eqn:Hr; [|vm_compute in Hr; discriminate Hr].
  destruct (duplicate_findings Demo.rt RAW Demo.pair r Hr eq_refl
              pair_well_formed)
    as (ts & st & pa & flags & _ & _ & _ & _ & _ & _ & H).
  destruct H as (Hw & Hi & _); [vm_compute; lia|].
  exists r. split; [reflexivity|]. split; [reflexivity|].
  split; [exact Hw|]. split; [exact Hi|].
  vm_compute in Hr. now injection Hr as <-.
Defined.

(** ** The clock *)

Lemma check_dates_clock rt schema_type now1 now2 df r :
  future_count now1 (parsed_dates rt schema_type df) =
  future_count now2 (parsed_dates rt schema_type df) ->
  check_dates rt schema_type now1 df r = check_dates rt schema_type now2 df r.
Proof.
  unfold parsed_dates, date_series, check_dates.
  destruct (has_column _ df); [|reflexivity].
  destruct (lookup_column _ _) as [s|]; [|reflexivity].
  unfold check_date_range. intros H.
  destruct (valid_dates rt s) as [|t rest]; [reflexivity|].
  cbn zeta. now rewrite H.
Qed.

(** C9, amended: for a fixed runtime, variant and table, the schema and
    the business pass take no clock reading at all, and the quality pass
    and [validate_all] give the same outcome at two clock readings
    whenever as many parsed timestamps lie strictly after the one as
    after the other, in particular at equal readings. *)
Theorem validation_deterministic_up_to_clock rt schema_type now1 now2 df :
  future_count now1 (parsed_dates rt schema_type df) =
  future_count now2 (parsed_dates rt schema_type df) ->
  validate_data_quality rt schema_type now1 df =
    validate_data_quality rt schema_type now2 df
  /\ validate_all rt schema_type now1 df = validate_all rt schema_type now2 df.
Proof.
  intros H.
  assert (Hq : validate_data_quality rt schema_type now1 df =
               validate_data_quality rt schema_type now2 df).
  { unfold validate_data_quality. destruct (empty df); [reflexivity|].
    destruct (check_value_range df _) as [a|e]; cbn [bind]; [|reflexivity].
    now apply check_dates_clock. }
  split; [exact Hq|]. unfold validate_all. now rewrite Hq.
Qed.

Lemma validation_deterministic_up_to_clock_witness :
  future_count Demo.now (parsed_dates Demo.rt NORMALIZED Demo.messy) = 1%nat
  /\ future_count Demo.later (parsed_dates Demo.rt NORMALIZED Demo.messy) = 1%nat
  /\ validate_all Demo.rt NORMALIZED Demo.now Demo.messy =
     validate_all Demo.rt NORMALIZED Demo.later Demo.messy.
Proof.
  split; [reflexivity|]. split; [reflexivity|].
  apply (validation_deterministic_up_to_clock Demo.rt NORMALIZED Demo.now
           Demo.later Demo.messy).
  reflexivity.
Defined.

(** C9 as stated fails: the same table and variant, validated at two
    readings of the clock, give two different results. *)
Lemma validation_clock_counterexample :
  exists r1 r2,
    validate_all Demo.rt NORMALIZED Demo.earlier Demo.good = Ok r1
    /\ validate_all Demo.rt NORMALIZED Demo.now Demo.good = Ok r2
    /\ In "2 timestamps are in the future" (warnings r1)
    /\ ~ In "2 timestamps are in the future" (warnings r2)
    /\ r1 <> r2.
Proof.
  destruct (validate_all Demo.rt NORMALIZED Demo.earlier Demo.good)
    as [r1|] eqn:H1; [|vm_compute in H1; discriminate H1].
  destruct (validate_all Demo.rt NORMALIZED Demo.now Demo.good)
    as [r2|] eqn:H2; [|vm_compute in H2; discriminate H2].
  exists r1, r2. split; [reflexivity|]. split; [reflexivity|].
  assert (Hw1 : warnings r1 =
                ["Unexpected columns found: extra";
                 "Data type mismatches found:";
                 "  - timestamp: expected datetime64[ns], got object";
                 "2 timestamps are in the future";
                 "1 duplicate records found (same timestamp + station + parameter)"]).
  { vm_compute in H1. now injection H1 as <-. }
  assert (Hw2 : warnings r2 =
                ["Unexpected columns found: extra";
                 "Data type mismatches found:";
                 "  - timestamp: expected datetime64[ns], got object";
                 "1 duplicate records found (same timestamp + station + parameter)"]).
  { vm_compute in H2. now injection H2 as <-. }
  split; [rewrite Hw1; simpl; tauto|].
  split.
  - rewrite Hw2. simpl. intros [H|[H|[H|[H|[]]]]]; discriminate H.
  - intros Heq. rewrite Heq, Hw2 in Hw1. discriminate Hw1.
Qed.

(** ** The thresholds on doubles *)

(** At the boundaries the double is the exact percentage: five nulls in
    ten rows give 50.0, one null in ten rows gives 10.0. *)
Example f64_boundaries :
  null_percent_f64 5 10 = 50%float
  /\ null_percent_f64 1 10 = 10%float
  /\ PrimFloat.ltb 50%float (null_percent_f64 6 10) = true
  /\ PrimFloat.ltb 50%float (null_percent_f64 51 100) = true
  /\ PrimFloat.ltb 10%float (null_percent_f64 101 1000) = true.
Proof. repeat split; vm_compute; reflexivity. Qed.

(** For every table of up to 400 rows and every null count, the two
    threshold tests decide alike on doubles and on exact percentages. *)
Example f64_thresholds_agree :
  forallb (fun len => forallb (fun k => thresholds_agree k len) (seq 0 (S len)))
    (seq 1 400) = true.
Proof. vm_compute. reflexivity. Qed.

(** ** When the passes return *)

Lemma dropna_of p l :
  Forall (fun c => p c = true \/ c = NA) l ->
  Forall (fun c => p c = true) (dropna l).
Proof.
  unfold dropna. induction 1 as [|c l Hc Hl IH]; [constructor|].
  rewrite filter_cons. destruct (decide (notna c = true)) as [Hn|Hn].
  - constructor; [|assumption]. destruct Hc as [Hc| ->]; [assumption|].
    discriminate Hn.
  - assumption.
Qed.

Lemma scan_min_num x l :
  Forall (fun c => is_num c = true) l -> exists y, scan_min (Num x) l = Ok (Num y).
Proof.
  intros H. revert x. induction H as [|c l Hc Hl IH]; intros x; simpl.
  - eauto.
  - destruct c as [|y|y|y]; try discriminate Hc. simpl.
    destruct (negb (Qle_bool x y)); apply IH.
Qed.

Lemma scan_max_num x l :
  Forall (fun c => is_num c = true) l -> exists y, scan_max (Num x) l = Ok (Num y).
Proof.
  intros H. revert x. induction H as [|c l Hc Hl IH]; intros x; simpl.
  - eauto.
  - destruct c as [|y|y|y]; try discriminate Hc. simpl.
    destruct (negb (Qle_bool y x)); apply IH.
Qed.

Lemma count_where_num (p : cell -> exn bool) l :
  (forall x, exists b, p (Num x) = Ok b) ->
  Forall (fun c => is_num c = true) l -> exists n, count_where p l = Ok n.
Proof.
  intros Hp H. induction H as [|c l Hc Hl [n IH]]; simpl.
  - eauto.
  - destruct c as [|y|y|y]; try discriminate Hc.
    destruct (Hp y) as [b ->]. rewrite IH. simpl. eauto.
Qed.

Lemma check_below_returns x l r :
  Forall (fun c => is_num c = true) l ->
  exists r', check_below (Num x) l r = Ok r'.
Proof.
  intros Hl. unfold check_below.
  destruct (count_where_num
              (fun v => cell_ltb v (Num DataConstraints.MIN_VALUE)) l)
    as [n Hn]; [simpl; eauto | assumption |].
  destruct (cell_ltb (Num x) (Num DataConstraints.MIN_VALUE)) as [b|] eqn:E;
    [|discriminate E].
  cbn [bind]. destruct b; [rewrite Hn; cbn [bind]|]; eauto.
Qed.

Lemma check_above_returns x l r :
  Forall (fun c => is_num c = true) l ->
  exists r', check_above (Num x) l r = Ok r'.
Proof.
  intros Hl. unfold check_above.
  destruct (count_where_num
              (fun v => cell_ltb (Num DataConstraints.MAX_VALUE) v) l)
    as [n Hn]; [simpl; eauto | assumption |].
  destruct (cell_ltb (Num DataConstraints.MAX_VALUE) (Num x)) as [b|] eqn:E;
    [|discriminate E].
  cbn [bind]. destruct b; [rewrite Hn; cbn [bind]|]; eauto.
Qed.

Lemma check_dates_returns rt schema_type now df r :
  naive_dates rt schema_type df ->
  exists r', check_dates rt schema_type now df r = Ok r'.
Proof.
  unfold naive_dates, date_series, check_dates. intros Hn.
  destruct (has_column _ df); [|eauto].
  destruct (lookup_column _ _) as [s|]; [|eauto].
  unfold check_date_range. rewrite (Hn s eq_refl).
  branches; eauto.
Qed.

(** Dates with a time zone are not ordered against the clock. *)
Lemma check_dates_zoned rt schema_type now df r s :
  date_series schema_type df = Some s ->
  tz_aware rt (values s) = true ->
  valid_dates rt s <> [] ->
  check_dates rt schema_type now df r = Raise TypeError.
Proof.
  unfold date_series, check_dates.
  destruct (has_column _ df); [|discriminate]. intros -> Hz Hv.
  unfold check_date_range.
  destruct (valid_dates rt s); [now destruct Hv|]. cbn zeta. now rewrite Hz.
Qed.

Lemma check_value_range_returns df r0 :
  column_of is_num "value" df ->
  exists a, check_value_range df r0 = Ok a.
Proof.
  intros Hnum.
  unfold check_value_range. destruct (has_column "value" df); [|eauto].
  destruct (lookup_column "value" (columns df)) as [s|] eqn:Hs; [|eauto].
  pose proof (dropna_of _ _ (Hnum s Hs)) as Hall.
  destruct (dropna (values s)) as [|c rest] eqn:Hd; [eauto|].
  inversion Hall as [|? ? Hc Hrest]; subst.
  destruct c as [|x|x|x]; try discriminate Hc.
  destruct (scan_min_num x rest Hrest) as [lo ->].
  destruct (scan_max_num x rest Hrest) as [hi ->]. cbn [bind].
  match goal with
  | |- context [check_below (Num lo) ?l ?r] =>
      destruct (check_below_returns lo l r Hall) as [r1 ->]
  end.
  cbn [bind]. now apply check_above_returns.
Qed.

(** The quality pass returns on every table whose [value] column, when
    present, holds numbers and missing cells only and whose dates are
    naive. *)
Lemma validate_data_quality_returns rt schema_type now df :
  column_of is_num "value" df ->
  naive_dates rt schema_type df ->
  exists r, validate_data_quality rt schema_type now df = Ok r.
Proof.
  intros Hnum Hnaive. unfold validate_data_quality.
  destruct (empty df); [eauto|].
  destruct (check_value_range_returns df
              (check_nulls rt schema_type df new_result) Hnum) as [a ->].
  cbn [bind]. now apply check_dates_returns.
Qed.

(** On tz-aware dates it raises [TypeError]. *)
Lemma validate_data_quality_zoned rt schema_type now df s :
  column_of is_num "value" df ->
  empty df = false ->
  date_series schema_type df = Some s ->
  tz_aware rt (values s) = true ->
  valid_dates rt s <> [] ->
  validate_data_quality rt schema_type now df = Raise TypeError.
Proof.
  intros Hnum He Hs Hz Hv. unfold validate_data_quality. rewrite He.
  destruct (check_value_range_returns df
              (check_nulls rt schema_type df new_result) Hnum) as [a ->].
  cbn [bind]. now apply (check_dates_zoned _ _ _ _ _ s).
Qed.

(** A text in the [value] column makes the quality pass raise
    [TypeError]: texts are not ordered against the float bounds. *)
Lemma validate_data_quality_text_value rt schema_type now df s x rest :
  empty df = false ->
  lookup_column "value" (columns df) = Some s ->
  dropna (values s) = Str x :: rest ->
  validate_data_quality rt schema_type now df = Raise TypeError.
Proof.
  intros He Hs Hd. unfold validate_data_quality. rewrite He.
  unfold check_value_range.
  rewrite (lookup_column_has _ _ _ Hs), Hs, Hd.
  destruct (scan_min (Str x) rest) as [lo|e] eqn:Hlo.
  - assert (Hstr : exists y, lo = Str y).
    { clear Hd. revert x Hlo. induction rest as [|c rest IH]; intros x Hlo.
      - injection Hlo as <-. eauto.
      - simpl in Hlo. destruct c as [|y|y|y]; try discriminate Hlo.
        simpl in Hlo. destruct (String.ltb y x); eapply IH, Hlo. }
    destruct Hstr as [y ->]. cbn [bind].
    destruct (scan_max (Str x) rest) as [hi|e] eqn:Hhi; cbn [bind].
    + reflexivity.
    + clear Hd Hlo. revert x Hhi.
      induction rest as [|c rest IH]; intros x Hhi; [discriminate Hhi|].
      simpl in Hhi. destruct c as [|z|z|z]; simpl in Hhi;
        try (injection Hhi as <-; reflexivity).
      destruct (String.ltb x z); eapply IH, Hhi.
  - cbn [bind]. clear Hd. revert x Hlo.
    induction rest as [|c rest IH]; intros x Hlo; [discriminate Hlo|].
    simpl in Hlo. destruct c as [|z|z|z]; simpl in Hlo;
      try (injection Hlo as <-; reflexivity).
    destruct (String.ltb z x); eapply IH, Hlo.
Qed.

Lemma str_accessor_texts l :
  Forall (fun c => is_str c = true \/ c = NA) l -> str_accessor l = Ok l.
Proof.
  intros H. apply dropna_of in H. unfold str_accessor.
  destruct (dropna l) as [|c nn]; [reflexivity|].
  inversion H as [|? ? Hc _]; subst.
  destruct c; try discriminate Hc. reflexivity.
Qed.

Lemma unique_from_Forall (P : cell -> Prop) seen l :
  Forall P l -> Forall P (unique_from seen l).
Proof.
  intros H. revert seen. induction H as [|c l Hc Hl IH]; intros seen; simpl.
  - constructor.
  - destruct (cell_mem c seen); [apply IH|]. constructor; [assumption|apply IH].
Qed.

Lemma insert_sorted_texts x l :
  Forall (fun c => is_str c = true) l ->
  exists out, insert_sorted (Str x) l = Ok out
              /\ Forall (fun c => is_str c = true) out.
Proof.
  induction 1 as [|c l Hc Hl (out & Hr & Hall)]; simpl.
  - eexists. split; [reflexivity|]. now repeat constructor.
  - destruct c as [|y|y|y]; try discriminate Hc. simpl.
    destruct (String.ltb y x).
    + rewrite Hr. simpl. eexists. split; [reflexivity|]. now constructor.
    + eexists. split; [reflexivity|]. now repeat constructor.
Qed.

Lemma sorted_texts l :
  Forall (fun c => is_str c = true) l ->
  exists out, sorted l = Ok out /\ Forall (fun c => is_str c = true) out.
Proof.
  induction 1 as [|c l Hc Hl (out & Hr & Hall)]; simpl.
  - eexists. split; [reflexivity|constructor].
  - rewrite Hr. simpl. destruct c as [|y|y|y]; try discriminate Hc.
    now apply insert_sorted_texts.
Qed.

(** The business pass returns on every table whose station and parameter
    columns, when present, hold texts and missing cells only. *)
Lemma validate_business_rules_returns rt schema_type df :
  column_of is_str (station_col schema_type) df ->
  column_of is_str (param_col schema_type) df ->
  exists r, validate_business_rules rt schema_type df = Ok r.
Proof.
  intros Hst Hpa. unfold validate_business_rules.
  destruct (empty df); [eauto|].
  generalize (check_duplicates schema_type df new_result). intros r0.
  assert (Hs : exists r1, check_stations schema_type df r0 = Ok r1).
  { unfold check_stations. destruct (has_column _ df); [|eauto].
    destruct (lookup_column _ _) as [s|] eqn:Hs; [|eauto].
    case_bool_decide; [|eauto].
    rewrite (str_accessor_texts _ (Hst s Hs)). cbn [bind].
    destruct (str_len_max (values s)) as [n|]; [|eauto].
    destruct (_ <? n)%nat; eauto. }
  destruct Hs as [r1 ->]. cbn [bind].
  assert (Hp : exists r2, check_parameters schema_type df r1 = Ok r2).
  { unfold check_parameters. destruct (has_column _ df); [|eauto].
    destruct (lookup_column _ _) as [s|] eqn:Hs; [|eauto].
    destruct (sorted_texts
                (filter (fun p => notna p = true) (unique (values s))))
      as (names & -> & _); [|cbn [bind]; eauto].
    apply (dropna_of is_str), unique_from_Forall, (Hpa s Hs). }
  destruct Hp as [r2 ->]. cbn [bind]. eauto.
Qed.

(** On a table whose [value] column holds numbers and whose station and
    parameter columns hold texts (missing cells apart, each column when
    present), [validate_all] returns if the date column, when present,
    parses to naive timestamps; and it raises [TypeError] if the table is
    not empty and the date column parses to tz-aware timestamps, one at
    least: these are not ordered against the naive clock reading. *)
Lemma validate_all_returns_typed rt schema_type now df :
  column_of is_num "value" df ->
  column_of is_str (station_col schema_type) df ->
  column_of is_str (param_col schema_type) df ->
  (naive_dates rt schema_type df ->
   exists r, validate_all rt schema_type now df = Ok r)
  /\ (forall s,
        empty df = false ->
        date_series schema_type df = Some s ->
        tz_aware rt (values s) = true ->
        valid_dates rt s <> [] ->
        validate_all rt schema_type now df = Raise TypeError).
Proof.
  intros Hv Hs Hp. split.
  - intros Hn.
    destruct (validate_data_quality_returns rt schema_type now df Hv Hn)
      as [q Hq].
    destruct (validate_business_rules_returns rt schema_type df Hs Hp)
      as [b Hb].
    rewrite (validate_all_returns _ _ _ _ _ _ Hq Hb). eauto.
  - intros s He Hd Hz Hvd. unfold validate_all.
    now rewrite (validate_data_quality_zoned rt schema_type now df s
                   Hv He Hd Hz Hvd).
Qed.

(** ** The errors of the schema pass *)

Lemma fold_warnings_same (f : string -> string) (l : list string) r :
  let r' := fold_left (fun r issue => add_warning (f issue) r) l r in
  errors r' = errors r /\ is_valid r' = is_valid r /\ info r' = info r.
Proof.
  revert r. induction l as [|x l IH]; intros r; simpl; [tauto|].
  apply (IH (add_warning (f x) r)).
Qed.

Lemma check_dtypes_same schema_type df r :
  let r' := check_dtypes schema_type df r in
  errors r' = errors r /\ is_valid r' = is_valid r /\ info r' = info r.
Proof.
  unfold check_dtypes. destruct (dtype_issues schema_type df); [simpl; tauto|].
  apply (fold_warnings_same (fun i => "  - " +:+ i) _
           (add_warning "Data type mismatches found:" r)).
Qed.

Lemma check_unexpected_same rt schema_type df r :
  let r' := check_unexpected rt schema_type df r in
  errors r' = errors r /\ is_valid r' = is_valid r
  /\ info r' !! "missing_columns" = info r !! "missing_columns".
Proof.
  unfold check_unexpected. case_bool_decide; simpl; [tauto|].
  split; [reflexivity|]. split; [reflexivity|]. now apply lookup_insert_ne.
Qed.

(** The schema pass records an error for the empty table and for absent
    required columns and for nothing else; the absent columns are listed
    once each, comma-joined, in the order the variant declares them, and
    recorded under [missing_columns]. *)
Theorem validate_schema_errors rt schema_type df :
  let r := validate_schema rt schema_type df in
  let missing :=
    filter (fun col => has_column col df = false) (required_cols schema_type) in
  errors r =
    (if empty df then ["DataFrame is empty (0 rows)"]
     else match missing with
          | [] => []
          | _ => ["Missing required columns: " +:+ Str.join ", " missing]
          end)
  /\ is_valid r =
    (if empty df then false
     else match missing with [] => true | _ => false end)
  /\ info r !! "missing_columns" =
    (if empty df then None
     else match missing with
          | [] => None
          | _ => Some (IList (map IStr missing))
          end).
Proof.
  unfold validate_schema. destruct (empty df) eqn:He; simpl.
  { split; [reflexivity|]. split; reflexivity. }
  match goal with
  | |- context [check_dtypes _ _ ?r0] =>
      destruct (check_dtypes_same schema_type df r0) as (-> & -> & ->)
  end.
  match goal with
  | |- context [check_unexpected _ _ _ ?r0] =>
      destruct (check_unexpected_same rt schema_type df r0) as (-> & -> & ->)
  end.
  unfold check_missing, missing_cols.
  destruct (filter _ (required_cols schema_type)) as [|c l]; simpl.
  - split; [reflexivity|]. split; reflexivity.
  - split; [reflexivity|]. split; [reflexivity|]. apply lookup_insert_eq.
Qed.

Example validate_schema_errors_bad :
  errors (validate_schema Demo.rt NORMALIZED Demo.bad) =
    ["Missing required columns: timestamp, parameter, unit"]
  /\ errors (validate_schema Demo.rt RAW Demo.bad) =
    ["Missing required columns: site_no, sample_datetime, variable, unit"].
Proof. split; reflexivity. Qed.

Lemma validate_data_quality_text_value_witness :
  validate_data_quality Demo.rt NORMALIZED Demo.now Demo.text_values
  = Raise TypeError.
Proof.
  apply (validate_data_quality_text_value Demo.rt NORMALIZED Demo.now
           Demo.text_values {| dtype := "object"; values := [Str "n/a"] |}
           "n/a" []); reflexivity.
Defined.

Lemma messy_columns_typed :
  column_of is_num "value" Demo.messy
  /\ column_of is_str (station_col NORMALIZED) Demo.messy
  /\ column_of is_str (param_col NORMALIZED) Demo.messy.
Proof.
  repeat split; intros s Hs; vm_compute in Hs; injection Hs as <-;
    simpl;
    repeat (constructor; [first [left; reflexivity | right; reflexivity]|]);
    constructor.
Defined.

Lemma messy_naive : naive_dates Demo.rt NORMALIZED Demo.messy.
Proof. intros s Hs. vm_compute in Hs. injection Hs as <-. reflexivity. Defined.

Lemma utc_columns_typed :
  column_of is_num "value" Demo.utc
  /\ column_of is_str (station_col NORMALIZED) Demo.utc
  /\ column_of is_str (param_col NORMALIZED) Demo.utc.
Proof.
  repeat split; intros s Hs; vm_compute in Hs; injection Hs as <-;
    simpl;
    repeat (constructor; [first [left; reflexivity | right; reflexivity]|]);
    constructor.
Defined.

Lemma validate_all_returns_typed_witness :
  (exists r, validate_all Demo.rt NORMALIZED Demo.now Demo.messy = Ok r)
  /\ validate_all Demo.rt NORMALIZED Demo.now Demo.utc = Raise TypeError.
Proof.
  destruct messy_columns_typed as (Hv & Hs & Hp).
  destruct utc_columns_typed as (Hv' & Hs' & Hp').
  split.
  - exact (proj1 (validate_all_returns_typed Demo.rt NORMALIZED Demo.now
                    Demo.messy Hv Hs Hp) messy_naive).
  - apply (proj2 (validate_all_returns_typed Demo.rt NORMALIZED Demo.now
                    Demo.utc Hv' Hs' Hp')
             {| dtype := "object"; values := [Str "2024Z"; Str "2024Z"] |});
      [reflexivity | reflexivity | reflexivity | discriminate].
Defined.

(** ** The column mapping and its inverse *)

Lemma dict_get_set_eq key value d :
  dict_get key (dict_set key value d) = Some value.
Proof.
  induction d as [|[k v] d IH]; simpl.
  - now rewrite bool_decide_eq_true_2.
  - case_bool_decide as Hk; simpl.
    + now rewrite bool_decide_eq_true_2.
    + now rewrite bool_decide_eq_false_2.
Qed.

Lemma dict_get_set_ne key key' value d :
  key <> key' -> dict_get key' (dict_set key value d) = dict_get key' d.
Proof.
  intros Hne. induction d as [|[k v] d IH]; simpl.
  - now rewrite bool_decide_eq_false_2.
  - case_bool_decide as Hk; simpl.
    + subst k. now rewrite !bool_decide_eq_false_2.
    + case_bool_decide; [reflexivity | exact IH].
Qed.

Lemma dict_get_In key value d :
  dict_get key d = Some value -> In (key, value) d.
Proof.
  induction d as [|[k v] d IH]; simpl; [discriminate|].
  case_bool_decide as Hk.
  - intros [= ->]. subst. now left.
  - intros H. right. auto.
Qed.

Lemma In_dict_get key value d :
  NoDup (map fst d) -> In (key, value) d -> dict_get key d = Some value.
Proof.
  induction d as [|[k v] d IH]; simpl; [intros _ []|].
  intros Hnd [Heq|Hin]; apply NoDup_cons in Hnd as [Hk Hnd].
  - injection Heq as -> ->. now rewrite bool_decide_eq_true_2.
  - case_bool_decide as Hkk; [|auto]. subst k. exfalso. apply Hk.
    apply list_elem_of_In, in_map_iff. now exists (key, value).
Qed.

Lemma reverse_fold_absent v d acc :
  ~ In v (map snd d) ->
  dict_get v (fold_left (fun acc kv => dict_set kv.2 kv.1 acc) d acc) =
  dict_get v acc.
Proof.
  revert acc. induction d as [|[k0 v0] d IH]; intros acc Hv; simpl.
  - reflexivity.
  - simpl in Hv. rewrite IH by tauto. apply dict_get_set_ne. tauto.
Qed.

Lemma reverse_fold_present k v d acc :
  NoDup (map snd d) -> In (k, v) d ->
  dict_get v (fold_left (fun acc kv => dict_set kv.2 kv.1 acc) d acc) = Some k.
Proof.
  revert acc. induction d as [|[k0 v0] d IH]; intros acc Hnd Hin; simpl.
  - destruct Hin.
  - simpl in Hnd. apply NoDup_cons in Hnd as [Hv0 Hnd].
    destruct Hin as [Heq|Hin].
    + injection Heq as -> ->. rewrite reverse_fold_absent.
      * apply dict_get_set_eq.
      * intros H. apply Hv0. now apply list_elem_of_In.
    + now apply IH.
Qed.

(** The dict comprehension that builds [REVERSE_COLUMN_MAPPING] inverts a
    dict whose values are distinct: it sends [v] to [k] exactly when the
    dict sends [k] to [v]. *)
Theorem dict_reverse_inverse (d : list (string * string)) (k v : string) :
  NoDup (map fst d) -> NoDup (map snd d) ->
  dict_get v (dict_reverse d) = Some k <-> dict_get k d = Some v.
Proof.
  intros Hk Hv. unfold dict_reverse. split.
  - intros H. destruct (in_dec string_dec v (map snd d)) as [Hin|Hout].
    + apply in_map_iff in Hin as ([k' v'] & Heq & Hin). simpl in Heq. subst v'.
      rewrite (reverse_fold_present k' v d [] Hv Hin) in H.
      injection H as <-. now apply In_dict_get.
    + rewrite reverse_fold_absent in H by assumption. discriminate H.
  - intros H. apply reverse_fold_present; [assumption|].
    now apply dict_get_In.
Qed.

Lemma COLUMN_MAPPING_NoDup :
  NoDup (map fst COLUMN_MAPPING) /\ NoDup (map snd COLUMN_MAPPING).
Proof.
  split; apply (bool_decide_unpack _); vm_compute; exact I.
Defined.

Lemma dict_reverse_inverse_witness :
  dict_get "station_id" REVERSE_COLUMN_MAPPING = Some "site_no"
  <-> dict_get "site_no" COLUMN_MAPPING = Some "station_id".
Proof.
  exact (dict_reverse_inverse COLUMN_MAPPING "site_no" "station_id"
           (proj1 COLUMN_MAPPING_NoDup) (proj2 COLUMN_MAPPING_NoDup)).
Defined.

(** Renaming a normalized column back and forth gives it back. *)
Example column_mapping_round_trip :
  Forall (fun kv => dict_get kv.2 REVERSE_COLUMN_MAPPING = Some kv.1)
    COLUMN_MAPPING
  /\ Forall (fun vk => dict_get vk.2 COLUMN_MAPPING = Some vk.1)
       REVERSE_COLUMN_MAPPING.
Proof. split; repeat constructor. Qed.

(** ** The registry *)

Lemma dtype_keys_all_columns schema_type :
  list_to_set (map fst (expected_dtypes schema_type)) =
  all_columns (get_schema_info schema_type).
Proof.
  destruct schema_type; apply (bool_decide_unpack _); vm_compute; exact I.
Qed.

(** The columns [validate_schema] takes as known, the keys of the dtype
    table, are the registry's required columns followed by its optional
    ones, each once, and make up [all_columns]; so the unexpected columns
    of a table are its labels outside [all_columns], and the missing ones
    the registry's required columns it lacks. *)
Theorem schema_registry_consistent schema_type df :
  let registry := get_schema_info schema_type in
  unexpected_cols schema_type df =
    list_to_set (column_labels df) ∖ all_columns registry
  /\ missing_cols schema_type df =
    filter (fun col => has_column col df = false) (required_columns registry)
  /\ all_columns registry =
    list_to_set (required_columns registry ++ optional_columns registry)
  /\ map fst (dtypes registry) =
    required_columns registry ++ optional_columns registry
  /\ NoDup (required_columns registry ++ optional_columns registry).
Proof.
  split; [|split; [|split; [|split]]].
  - unfold unexpected_cols. now rewrite dtype_keys_all_columns.
  - destruct schema_type; reflexivity.
  - destruct schema_type; reflexivity.
  - destruct schema_type; reflexivity.
  - destruct schema_type; apply (bool_decide_unpack _); vm_compute; exact I.
Qed.

(** Every column either variant declares has a description of its own,
    whichever variant is asked about; a name without one gets the generic
    ["Column: <name>"]. *)
Theorem declared_columns_described schema_type asked col :
  (col ∈ all_columns (get_schema_info schema_type) ->
   exists text, dict_get col descriptions = Some text
                /\ get_column_description col asked = text)
  /\ (dict_get col descriptions = None ->
      get_column_description col asked = "Column: " +:+ col).
Proof.
  split.
  - unfold get_column_description.
    destruct schema_type; simpl; unfold RAW_ALL_COLUMNS, NORMALIZED_ALL_COLUMNS;
      rewrite elem_of_list_to_set, list_elem_of_In;
      unfold RAW_REQUIRED_COLUMNS, RAW_OPTIONAL_COLUMNS,
        NORMALIZED_REQUIRED_COLUMNS, NORMALIZED_OPTIONAL_COLUMNS;
      simpl; intros H;
      repeat (destruct H as [<-|H]; [eexists; split; reflexivity|]);
      destruct H.
  - unfold get_column_description. now intros ->.
Qed.

Lemma declared_columns_described_witness :
  "sdl" ∈ all_columns (get_schema_info RAW)
  /\ get_column_description "sdl" NORMALIZED = "Sample detection limit"
  /\ get_column_description "depth" RAW = "Column: depth".
Proof.
  destruct (declared_columns_described RAW NORMALIZED "sdl") as [H _].
  assert (Hin : "sdl" ∈ all_columns (get_schema_info RAW)).
  { simpl. unfold RAW_ALL_COLUMNS.
    rewrite elem_of_list_to_set, list_elem_of_In.
    unfold RAW_REQUIRED_COLUMNS, RAW_OPTIONAL_COLUMNS. simpl. tauto. }
  split; [exact Hin|]. split.
  - destruct (H Hin) as (text & _ & Ht). reflexivity.
  - apply (declared_columns_described RAW RAW "depth"). reflexivity.
Defined.

(** ** Normalizing the columns *)

Lemma lookup_column_None col df :
  has_column col df = false -> lookup_column col (columns df) = None.
Proof.
  intros H. destruct (lookup_column col (columns df)) as [s|] eqn:Hs;
    [|reflexivity].
  apply lookup_column_has in Hs. congruence.
Qed.

Lemma omap_filter_present df (mapping : list (string * string)) :
  omap (fun kv => (fun s => (kv.2, s)) <$> lookup_column kv.1 (columns df))
    (filter (fun kv => has_column kv.1 df = true) mapping) =
  omap (fun kv => (fun s => (kv.2, s)) <$> lookup_column kv.1 (columns df))
    mapping.
Proof.
  induction mapping as [|[k v] mapping IH]; [reflexivity|].
  rewrite filter_cons. cbn [fst snd].
  destruct (decide (has_column k df = true)) as [Hk|Hk];
    cbn [omap list_omap fst snd].
  - now rewrite IH.
  - apply not_true_is_false, lookup_column_None in Hk. rewrite Hk. exact IH.
Qed.

(** The columns of the normalized table, entry by entry of the mapping. *)
Lemma normalize_with_columns mapping df :
  NoDup (map fst mapping) ->
  columns (ECCCLoader.normalize_with mapping df) =
  omap (fun kv => (fun s => (kv.2, s)) <$> lookup_column kv.1 (columns df))
    mapping.
Proof.
  intros Hnd. unfold ECCCLoader.normalize_with, ECCCLoader.rename,
    ECCCLoader.select. cbn [columns].
  set (keep := filter (fun kv => has_column kv.1 df = true) mapping).
  assert (Hget : forall kv, In kv keep -> dict_get kv.1 keep = Some kv.2).
  { intros [k v] Hin. apply In_dict_get; [|exact Hin].
    apply (sublist_NoDup _ (map fst mapping)); [assumption|].
    apply fmap_sublist, sublist_filter. }
  assert (Hsel : forall l,
    (forall kv, In kv l -> dict_get kv.1 keep = Some kv.2) ->
    map (fun c => (default c.1 (dict_get c.1 keep), c.2))
      (omap (fun l => (fun s => (l, s)) <$> lookup_column l (columns df))
         (map fst l)) =
    omap (fun kv => (fun s => (kv.2, s)) <$> lookup_column kv.1 (columns df)) l).
  { induction l as [|[k v] l IH]; intros Hl; [reflexivity|]. simpl.
    destruct (lookup_column k (columns df)) as [s|]; simpl.
    - pose proof (Hl (k, v) (or_introl eq_refl)) as Hkv. simpl in Hkv.
      rewrite Hkv. simpl. f_equal.
      apply IH. intros kv Hin. apply Hl. now right.
    - apply IH. intros kv Hin. apply Hl. now right. }
  rewrite (Hsel keep Hget). apply omap_filter_present.
Qed.

Lemma lookup_omap_absent (f : string * string -> option Series) v mapping :
  ~ In v (map snd mapping) ->
  lookup_column v (omap (fun kv => (fun s => (kv.2, s)) <$> f kv) mapping)
  = None.
Proof.
  induction mapping as [|[k0 v0] mapping IH]; intros Hv; [reflexivity|].
  simpl in *. destruct (f (k0, v0)) as [s|]; simpl.
  - rewrite bool_decide_eq_false_2 by tauto. apply IH. tauto.
  - apply IH. tauto.
Qed.

Lemma lookup_omap_present (f : string * string -> option Series) k v mapping :
  NoDup (map snd mapping) -> In (k, v) mapping ->
  lookup_column v (omap (fun kv => (fun s => (kv.2, s)) <$> f kv) mapping)
  = f (k, v).
Proof.
  induction mapping as [|[k0 v0] mapping IH]; intros Hnd Hin; [destruct Hin|].
  simpl in Hnd. apply NoDup_cons in Hnd as [Hv0 Hnd]. simpl.
  destruct Hin as [Heq|Hin].
  - injection Heq as -> ->. destruct (f (k, v)) as [s|]; simpl.
    + now rewrite bool_decide_eq_true_2.
    + apply lookup_omap_absent. intros H. apply Hv0. now apply list_elem_of_In.
  - assert (Hne : v0 <> v).
    { intros ->. apply Hv0. apply list_elem_of_In, in_map_iff.
      now exists (k, v). }
    destruct (f (k0, v0)) as [s|]; simpl.
    + rewrite bool_decide_eq_false_2 by assumption. now apply IH.
    + now apply IH.
Qed.

Lemma omap_labels (f : string * string -> option Series) mapping :
  map fst (omap (fun kv => (fun s => (kv.2, s)) <$> f kv) mapping) =
  map snd (filter (fun kv => is_Some (f kv)) mapping).
Proof.
  induction mapping as [|[k v] mapping IH]; [reflexivity|].
  rewrite filter_cons.
  destruct (decide (is_Some (f (k, v)))) as [[s Hs]|Hn];
    cbn [omap list_omap fst snd].
  - rewrite Hs. cbn. now rewrite IH.
  - destruct (f (k, v)) as [s|] eqn:Hf; [exfalso; apply Hn; eauto|].
    cbn. exact IH.
Qed.

Lemma normalized_lookup df k v :
  In (k, v) COLUMN_MAPPING ->
  lookup_column v (columns (ECCCLoader.normalize_with COLUMN_MAPPING df)) =
  lookup_column k (columns df).
Proof.
  intros Hin.
  rewrite normalize_with_columns by apply COLUMN_MAPPING_NoDup.
  exact (lookup_omap_present
           (fun kv => lookup_column kv.1 (columns df)) k v COLUMN_MAPPING
           (proj2 COLUMN_MAPPING_NoDup) Hin).
Qed.

Lemma normalized_labels df :
  column_labels (ECCCLoader.normalize_with COLUMN_MAPPING df) =
  map snd (filter (fun kv => has_column kv.1 df = true) COLUMN_MAPPING).
Proof.
  unfold column_labels.
  rewrite normalize_with_columns by apply COLUMN_MAPPING_NoDup.
  rewrite (omap_labels (fun kv => lookup_column kv.1 (columns df))).
  f_equal. apply list_filter_iff. intros [k v]. simpl. split.
  - intros [s Hs]. now apply lookup_column_has in Hs.
  - intros H. destruct (has_column_lookup _ _ H) as [s Hs]. now exists s.
Qed.

Lemma normalized_well_formed df :
  well_formed df -> well_formed (ECCCLoader.normalize_with COLUMN_MAPPING df).
Proof.
  intros [Hlen Hnd]. split.
  - rewrite normalize_with_columns by apply COLUMN_MAPPING_NoDup.
    apply Forall_forall. intros [l s] Hin.
    apply list_elem_of_omap in Hin as ([k v] & _ & Hf). simpl in Hf.
    destruct (lookup_column k (columns df)) as [s'|] eqn:Hs; [|discriminate Hf].
    injection Hf as <- <-. simpl.
    apply lookup_column_In, list_elem_of_In in Hs.
    rewrite Forall_forall in Hlen. exact (Hlen _ Hs).
  - fold (column_labels (ECCCLoader.normalize_with COLUMN_MAPPING df)).
    rewrite normalized_labels.
    apply (sublist_NoDup _ (map snd COLUMN_MAPPING));
      [apply COLUMN_MAPPING_NoDup|].
    apply fmap_sublist, sublist_filter.
Qed.

(** [normalize_columns] on a loaded table keeps the row count and, of the
    raw columns, exactly those the column mapping names, in the order of
    the mapping and under their normalized names, each with the cells of
    the raw column it comes from; every other column is dropped, the raw
    table is left as it was, and a well-formed table stays well-formed. *)
Theorem normalize_columns_keeps_mapped self df :
  ECCCLoader.raw_df self = Some df ->
  exists out,
    ECCCLoader.normalize_columns self =
      ECCCLoader.Returns out (ECCCLoader.set_normalized_df out self)
    /\ ECCCLoader.raw_df (ECCCLoader.set_normalized_df out self) = Some df
    /\ nrows out = nrows df
    /\ column_labels out =
       map snd (filter (fun kv => has_column kv.1 df = true) COLUMN_MAPPING)
    /\ (forall k v, In (k, v) COLUMN_MAPPING ->
          lookup_column v (columns out) = lookup_column k (columns df))
    /\ (forall l, ~ In l (map snd COLUMN_MAPPING) -> has_column l out = false)
    /\ (well_formed df -> well_formed out).
Proof.
  intros Hraw. exists (ECCCLoader.normalize_with COLUMN_MAPPING df).
  unfold ECCCLoader.normalize_columns. rewrite Hraw.
  split; [reflexivity|]. split; [exact Hraw|]. split; [reflexivity|].
  split; [apply normalized_labels|]. split; [apply normalized_lookup|].
  split; [|apply normalized_well_formed].
  intros l Hl. unfold has_column, Str.mem. rewrite normalized_labels.
  apply bool_decide_eq_false. intros Hin. apply Hl.
  apply list_elem_of_In in Hin. apply in_map_iff in Hin as (kv & <- & Hkv).
  apply in_map. apply list_elem_of_In in Hkv.
  now apply list_elem_of_filter in Hkv as [_ Hkv%list_elem_of_In].
Qed.

(** ** The business rules on the raw and on the normalized table *)

Lemma has_column_false_lookup col df :
  lookup_column col (columns df) = None -> has_column col df = false.
Proof.
  intros H. destruct (has_column col df) eqn:Hc; [|reflexivity].
  destruct (has_column_lookup _ _ Hc) as [s Hs]. congruence.
Qed.

Lemma has_column_agree col col' df df' :
  lookup_column col' (columns df') = lookup_column col (columns df) ->
  has_column col' df' = has_column col df.
Proof.
  intros H. destruct (has_column col df) eqn:Hc.
  - destruct (has_column_lookup _ _ Hc) as [s Hs]. rewrite Hs in H.
    now apply lookup_column_has in H.
  - rewrite (lookup_column_None _ _ Hc) in H.
    now apply has_column_false_lookup.
Qed.

(** The business pass reads a table through its row count and five of its
    columns; two tables that agree on these get the same outcome. *)
Lemma business_rules_agree rt df N :
  empty N = false -> empty df = false -> nrows N = nrows df ->
  (forall k v,
     In (k, v) [("sample_datetime", "timestamp"); ("site_no", "station_id");
                ("variable", "parameter"); ("qualifier_flag", "qualifier");
                ("qa_status", "qa_status")] ->
     lookup_column v (columns N) = lookup_column k (columns df)) ->
  validate_business_rules rt NORMALIZED N = validate_business_rules rt RAW df.
Proof.
  intros HeN He Hn Hcols.
  assert (H1 := Hcols "sample_datetime" "timestamp").
  assert (H2 := Hcols "site_no" "station_id").
  assert (H3 := Hcols "variable" "parameter").
  assert (H4 := Hcols "qualifier_flag" "qualifier").
  assert (H5 := Hcols "qa_status" "qa_status").
  simpl in H1, H2, H3, H4, H5.
  specialize (H1 ltac:(tauto)). specialize (H2 ltac:(tauto)).
  specialize (H3 ltac:(tauto)). specialize (H4 ltac:(tauto)).
  specialize (H5 ltac:(tauto)).
  pose proof (has_column_agree _ _ _ _ H1) as C1.
  pose proof (has_column_agree _ _ _ _ H2) as C2.
  pose proof (has_column_agree _ _ _ _ H3) as C3.
  pose proof (has_column_agree _ _ _ _ H4) as C4.
  pose proof (has_column_agree _ _ _ _ H5) as C5.
  unfold validate_business_rules. rewrite HeN, He.
  unfold check_duplicates, check_stations, check_parameters, check_codes,
    duplicate_count, id_keys.
  cbn [id_cols station_col param_col qual_col forallb omap list_omap].
  rewrite C1, C2, C3, C4, C5, H1, H2, H3, H4, H5, Hn. reflexivity.
Qed.

Lemma business_rules_no_columns rt schema_type df :
  has_column (station_col schema_type) df = false ->
  has_column (param_col schema_type) df = false ->
  has_column (qual_col schema_type) df = false ->
  has_column "qa_status" df = false ->
  validate_business_rules rt schema_type df = Ok new_result.
Proof.
  intros Hs Hp Hq Ha. unfold validate_business_rules.
  destruct (empty df); [reflexivity|].
  unfold check_duplicates, check_stations, check_parameters, check_codes.
  assert (Hd : forallb (fun col => has_column col df) (id_cols schema_type)
               = false).
  { destruct schema_type; simpl in *; rewrite Hs; apply andb_false_r. }
  rewrite Hd, Hs, Hp, Hq, Ha. reflexivity.
Qed.

(** Renaming the raw columns with [COLUMN_MAPPING] and validating the
    business rules under the normalized variant gives the outcome of
    validating the raw table under the raw variant: the same errors,
    warnings and info (duplicate count, station and parameter counts,
    parameter list, unknown codes), or the same exception. *)
Theorem business_rules_survive_normalization rt df :
  validate_business_rules rt NORMALIZED
    (ECCCLoader.normalize_with COLUMN_MAPPING df)
  = validate_business_rules rt RAW df.
Proof.
  set (N := ECCCLoader.normalize_with COLUMN_MAPPING df).
  assert (Hcols : forall k v, In (k, v) COLUMN_MAPPING ->
            lookup_column v (columns N) = lookup_column k (columns df))
    by apply normalized_lookup.
  destruct (empty N) eqn:HeN.
  - assert (HN : validate_business_rules rt NORMALIZED N = Ok new_result).
    { unfold validate_business_rules. now rewrite HeN. }
    rewrite HN. symmetry.
    destruct (empty df) eqn:He.
    { unfold validate_business_rules. now rewrite He. }
    assert (Hnil : columns N = []).
    { unfold empty in HeN, He. apply orb_false_iff in He as [He _].
      change (nrows N) with (nrows df) in HeN. rewrite He in HeN.
      simpl in HeN. apply Nat.eqb_eq in HeN.
      now apply length_zero_iff_nil. }
    assert (Hno : forall k v, In (k, v) COLUMN_MAPPING ->
              has_column k df = false).
    { intros k v Hin. apply has_column_false_lookup.
      rewrite <- (Hcols k v Hin), Hnil. reflexivity. }
    apply business_rules_no_columns.
    + apply (Hno "site_no" "station_id"). simpl. tauto.
    + apply (Hno "variable" "parameter"). simpl. tauto.
    + apply (Hno "qualifier_flag" "qualifier"). simpl. tauto.
    + apply (Hno "qa_status" "qa_status"). simpl. tauto.
  - destruct (empty df) eqn:He.
    + exfalso. unfold empty in HeN, He.
      apply orb_false_iff in HeN as [HnN HcN].
      change (nrows N) with (nrows df) in HnN. rewrite HnN in He.
      simpl in He. apply Nat.eqb_eq, length_zero_iff_nil in He.
      assert (Hl : column_labels N = []).
      { unfold N. rewrite normalized_labels. unfold has_column, column_labels.
        rewrite He. reflexivity. }
      unfold column_labels in Hl. apply map_eq_nil in Hl.
      rewrite Hl in HcN. discriminate HcN.
    + apply business_rules_agree; try assumption; [reflexivity|].
      intros k v Hin. apply Hcols. simpl in *. tauto.
Qed.

(** The round trip on [Demo.pair]: one duplicate either way. *)
Example business_rules_pair :
  validate_business_rules Demo.rt NORMALIZED
    (ECCCLoader.normalize_with COLUMN_MAPPING Demo.pair)
  = validate_business_rules Demo.rt RAW Demo.pair
  /\ column_labels (ECCCLoader.normalize_with COLUMN_MAPPING Demo.pair)
     = ["station_id"; "timestamp"; "parameter"; "value"; "unit"].
Proof. split; vm_compute; reflexivity. Qed.

(** ** The ingestion pipeline *)

(** The errors and the validity of the schema pass on a table that is not
    empty. *)
Lemma schema_pass_profile rt schema_type df :
  empty df = false ->
  let r := validate_schema rt schema_type df in
  errors r =
    match missing_cols schema_type df with
    | [] => []
    | missing => ["Missing required columns: " +:+ Str.join ", " missing]
    end
  /\ is_valid r =
    match missing_cols schema_type df with [] => true | _ => false end.
Proof.
  intros He. unfold validate_schema. rewrite He. cbn zeta.
  match goal with
  | |- context [check_dtypes _ _ ?r0] =>
      destruct (check_dtypes_same schema_type df r0) as (-> & -> & _)
  end.
  match goal with
  | |- context [check_unexpected _ _ _ ?r0] =>
      destruct (check_unexpected_same rt schema_type df r0) as (-> & -> & _)
  end.
  unfold check_missing. destruct (missing_cols schema_type df); split; reflexivity.
Qed.

Lemma no_missing_present schema_type df col :
  missing_cols schema_type df = [] -> In col (required_cols schema_type) ->
  has_column col df = true.
Proof.
  unfold missing_cols. intros Hnil Hin.
  destruct (has_column col df) eqn:Hc; [reflexivity|].
  assert (H : col ∈ filter (fun col => has_column col df = false)
                      (required_cols schema_type)).
  { apply list_elem_of_filter. split; [assumption | now apply list_elem_of_In]. }
  rewrite Hnil in H. inversion H.
Qed.

Lemma lookup_set_column_eq col s cols :
  lookup_column col (ECCCLoader.set_column col s cols) = Some s.
Proof.
  induction cols as [|[l s'] cols IH]; simpl.
  - now rewrite bool_decide_eq_true_2.
  - case_bool_decide as Hl; simpl.
    + now rewrite bool_decide_eq_true_2.
    + now rewrite bool_decide_eq_false_2.
Qed.

Lemma lookup_set_column_ne col col' s cols :
  col <> col' ->
  lookup_column col' (ECCCLoader.set_column col s cols) =
  lookup_column col' cols.
Proof.
  intros Hne. induction cols as [|[l s'] cols IH]; simpl.
  - now rewrite bool_decide_eq_false_2.
  - case_bool_decide as Hl; simpl.
    + subst l. now rewrite !bool_decide_eq_false_2.
    + case_bool_decide; [reflexivity | exact IH].
Qed.

Lemma set_column_labels col s s' cols :
  lookup_column col cols = Some s' ->
  map fst (ECCCLoader.set_column col s cols) = map fst cols.
Proof.
  induction cols as [|[l s0] cols IH]; simpl; [discriminate|].
  case_bool_decide as Hl; simpl; [reflexivity|].
  intros H. now rewrite IH.
Qed.

(** The table [parse_dates] leaves has the labels of the one it found. *)
Lemma parsed_has_column rt dt df s col :
  lookup_column "sample_datetime" (columns df) = Some s ->
  has_column col (ECCCLoader.with_parsed_dates rt dt df s) = has_column col df.
Proof.
  intros Hs. unfold has_column, column_labels, ECCCLoader.with_parsed_dates.
  cbn [columns]. now rewrite (set_column_labels _ _ _ _ Hs).
Qed.

Lemma parsed_empty rt dt df s :
  lookup_column "sample_datetime" (columns df) = Some s ->
  empty (ECCCLoader.with_parsed_dates rt dt df s) = empty df.
Proof.
  intros Hs. unfold empty, ECCCLoader.with_parsed_dates. cbn [nrows columns].
  rewrite <- (length_map fst), (set_column_labels _ _ _ _ Hs), length_map.
  reflexivity.
Qed.

(** [parse_dates] on a loaded table that has the date column. *)
Lemma parse_dates_loaded rt dt self df s :
  ECCCLoader.raw_df self = Some df ->
  lookup_column "sample_datetime" (columns df) = Some s ->
  exists self',
    ECCCLoader.parse_dates rt dt self =
      ECCCLoader.Returns (ECCCLoader.with_parsed_dates rt dt df s) self'
    /\ ECCCLoader.raw_df self' = Some (ECCCLoader.with_parsed_dates rt dt df s)
    /\ ECCCLoader.normalized_df self' = ECCCLoader.normalized_df self
    /\ ECCCLoader.validation_result self' = ECCCLoader.validation_result self
    /\ ECCCLoader.stdout self' =
       ECCCLoader.stdout self ++
       (if (0 <? isna_sum (values (ECCCLoader.parsed_series rt dt s)))%nat
        then [ECCCLoader.parse_warning
                (isna_sum (values (ECCCLoader.parsed_series rt dt s)))]
        else []).
Proof.
  intros Hraw Hs. unfold ECCCLoader.parse_dates. rewrite Hraw, Hs.
  destruct (0 <? _)%nat; eexists; (split; [reflexivity|]); cbn;
    rewrite ?app_nil_r; repeat split; reflexivity.
Qed.

(** The pipeline on a CSV that reads as a non-empty table with every
    required raw column. *)
Lemma process_success rt dt path df :
  empty df = false -> missing_cols RAW df = [] ->
  exists s self,
    lookup_column "sample_datetime" (columns df) = Some s
    /\ ECCCLoader.load_eccc_data rt dt path (ECCCLoader.Csv df) =
       ECCCLoader.Returns
         (Some (ECCCLoader.normalize_with COLUMN_MAPPING
                  (ECCCLoader.with_parsed_dates rt dt df s))) self
    /\ ECCCLoader.raw_df self =
       Some (ECCCLoader.with_parsed_dates rt dt df s)
    /\ ECCCLoader.normalized_df self =
       Some (ECCCLoader.normalize_with COLUMN_MAPPING
               (ECCCLoader.with_parsed_dates rt dt df s))
    /\ ECCCLoader.validation_result self = Some (validate_schema rt RAW df).
Proof.
  intros He Hm.
  assert (Hd : has_column "sample_datetime" df = true).
  { apply (no_missing_present RAW); [assumption|]. simpl. tauto. }
  destruct (has_column_lookup _ _ Hd) as [s Hs]. exists s.
  destruct (schema_pass_profile rt RAW df He) as [_ Hv]. rewrite Hm in Hv.
  set (loaded := ECCCLoader.set_validation_result (validate_schema rt RAW df)
                   (ECCCLoader.set_raw_df df (ECCCLoader.new rt path))).
  destruct (parse_dates_loaded rt dt loaded df s eq_refl Hs)
    as (parsed & Hp & Hraw & Hnorm & Hres & _).
  exists (ECCCLoader.set_normalized_df
            (ECCCLoader.normalize_with COLUMN_MAPPING
               (ECCCLoader.with_parsed_dates rt dt df s)) parsed).
  split; [assumption|]. split.
  - unfold ECCCLoader.load_eccc_data, ECCCLoader.process, ECCCLoader.load.
    rewrite He. cbn [ECCCLoader.and_then].
    unfold ECCCLoader.validate_schema at 1.
    cbn [ECCCLoader.set_raw_df ECCCLoader.raw_df ECCCLoader.and_then].
    rewrite Hv. cbn [negb]. fold loaded. rewrite Hp.
    cbn [ECCCLoader.and_then]. unfold ECCCLoader.normalize_columns.
    rewrite Hraw. reflexivity.
  - cbn. rewrite Hraw, Hres. repeat split; reflexivity.
Qed.

(** The pipeline on a non-empty table that lacks a required raw column. *)
Lemma process_missing rt dt path df :
  empty df = false -> missing_cols RAW df <> [] ->
  ECCCLoader.load_eccc_data rt dt path (ECCCLoader.Csv df) =
  ECCCLoader.Raises
    (ECCCLoader.ValueError
       ("Schema validation failed:" +:+ ECCCLoader.newline
          +:+ "Missing required columns: "
          +:+ Str.join ", " (missing_cols RAW df)))
    (ECCCLoader.set_validation_result (validate_schema rt RAW df)
       (ECCCLoader.set_raw_df df (ECCCLoader.new rt path))).
Proof.
  intros He Hm.
  destruct (schema_pass_profile rt RAW df He) as [Herr Hv].
  unfold ECCCLoader.load_eccc_data, ECCCLoader.process, ECCCLoader.load.
  rewrite He. cbn [ECCCLoader.and_then].
  unfold ECCCLoader.validate_schema at 1.
  cbn [ECCCLoader.set_raw_df ECCCLoader.raw_df ECCCLoader.and_then].
  destruct (missing_cols RAW df) as [|m ms]; [now destruct Hm|].
  rewrite Hv, Herr. reflexivity.
Qed.

(** [load_eccc_data] has five outcomes and no other: [FileNotFoundError]
    when the file is absent, naming the path as [Path] renders it;
    [ValueError] when the file cannot be read,
    when it reads as an empty table, or when a required raw column is
    absent (the message lists the absent columns); otherwise the
    normalized table of the date-parsed raw table. *)
Theorem load_eccc_data_outcomes rt dt path fs :
  let out := ECCCLoader.load_eccc_data rt dt path fs in
  match fs with
  | ECCCLoader.Missing =>
      out = ECCCLoader.Raises
              (ECCCLoader.FileNotFoundError
                 ("CSV file not found: " +:+ str_path rt path))
              (ECCCLoader.new rt path)
  | ECCCLoader.Unreadable why =>
      out = ECCCLoader.Raises
              (ECCCLoader.ValueError ("Failed to load CSV: " +:+ why))
              (ECCCLoader.new rt path)
  | ECCCLoader.Csv df =>
      if empty df then
        out = ECCCLoader.Raises (ECCCLoader.ValueError "CSV file is empty")
                (ECCCLoader.set_raw_df df (ECCCLoader.new rt path))
      else
        match missing_cols RAW df with
        | [] =>
            exists s self,
              lookup_column "sample_datetime" (columns df) = Some s
              /\ out = ECCCLoader.Returns
                         (Some (ECCCLoader.normalize_with COLUMN_MAPPING
                                  (ECCCLoader.with_parsed_dates rt dt df s)))
                         self
        | missing =>
            out = ECCCLoader.Raises
                    (ECCCLoader.ValueError
                       ("Schema validation failed:" +:+ ECCCLoader.newline
                          +:+ "Missing required columns: "
                          +:+ Str.join ", " missing))
                    (ECCCLoader.set_validation_result
                       (validate_schema rt RAW df)
                       (ECCCLoader.set_raw_df df (ECCCLoader.new rt path)))
        end
  end.
Proof.
  destruct fs as [|why|df]; cbn zeta; try reflexivity.
  destruct (empty df) eqn:He.
  - unfold ECCCLoader.load_eccc_data, ECCCLoader.process, ECCCLoader.load.
    now rewrite He.
  - destruct (missing_cols RAW df) as [|m ms] eqn:Hm.
    + destruct (process_success rt dt path df He Hm) as (s & self & Hs & H & _).
      now exists s, self.
    + rewrite <- Hm. apply process_missing; [assumption|]. now rewrite Hm.
Qed.

(** The message names the path as [Path] renders it, not as it was
    given. *)
Example load_missing_file :
  ECCCLoader.load_eccc_data Demo.rt "datetime64[ns]" "./missing.csv"
    ECCCLoader.Missing
  = ECCCLoader.Raises
      (ECCCLoader.FileNotFoundError "CSV file not found: missing.csv")
      (ECCCLoader.new Demo.rt "missing.csv").
Proof. reflexivity. Qed.

Lemma filter_absent_nil (present : string -> bool) (l : list string) :
  Forall (fun col => present col = true) l ->
  filter (fun col => present col = false) l = [].
Proof.
  induction 1 as [|c l Hc Hl IH]; [reflexivity|].
  rewrite filter_cons, decide_False by congruence. exact IH.
Qed.

(** What [load_eccc_data] returns passes the schema check of the
    normalized variant: the table is not empty, has every required
    normalized column and no column outside the normalized schema, so the
    schema pass records no error and no unexpected column. *)
Theorem processed_table_schema_valid rt dt path fs out self :
  ECCCLoader.load_eccc_data rt dt path fs = ECCCLoader.Returns (Some out) self ->
  empty out = false
  /\ Forall (fun col => has_column col out = true) NORMALIZED_REQUIRED_COLUMNS
  /\ unexpected_cols NORMALIZED out = ∅
  /\ errors (validate_schema rt NORMALIZED out) = []
  /\ is_valid (validate_schema rt NORMALIZED out) = true.
Proof.
  intros H.
  destruct fs as [|why|df]; try discriminate H.
  destruct (empty df) eqn:He.
  { unfold ECCCLoader.load_eccc_data, ECCCLoader.process, ECCCLoader.load in H.
    rewrite He in H. discriminate H. }
  destruct (missing_cols RAW df) as [|m ms] eqn:Hm.
  2:{ rewrite process_missing in H by (rewrite ?Hm; congruence).
      discriminate H. }
  destruct (process_success rt dt path df He Hm) as (s & self' & Hs & Hp & _).
  rewrite Hp in H. injection H as <- _.
  set (P := ECCCLoader.with_parsed_dates rt dt df s).
  assert (Hhas : forall k v, In (k, v) COLUMN_MAPPING ->
            In k RAW_REQUIRED_COLUMNS ->
            has_column v (ECCCLoader.normalize_with COLUMN_MAPPING P) = true).
  { intros k v Hkv Hk.
    rewrite (has_column_agree k v P _ (normalized_lookup P k v Hkv)).
    unfold P. rewrite (parsed_has_column rt dt df s k Hs).
    now apply (no_missing_present RAW). }
  assert (Hreq : Forall (fun col =>
             has_column col (ECCCLoader.normalize_with COLUMN_MAPPING P) = true)
            NORMALIZED_REQUIRED_COLUMNS).
  { unfold NORMALIZED_REQUIRED_COLUMNS. repeat constructor.
    - apply (Hhas "site_no"); simpl; tauto.
    - apply (Hhas "sample_datetime"); simpl; tauto.
    - apply (Hhas "variable"); simpl; tauto.
    - apply (Hhas "value"); simpl; tauto.
    - apply (Hhas "unit"); simpl; tauto. }
  assert (Hne : empty (ECCCLoader.normalize_with COLUMN_MAPPING P) = false).
  { inversion Hreq as [|c l Hc _]; subst.
    destruct (has_column_lookup _ _ Hc) as [s0 Hs0].
    unfold empty in He |- *. apply orb_false_iff in He as [Hn _].
    change (nrows (ECCCLoader.normalize_with COLUMN_MAPPING P))
      with (nrows df).
    rewrite Hn.
    destruct (columns (ECCCLoader.normalize_with COLUMN_MAPPING P));
      [discriminate Hs0 | reflexivity]. }
  assert (Hmiss : missing_cols NORMALIZED
                    (ECCCLoader.normalize_with COLUMN_MAPPING P) = []).
  { unfold missing_cols. simpl required_cols.
    now apply (filter_absent_nil (fun col => has_column col _)). }
  destruct (schema_pass_profile rt NORMALIZED _ Hne) as [Herr Hv].
  rewrite Hmiss in Herr, Hv.
  split; [assumption|]. split; [assumption|]. split; [|split; assumption].
  unfold unexpected_cols. rewrite normalized_labels.
  apply elem_of_equiv_empty_L. intros x [Hx Hnx]%elem_of_difference.
  apply Hnx. apply elem_of_list_to_set in Hx. apply elem_of_list_to_set.
  apply list_elem_of_In in Hx. apply in_map_iff in Hx as ([k v] & <- & Hkv).
  apply list_elem_of_In, list_elem_of_filter in Hkv as [_ Hkv].
  apply list_elem_of_In in Hkv. apply list_elem_of_In. simpl in *.
  repeat (destruct Hkv as [Hkv|Hkv]; [injection Hkv as <- <-; tauto|]).
  destruct Hkv.
Qed.

Lemma processed_table_schema_valid_witness :
  exists out self,
    ECCCLoader.load_eccc_data Demo.rt "datetime64[ns]" "sample.csv"
      (ECCCLoader.Csv Demo.pair) = ECCCLoader.Returns (Some out) self
    /\ column_labels out = ["station_id"; "timestamp"; "parameter"; "value"; "unit"]
    /\ errors (validate_schema Demo.rt NORMALIZED out) = []
    /\ is_valid (validate_schema Demo.rt NORMALIZED out) = true.
Proof.
  destruct (ECCCLoader.load_eccc_data Demo.rt "datetime64[ns]" "sample.csv"
              (ECCCLoader.Csv Demo.pair)) as [[out|] self|e self] eqn:H;
    try (vm_compute in H; discriminate H).
  destruct (processed_table_schema_valid Demo.rt "datetime64[ns]" "sample.csv"
              (ECCCLoader.Csv Demo.pair) out self H) as (_ & _ & _ & He & Hv).
  exists out, self. split; [reflexivity|].
  split; [|split; assumption].
  vm_compute in H. injection H as <- _. reflexivity.
Defined.

Lemma normalize_columns_keeps_mapped_witness :
  exists out,
    ECCCLoader.normalize_columns
      (ECCCLoader.set_raw_df Demo.messy (ECCCLoader.new Demo.rt "sample.csv")) =
    ECCCLoader.Returns out
      (ECCCLoader.set_normalized_df out
         (ECCCLoader.set_raw_df Demo.messy (ECCCLoader.new Demo.rt "sample.csv")))
    /\ nrows out = 10%nat
    /\ column_labels out = ["value"].
Proof.
  destruct (normalize_columns_keeps_mapped
              (ECCCLoader.set_raw_df Demo.messy (ECCCLoader.new Demo.rt "sample.csv"))
              Demo.messy eq_refl) as (out & H & _ & Hn & Hl & _).
  exists out. split; [exact H|]. split; [exact Hn|]. rewrite Hl. reflexivity.
Defined.

(** ** Parsing the dates *)

Lemma set_column_twice col s s' cols :
  ECCCLoader.set_column col s' (ECCCLoader.set_column col s cols) =
  ECCCLoader.set_column col s' cols.
Proof.
  induction cols as [|[l s0] cols IH]; simpl.
  - now rewrite bool_decide_eq_true_2.
  - case_bool_decide as Hl; simpl.
    + now rewrite bool_decide_eq_true_2.
    + rewrite bool_decide_eq_false_2 by assumption. now rewrite IH.
Qed.

(** Coercing what the coercion returned changes nothing: a timestamp is
    kept and a missing cell stays missing. *)
Lemma to_datetime_parsed rt dt s :
  map (fun d => match d with Some t => Time t | None => NA end)
    (to_datetime rt (values (ECCCLoader.parsed_series rt dt s))) =
  values (ECCCLoader.parsed_series rt dt s).
Proof.
  unfold ECCCLoader.parsed_series. cbn [values]. unfold to_datetime.
  generalize (map (fun d => match d with Some t => Time t | None => NA end)
                (map (coerce rt (values s)) (values s))) at 1 as column.
  intros column. induction (map (coerce rt (values s)) (values s)) as [|d l IH];
    [reflexivity|].
  cbn [map]. rewrite IH. now destruct d.
Qed.

Lemma parsed_series_idempotent rt dt s :
  ECCCLoader.parsed_series rt dt (ECCCLoader.parsed_series rt dt s) =
  ECCCLoader.parsed_series rt dt s.
Proof.
  unfold ECCCLoader.parsed_series at 1. rewrite to_datetime_parsed.
  reflexivity.
Qed.

Lemma parsed_null_count rt dt s :
  isna_sum (values (ECCCLoader.parsed_series rt dt s)) =
  (isna_sum (values s) + failed_to_parse rt s)%nat.
Proof.
  unfold failed_to_parse. rewrite <- coerced_nulls.
  unfold ECCCLoader.parsed_series, to_datetime, isna_sum. cbn [values].
  induction (map (coerce rt (values s)) (values s)) as [|d l IH];
    [reflexivity|].
  cbn [map]. rewrite !filter_cons.
  destruct d as [t|]; simpl; [exact IH|]. now rewrite IH.
Qed.

Lemma dates_never_fail rt whole l :
  Forall (fun c => c = NA \/ exists t, c = Time t) l ->
  length (filter (fun c => notna c = true /\ coerce rt whole c = None) l)
  = 0%nat.
Proof.
  induction 1 as [|c l Hc Hl IH]; [reflexivity|].
  rewrite filter_cons. destruct (decide _) as [[Hn Hp]|_]; [|exact IH].
  destruct Hc as [->|[t ->]]; discriminate.
Qed.

Lemma parsed_nothing_failed rt dt s :
  failed_to_parse rt (ECCCLoader.parsed_series rt dt s) = 0%nat.
Proof.
  unfold failed_to_parse. apply dates_never_fail.
  unfold ECCCLoader.parsed_series. cbn [values].
  induction (to_datetime rt (values s)) as [|d l IH]; [constructor|].
  constructor; [|exact IH]. destruct d; eauto.
Qed.

Lemma with_parsed_dates_twice rt dt df s :
  ECCCLoader.with_parsed_dates rt dt (ECCCLoader.with_parsed_dates rt dt df s)
    (ECCCLoader.parsed_series rt dt s)
  = ECCCLoader.with_parsed_dates rt dt df s.
Proof.
  unfold ECCCLoader.with_parsed_dates. cbn [nrows columns].
  now rewrite parsed_series_idempotent, set_column_twice.
Qed.

(** [parse_dates] on a loaded table with a date column replaces that
    column by its coercion.  The nulls of the new column are the nulls of
    the old one plus the cells that failed to parse, and the printed
    warning counts them all.  In the new column nothing is left that the
    quality pass could count as an invalid date, so validating after
    [parse_dates] never records the could-not-be-parsed error; and a
    second [parse_dates] returns the same table. *)
Theorem parse_dates_absorbs_failures rt dt self df s :
  ECCCLoader.raw_df self = Some df ->
  lookup_column "sample_datetime" (columns df) = Some s ->
  let parsed := ECCCLoader.parsed_series rt dt s in
  let df' := ECCCLoader.with_parsed_dates rt dt df s in
  let null_count := (isna_sum (values s) + failed_to_parse rt s)%nat in
  exists self',
    ECCCLoader.parse_dates rt dt self = ECCCLoader.Returns df' self'
    /\ ECCCLoader.raw_df self' = Some df'
    /\ lookup_column "sample_datetime" (columns df') = Some parsed
    /\ isna_sum (values parsed) = null_count
    /\ ECCCLoader.stdout self' =
       ECCCLoader.stdout self ++
       (if (0 <? null_count)%nat then [ECCCLoader.parse_warning null_count]
        else [])
    /\ invalid_dates rt parsed = 0
    /\ (forall now r n,
          validate_data_quality rt RAW now df' = Ok r ->
          ~ In (invalid_dates_message n) (errors r))
    /\ (exists self'',
          ECCCLoader.parse_dates rt dt self' = ECCCLoader.Returns df' self'').
Proof.
  intros Hraw Hs parsed df' null_count.
  destruct (parse_dates_loaded rt dt self df s Hraw Hs)
    as (self' & Hp & Hraw' & _ & _ & Hout).
  assert (Hlook : lookup_column "sample_datetime" (columns df') = Some parsed)
    by apply lookup_set_column_eq.
  assert (Hinv : invalid_dates rt parsed = 0).
  { rewrite invalid_dates_failed. unfold parsed.
    now rewrite parsed_nothing_failed. }
  exists self'. split; [exact Hp|]. split; [exact Hraw'|].
  split; [exact Hlook|]. split; [apply parsed_null_count|].
  split; [rewrite Hout, parsed_null_count; reflexivity|].
  split; [exact Hinv|]. split.
  - intros now r n Hr Hin.
    pose proof (invalid_dates_message_numeric n) as Hnum.
    destruct (empty df') eqn:He.
    + unfold validate_data_quality in Hr. rewrite He in Hr.
      injection Hr as <-. destruct Hin as [Hm|[]].
      apply (numeric_head_C _ Hnum). now rewrite <- Hm.
    + destruct (validate_data_quality_trace _ _ _ _ _ He Hr) as [HE _].
      rewrite (date_series_present RAW df' parsed Hlook) in HE.
      cbn [from_option] in HE.
      rewrite HE, in_app_iff, in_null_errors, in_date_errors in Hin.
      destruct Hin as [(c & k & p & _ & _ & _ & Hm)
                      |[[Hpos _]|(t & rest & _ & _ & Hm)]].
      * apply (numeric_head_C _ Hnum). now rewrite Hm.
      * fold parsed in Hpos. lia.
      * apply (numeric_head_D _ Hnum). now rewrite Hm.
  - destruct (parse_dates_loaded rt dt self' df' parsed Hraw' Hlook)
      as (self'' & Hp' & _).
    exists self''. rewrite Hp'. unfold df', parsed.
    now rewrite with_parsed_dates_twice.
Qed.

Lemma parse_dates_absorbs_failures_witness :
  exists self',
    ECCCLoader.parse_dates Demo.rt "datetime64[ns]"
      (ECCCLoader.set_raw_df Demo.pair (ECCCLoader.new Demo.rt "sample.csv")) =
    ECCCLoader.Returns
      (ECCCLoader.with_parsed_dates Demo.rt "datetime64[ns]" Demo.pair
         {| dtype := "object"; values := [Str "2024"; Str "2024"] |}) self'
    /\ ECCCLoader.stdout self' = [].
Proof.
  destruct (parse_dates_absorbs_failures Demo.rt "datetime64[ns]"
              (ECCCLoader.set_raw_df Demo.pair (ECCCLoader.new Demo.rt "sample.csv"))
              Demo.pair
              {| dtype := "object"; values := [Str "2024"; Str "2024"] |}
              eq_refl eq_refl) as (self' & Hp & _ & _ & _ & Hout & _).
  exists self'. split; [exact Hp | exact Hout].
Defined.

(** Ten dates, one missing and one a text that is no date: after
    [parse_dates] both are null and the warning counts two; the quality
    pass, which recorded one invalid date as an error before, records no
    error afterwards, only the share of nulls as a warning. *)
Example parse_dates_messy :
  let raw :=
    {| nrows := 10;
       columns := [Demo.col "sample_datetime" "object"
                     [Str "2024"; Str "2024"; Str "2024"; Str "2024";
                      Str "2024"; Str "2024"; Str "2024"; Str "2024";
                      NA; Str "soon"]] |} in
  exists self' df' q q',
    ECCCLoader.parse_dates Demo.rt "datetime64[ns]"
      (ECCCLoader.set_raw_df raw (ECCCLoader.new Demo.rt "sample.csv")) =
    ECCCLoader.Returns df' self'
    /\ ECCCLoader.stdout self' =
       ["Warning: 2 datetime values could not be parsed"]
    /\ validate_data_quality Demo.rt RAW Demo.now raw = Ok q
    /\ errors q = ["1 datetime values could not be parsed"]
    /\ validate_data_quality Demo.rt RAW Demo.now df' = Ok q'
    /\ errors q' = []
    /\ warnings q' = ["Column 'sample_datetime' has 2 null values (20.x%)"].
Proof.
  cbn zeta. do 4 eexists.
  split; [vm_compute; reflexivity|]. split; [reflexivity|].
  split; [vm_compute; reflexivity|]. split; [reflexivity|].
  split; [vm_compute; reflexivity|]. split; reflexivity.
Qed.

(** ** The loader's protocol *)

(** Before a table is loaded every step of the loader raises
    [RuntimeError] and changes nothing.  [load] stores the table it read
    before it checks that the table is not empty: after [load] has raised
    on an empty CSV the loader holds the empty table, and its
    [validate_schema] then returns the invalid result of the schema pass
    instead of raising; a file that is absent or unreadable leaves the
    loader as it was. *)
Theorem loader_needs_load rt dt self fs :
  ECCCLoader.raw_df self = None ->
  ECCCLoader.validate_schema rt self =
    ECCCLoader.Raises
      (ECCCLoader.RuntimeError "Must call load() before validate_schema()") self
  /\ ECCCLoader.parse_dates rt dt self =
    ECCCLoader.Raises
      (ECCCLoader.RuntimeError "Must call load() before parse_dates()") self
  /\ ECCCLoader.normalize_columns self =
    ECCCLoader.Raises
      (ECCCLoader.RuntimeError "Must call load() before normalize_columns()")
      self
  /\ match fs with
     | ECCCLoader.Csv df =>
         let loaded := ECCCLoader.set_raw_df df self in
         ECCCLoader.load fs self =
           (if empty df
            then ECCCLoader.Raises (ECCCLoader.ValueError "CSV file is empty")
                   loaded
            else ECCCLoader.Returns df loaded)
         /\ ECCCLoader.validate_schema rt loaded =
            ECCCLoader.Returns (validate_schema rt RAW df)
              (ECCCLoader.set_validation_result (validate_schema rt RAW df)
                 loaded)
         /\ (empty df = true ->
             errors (validate_schema rt RAW df) =
               ["DataFrame is empty (0 rows)"])
     | _ => exists e, ECCCLoader.load fs self = ECCCLoader.Raises e self
     end.
Proof.
  intros Hraw. unfold ECCCLoader.validate_schema at 1,
    ECCCLoader.parse_dates, ECCCLoader.normalize_columns.
  rewrite Hraw. split; [reflexivity|]. split; [reflexivity|].
  split; [reflexivity|].
  destruct fs as [|why|df]; cbn zeta.
  - eexists. reflexivity.
  - eexists. reflexivity.
  - split; [|split].
    + unfold ECCCLoader.load. destruct (empty df); reflexivity.
    + reflexivity.
    + intros He. unfold validate_schema. now rewrite He.
Qed.

Lemma loader_needs_load_witness :
  ECCCLoader.validate_schema Demo.rt (ECCCLoader.new Demo.rt "sample.csv") =
    ECCCLoader.Raises
      (ECCCLoader.RuntimeError "Must call load() before validate_schema()")
      (ECCCLoader.new Demo.rt "sample.csv")
  /\ ECCCLoader.load (ECCCLoader.Csv Demo.no_rows)
       (ECCCLoader.new Demo.rt "sample.csv") =
     ECCCLoader.Raises (ECCCLoader.ValueError "CSV file is empty")
       (ECCCLoader.set_raw_df Demo.no_rows (ECCCLoader.new Demo.rt "sample.csv")).
Proof.
  destruct (loader_needs_load Demo.rt "datetime64[ns]"
              (ECCCLoader.new Demo.rt "sample.csv") (ECCCLoader.Csv Demo.no_rows)
              eq_refl) as (H1 & _ & _ & H2 & _).
  split; [exact H1 | exact H2].
Defined.

(** ** Validity under the business rules *)

Lemma unique_from_nil seen l : unique_from seen l = [] -> Forall (fun c => cell_mem c seen = true) l.
Proof.
  revert seen. induction l as [|c l IH]; intros seen; simpl; [constructor|].
  destruct (cell_mem c seen) eqn:Hc; [|discriminate].
  intros H. constructor; [assumption | now apply IH].
Qed.

Lemma nunique_zero l : nunique l = 0%nat <-> Forall (fun c => c = NA) l.
Proof.
  unfold nunique, unique. rewrite length_zero_iff_nil. split.
  - intros H. apply unique_from_nil in H.
    assert (Hd : dropna l = []).
    { destruct (dropna l) as [|c nn]; [reflexivity|].
      inversion H as [|? ? Hc _]. discriminate Hc. }
    clear H. unfold dropna in Hd. induction l as [|c l IH]; [constructor|].
    rewrite filter_cons in Hd. destruct (decide (notna c = true)) as [Hn|Hn];
      [discriminate Hd|].
    constructor; [|now apply IH]. destruct c; try reflexivity;
      exfalso; apply Hn; reflexivity.
  - intros H. assert (Hd : dropna l = []).
    { unfold dropna. induction H as [|c l -> Hl IH]; [reflexivity|].
      rewrite filter_cons. simpl. exact IH. }
    now rewrite Hd.
Qed.

Lemma cardinality_errors_all_null col message df :
  cardinality_errors col message df <> [] <-> all_null col df.
Proof.
  unfold cardinality_errors, all_null.
  destruct (lookup_column col (columns df)) as [s|].
  - destruct (Nat.eqb_spec (nunique (values s)) 0) as [Hz|Hz].
    + split; [|discriminate]. intros _. exists s. split; [reflexivity|].
      now apply nunique_zero.
    + split; [intros H; now destruct H|]. intros (s' & [= <-] & Hall).
      now apply nunique_zero in Hall.
  - split; [intros H; now destruct H|]. intros (s & Hs & _). discriminate Hs.
Qed.

Lemma check_duplicates_errors schema_type df r :
  errors (check_duplicates schema_type df r) = errors r.
Proof. unfold check_duplicates. branches; reflexivity. Qed.

Lemma check_codes_errors rt col heading valid df r :
  errors (check_codes rt col heading valid df r) = errors r.
Proof. unfold check_codes. branches; reflexivity. Qed.

Lemma check_stations_errors schema_type df r r' :
  check_stations schema_type df r = Ok r' ->
  errors r' =
  errors r ++ cardinality_errors (station_col schema_type)
                "No unique stations found" df.
Proof.
  unfold check_stations, cardinality_errors. intros H.
  destruct (has_column (station_col schema_type) df) eqn:Hc.
  - destruct (lookup_column _ _) as [s|]; returned H;
      try destruct (nunique (values s) =? 0)%nat; cbn;
      rewrite ?app_nil_r; reflexivity.
  - rewrite (lookup_column_None _ _ Hc). injection H as <-.
    now rewrite app_nil_r.
Qed.

Lemma check_parameters_errors schema_type df r r' :
  check_parameters schema_type df r = Ok r' ->
  errors r' =
  errors r ++ cardinality_errors (param_col schema_type)
                "No unique parameters found" df.
Proof.
  unfold check_parameters, cardinality_errors. intros H.
  destruct (has_column (param_col schema_type) df) eqn:Hc.
  - destruct (lookup_column _ _) as [s|]; returned H;
      try destruct (nunique (values s) =? 0)%nat; cbn;
      rewrite ?app_nil_r; reflexivity.
  - rewrite (lookup_column_None _ _ Hc). injection H as <-.
    now rewrite app_nil_r.
Qed.

(** The business pass records an error for a present station column
    without any non-null cell and for a present parameter column without
    any, in that order, and for nothing else; so its result is invalid
    exactly when the table is not empty and one of the two columns is
    present and entirely null.  Duplicates, long station ids and unknown
    codes never make it invalid. *)
Theorem business_validity rt schema_type df r :
  validate_business_rules rt schema_type df = Ok r ->
  errors r =
    (if empty df then []
     else cardinality_errors (station_col schema_type)
            "No unique stations found" df
          ++ cardinality_errors (param_col schema_type)
               "No unique parameters found" df)
  /\ (is_valid r = false <->
      empty df = false
      /\ (all_null (station_col schema_type) df
          \/ all_null (param_col schema_type) df)).
Proof.
  intros Hr.
  pose proof (validate_business_rules_consistent _ _ _ _ Hr) as Hc.
  assert (He : errors r =
    (if empty df then []
     else cardinality_errors (station_col schema_type)
            "No unique stations found" df
          ++ cardinality_errors (param_col schema_type)
               "No unique parameters found" df)).
  { unfold validate_business_rules in Hr. destruct (empty df).
    - now injection Hr as <-.
    - returned Hr. rewrite !check_codes_errors.
      apply check_parameters_errors in E0. apply check_stations_errors in E.
      rewrite check_duplicates_errors in E. simpl in E.
      now rewrite E0, E. }
  split; [exact He|].
  assert (Hv : is_valid r = false <-> errors r <> []).
  { unfold consistent in Hc. destruct (is_valid r).
    - split; [discriminate|]. intros H. exfalso. apply H. now apply Hc.
    - split; [|reflexivity]. intros _ H. apply Hc in H. discriminate H. }
  rewrite Hv, He. destruct (empty df).
  - split; [intros H; now destruct H | intros [H _]; discriminate H].
  - rewrite <- (cardinality_errors_all_null (station_col schema_type)
                  "No unique stations found"),
            <- (cardinality_errors_all_null (param_col schema_type)
                  "No unique parameters found").
    split.
    + intros H. split; [reflexivity|].
      destruct (cardinality_errors (station_col schema_type) _ df);
        [right; exact H | left; intros Hnil; discriminate Hnil].
    + intros [_ [H|H]] Happ; apply app_eq_nil in Happ as [H1 H2]; auto.
Qed.

Lemma business_validity_witness :
  exists r,
    validate_business_rules Demo.rt NORMALIZED Demo.messy = Ok r
    /\ errors r = [] /\ is_valid r = true.
Proof.
  destruct (validate_business_rules Demo.rt NORMALIZED Demo.messy)
    as [r|] eqn:Hr; [|vm_compute in Hr; discriminate Hr].
  destruct (business_validity Demo.rt NORMALIZED Demo.messy r Hr) as [He _].
  exists r. split; [reflexivity|]. split; [exact He|].
  vm_compute in Hr. now injection Hr as <-.
Defined.

(** ** The findings of the value check *)

Lemma Qle_bool_false x y : Qle_bool x y = false -> Qle y x.
Proof.
  intros H. apply Qlt_le_weak, Qnot_le_lt. intros Hle.
  apply Qle_bool_iff in Hle. congruence.
Qed.

Lemma scan_min_least x l :
  Forall (fun c => is_num c = true) l ->
  exists lo, scan_min (Num x) l = Ok (Num lo) /\ least lo (Num x :: l).
Proof.
  intros H. revert x. induction H as [|c l Hc Hl IH]; intros x.
  - exists x. split; [reflexivity|]. split; [now left|].
    intros y [[= ->]|[]]. apply Qle_refl.
  - destruct c as [|y|y|y]; try discriminate Hc. cbn [scan_min cell_ltb bind].
    destruct (Qle_bool x y) eqn:Hxy; cbn [negb].
    + destruct (IH x) as (lo & Hs & Hin & Hle). exists lo.
      split; [exact Hs|]. split.
      * destruct Hin as [Hin|Hin]; [now left | now right; right].
      * intros z [Hz|[[= ->]|Hz]].
        -- apply Hle. now left.
        -- apply Qle_trans with x; [apply Hle; now left|].
           now apply Qle_bool_iff.
        -- apply Hle. now right.
    + destruct (IH y) as (lo & Hs & Hin & Hle). exists lo.
      split; [exact Hs|]. split; [now right|].
      intros z [[= ->]|Hz]; [|now apply Hle].
      apply Qle_trans with y; [apply Hle; now left|].
      now apply Qle_bool_false.
Qed.

Lemma scan_max_greatest x l :
  Forall (fun c => is_num c = true) l ->
  exists hi, scan_max (Num x) l = Ok (Num hi) /\ greatest hi (Num x :: l).
Proof.
  intros H. revert x. induction H as [|c l Hc Hl IH]; intros x.
  - exists x. split; [reflexivity|]. split; [now left|].
    intros y [[= ->]|[]]. apply Qle_refl.
  - destruct c as [|y|y|y]; try discriminate Hc. cbn [scan_max cell_ltb bind].
    destruct (Qle_bool y x) eqn:Hxy; cbn [negb].
    + destruct (IH x) as (hi & Hs & Hin & Hle). exists hi.
      split; [exact Hs|]. split.
      * destruct Hin as [Hin|Hin]; [now left | now right; right].
      * intros z [Hz|[[= ->]|Hz]].
        -- apply Hle. now left.
        -- apply Qle_trans with x; [now apply Qle_bool_iff|].
           apply Hle. now left.
        -- apply Hle. now right.
    + destruct (IH y) as (hi & Hs & Hin & Hle). exists hi.
      split; [exact Hs|]. split; [now right|].
      intros z [[= ->]|Hz]; [|now apply Hle].
      apply Qle_trans with y; [now apply Qle_bool_false|].
      apply Hle. now left.
Qed.

Lemma count_where_filter (p : cell -> exn bool) (q : cell -> bool) l :
  (forall x, p (Num x) = Ok (q (Num x))) ->
  Forall (fun c => is_num c = true) l ->
  count_where p l = Ok (length (filter (fun c => q c = true) l)).
Proof.
  intros Hp H. induction H as [|c l Hc Hl IH]; [reflexivity|].
  destruct c as [|y|y|y]; try discriminate Hc.
  cbn [count_where]. rewrite Hp, IH. cbn [bind]. rewrite filter_cons.
  destruct (q (Num y)); simpl; reflexivity.
Qed.

Lemma filter_length_zero (q : cell -> bool) l :
  (forall c, In c l -> q c = false) ->
  length (filter (fun c => q c = true) l) = 0%nat.
Proof.
  induction l as [|c l IH]; intros H; [reflexivity|].
  rewrite filter_cons. rewrite (H c (or_introl eq_refl)). simpl.
  apply IH. intros d Hd. apply H. now right.
Qed.

Lemma filter_length_pos (q : cell -> bool) l c :
  In c l -> q c = true -> (0 < length (filter (fun c => q c = true) l))%nat.
Proof.
  intros Hin Hq.
  assert (Hf : c ∈ filter (fun c => q c = true) l).
  { apply list_elem_of_filter. split; [exact Hq|]. now apply list_elem_of_In. }
  destruct (filter _ l); [inversion Hf | simpl; lia].
Qed.

(** The guard on the least value decides whether some value is under the
    bound. *)
Lemma below_guard lo l :
  least lo l ->
  negb (Qle_bool DataConstraints.MIN_VALUE lo)
  = (0 <? length (filter (fun c => below_min c = true) l))%nat.
Proof.
  intros [Hin Hle]. destruct (Qle_bool _ lo) eqn:Hlo; cbn [negb]; symmetry.
  - rewrite filter_length_zero; [reflexivity|].
    intros [|y|y|y] Hc; try reflexivity. cbn [below_min].
    apply negb_false_iff, Qle_bool_iff.
    apply Qle_trans with lo; [now apply Qle_bool_iff | now apply Hle].
  - apply Nat.ltb_lt. apply (filter_length_pos below_min l (Num lo) Hin).
    cbn [below_min]. now rewrite Hlo.
Qed.

Lemma above_guard hi l :
  greatest hi l ->
  negb (Qle_bool hi DataConstraints.MAX_VALUE)
  = (0 <? length (filter (fun c => above_max c = true) l))%nat.
Proof.
  intros [Hin Hle]. destruct (Qle_bool hi _) eqn:Hhi; cbn [negb]; symmetry.
  - rewrite filter_length_zero; [reflexivity|].
    intros [|y|y|y] Hc; try reflexivity. cbn [above_max].
    apply negb_false_iff, Qle_bool_iff.
    apply Qle_trans with hi; [now apply Hle | now apply Qle_bool_iff].
  - apply Nat.ltb_lt. apply (filter_length_pos above_max l (Num hi) Hin).
    cbn [above_max]. now rewrite Hhi.
Qed.

(** The value check on a numeric column. *)
Lemma check_value_range_numeric df s r :
  lookup_column "value" (columns df) = Some s ->
  Forall (fun c => is_num c = true \/ c = NA) (values s) ->
  exists r',
    check_value_range df r = Ok r'
    /\ warnings r' = warnings r ++ value_warnings (dropna (values s))
    /\ match dropna (values s) with
       | [] => info r' = info r
       | _ =>
           exists lo hi,
             info r' =
               <["value_range" :=
                   IDict [("min", ICell (Num lo)); ("max", ICell (Num hi))]]>
                 (info r)
             /\ least lo (dropna (values s))
             /\ greatest hi (dropna (values s))
       end.
Proof.
  intros Hs Hnum. unfold check_value_range.
  rewrite (lookup_column_has _ _ _ Hs), Hs.
  pose proof (dropna_of _ _ Hnum) as Hall.
  destruct (dropna (values s)) as [|c rest] eqn:Hd.
  - exists r. split; [reflexivity|]. split; [|reflexivity].
    unfold value_warnings. simpl. now rewrite app_nil_r.
  - inversion Hall as [|? ? Hc Hrest]; subst.
    destruct c as [|x|x|x]; try discriminate Hc.
    destruct (scan_min_least x rest Hrest) as (lo & -> & Hlo).
    destruct (scan_max_greatest x rest Hrest) as (hi & -> & Hhi).
    cbn [bind]. unfold check_below, check_above. cbn [cell_ltb bind].
    rewrite (count_where_filter _ below_min (Num x :: rest)) by
      (assumption || reflexivity).
    rewrite (count_where_filter _ above_max (Num x :: rest)) by
      (assumption || reflexivity).
    rewrite (below_guard lo _ Hlo), (above_guard hi _ Hhi).
    unfold value_warnings.
    destruct (0 <? length (filter (fun c => below_min c = true) _))%nat,
      (0 <? length (filter (fun c => above_max c = true) _))%nat;
      cbn [bind]; eexists; (split; [reflexivity|]);
      (split; [simpl; rewrite <- ?app_assoc, ?app_nil_r; reflexivity|]);
      exists lo, hi; (split; [reflexivity|]); split; assumption.
Qed.

Lemma fold_check_nulls_info rt df cols st :
  info (fold_left (check_nulls_col rt df) cols st).1 = info st.1.
Proof.
  revert st. induction cols as [|c cols IH]; intros [r nc]; [reflexivity|].
  cbn [fold_left]. rewrite IH. unfold check_nulls_col.
  branches; reflexivity.
Qed.

Lemma check_nulls_info rt schema_type df r key :
  key <> "null_counts" ->
  info (check_nulls rt schema_type df r) !! key = info r !! key.
Proof.
  intros Hk. unfold check_nulls.
  pose proof (fold_check_nulls_info rt df (critical_cols schema_type) (r, []))
    as H.
  destruct (fold_left _ _ _) as [r' nc]. simpl in H.
  destruct nc; simpl; rewrite ?lookup_insert_ne by congruence; now rewrite H.
Qed.

Lemma check_dates_info rt schema_type now df r r' key :
  check_dates rt schema_type now df r = Ok r' ->
  key <> "date_range" ->
  info r' !! key = info r !! key.
Proof.
  unfold check_dates, check_date_range, check_invalid_dates.
  intros H Hk. returned H; branches; simpl;
    rewrite ?lookup_insert_ne by congruence; reflexivity.
Qed.

(** On a table that is not empty, whose [value] column holds numbers
    and missing cells only and whose dates are naive, the quality pass
    returns; when some value is present it records under [value_range] a
    least and a greatest value of the column, and otherwise no
    [value_range]; between the null and the date warnings it warns of
    the values under -1000 when there is one, giving their number, then
    of the values over 1e9 likewise, and of nothing else. *)
Theorem value_range_findings rt schema_type now df s :
  empty df = false ->
  lookup_column "value" (columns df) = Some s ->
  Forall (fun c => is_num c = true \/ c = NA) (values s) ->
  naive_dates rt schema_type df ->
  exists r,
    validate_data_quality rt schema_type now df = Ok r
    /\ warnings r =
         null_warnings rt df (critical_cols schema_type)
         ++ value_warnings (dropna (values s))
         ++ from_option (date_warnings rt now) [] (date_series schema_type df)
    /\ match dropna (values s) with
       | [] => info r !! "value_range" = None
       | _ =>
           exists lo hi,
             info r !! "value_range" =
               Some (IDict [("min", ICell (Num lo)); ("max", ICell (Num hi))])
             /\ least lo (dropna (values s))
             /\ greatest hi (dropna (values s))
       end.
Proof.
  intros He Hs Hnum Hnaive. unfold validate_data_quality. rewrite He.
  destruct (check_value_range_numeric df s
              (check_nulls rt schema_type df new_result) Hs Hnum)
    as (r1 & -> & Hw & Hi).
  cbn [bind].
  destruct (check_dates_returns rt schema_type now df r1 Hnaive) as [r Hr].
  exists r. split; [exact Hr|]. split.
  - destruct (check_nulls_trace rt schema_type df new_result) as [_ Hnw].
    rewrite Hnw in Hw. simpl in Hw.
    pose proof (check_dates_trace rt schema_type now df r1 r Hr) as Hd.
    simpl in Hd. destruct (date_series schema_type df) as [d|]; simpl.
    + destruct Hd as [_ ->]. rewrite Hw. now rewrite <- app_assoc.
    + rewrite Hd, Hw, app_nil_r. reflexivity.
  - rewrite (check_dates_info _ _ _ _ _ _ _ Hr) by discriminate.
    destruct (dropna (values s)) as [|c rest].
    + rewrite Hi, check_nulls_info by discriminate. reflexivity.
    + destruct Hi as (lo & hi & -> & Hlo & Hhi). exists lo, hi.
      split; [apply lookup_insert_eq|]. split; assumption.
Qed.

Lemma value_range_findings_witness :
  exists r,
    validate_data_quality Demo.rt NORMALIZED Demo.now Demo.good = Ok r
    /\ exists lo hi,
         info r !! "value_range" =
           Some (IDict [("min", ICell (Num lo)); ("max", ICell (Num hi))]).
Proof.
  destruct (lookup_column "value" (columns Demo.good)) as [s|] eqn:Hs;
    [|vm_compute in Hs; discriminate Hs].
  assert (Hnum : Forall (fun c => is_num c = true \/ c = NA) (values s)).
  { vm_compute in Hs. injection Hs as <-. simpl.
    repeat (constructor; [first [left; reflexivity | right; reflexivity]|]).
    constructor. }
  assert (Hnaive : naive_dates Demo.rt NORMALIZED Demo.good).
  { intros d Hd. vm_compute in Hd. injection Hd as <-. reflexivity. }
  destruct (value_range_findings Demo.rt NORMALIZED Demo.now Demo.good s
              eq_refl Hs Hnum Hnaive) as (r & Hr & _ & Hi).
  exists r. split; [exact Hr|].
  assert (Hd : dropna (values s) <> []).
  { vm_compute in Hs. injection Hs as <-. discriminate. }
  destruct (dropna (values s)) as [|c rest]; [now destruct Hd|].
  destruct Hi as (lo & hi & Hi & _). now exists lo, hi.
Defined.

(** ** The warnings of the schema pass *)

Lemma fold_warnings_trace (f : string -> string) (l : list string) r :
  warnings (fold_left (fun r issue => add_warning (f issue) r) l r)
  = warnings r ++ map f l.
Proof.
  revert r. induction l as [|x l IH]; intros r; simpl.
  - now rewrite app_nil_r.
  - rewrite IH. simpl. now rewrite <- app_assoc.
Qed.

Lemma check_missing_warnings schema_type df r :
  warnings (check_missing schema_type df r) = warnings r.
Proof. unfold check_missing. branches; reflexivity. Qed.

Lemma dict_get_keys key d :
  In key (map fst d) -> exists value, dict_get key d = Some value.
Proof.
  induction d as [|[k v] d IH]; simpl; [intros []|].
  case_bool_decide as Hk; [eauto|]. intros [H|H]; [congruence | auto].
Qed.

Lemma flat_map_nil {A B} (f : A -> list B) l :
  flat_map f l = [] <-> forall x, In x l -> f x = [].
Proof.
  induction l as [|a l IH]; simpl.
  - split; [intros _ x [] | reflexivity].
  - split.
    + intros H. apply app_eq_nil in H as [Ha Hl].
      intros x [<-|Hx]; [assumption | now apply IH].
    + intros H. rewrite (H a (or_introl eq_refl)). apply IH.
      intros x Hx. apply H. now right.
Qed.

Lemma unexpected_none schema_type df :
  unexpected_cols schema_type df = ∅ <->
  forall col, In col (column_labels df) ->
    In col (map fst (expected_dtypes schema_type)).
Proof.
  unfold unexpected_cols. rewrite elem_of_equiv_empty_L. split.
  - intros H col Hc.
    destruct (decide (col ∈ map fst (expected_dtypes schema_type)))
      as [Hin|Hout]; [now apply list_elem_of_In|].
    exfalso. apply (H col). rewrite elem_of_difference, !elem_of_list_to_set.
    split; [now apply list_elem_of_In | assumption].
  - intros H col. rewrite elem_of_difference, !elem_of_list_to_set.
    rewrite !list_elem_of_In. intros [Hc Hn]. apply Hn, H, Hc.
Qed.

(** The schema pass warns of the columns the variant does not declare, in
    one message, then of the declared columns whose dtype is not
    compatible with the declared one, under a heading and with one line
    each in table order, and of nothing else; so on a table that is not
    empty it has no warning exactly when every column is declared and
    compatible. *)
Theorem schema_warnings rt schema_type df :
  let r := validate_schema rt schema_type df in
  warnings r =
    (if empty df then []
     else unexpected_warnings rt schema_type df ++ dtype_warnings schema_type df)
  /\ (empty df = false -> (warnings r = [] <-> conforms schema_type df)).
Proof.
  intros r.
  assert (Hw : warnings r =
    (if empty df then []
     else unexpected_warnings rt schema_type df
          ++ dtype_warnings schema_type df)).
  { unfold r, validate_schema. destruct (empty df); [reflexivity|].
    unfold check_dtypes, dtype_warnings.
    assert (Hu : forall r0,
      warnings (check_unexpected rt schema_type df r0)
      = warnings r0 ++ unexpected_warnings rt schema_type df).
    { intros r0. unfold check_unexpected, unexpected_warnings.
      case_bool_decide; simpl; now rewrite ?app_nil_r. }
    destruct (dtype_issues schema_type df) as [|i issues].
    - rewrite Hu, check_missing_warnings. simpl. now rewrite app_nil_r.
    - rewrite fold_warnings_trace. simpl. rewrite Hu, check_missing_warnings.
      simpl. rewrite <- app_assoc. reflexivity. }
  split; [exact Hw|]. intros He. rewrite Hw, He. split.
  - intros H. apply app_eq_nil in H as [Hu Hd].
    assert (Hnone : unexpected_cols schema_type df = ∅).
    { unfold unexpected_warnings in Hu. case_bool_decide; [assumption|].
      discriminate Hu. }
    assert (Hiss : dtype_issues schema_type df = []).
    { unfold dtype_warnings in Hd.
      destruct (dtype_issues schema_type df); [reflexivity | discriminate Hd]. }
    intros col Hc.
    destruct (dict_get_keys col _ (proj1 (unexpected_none _ _) Hnone col Hc))
      as [expected Hex].
    destruct (has_column_lookup col df) as [s Hs].
    { unfold has_column, Str.mem. apply bool_decide_eq_true.
      now apply list_elem_of_In. }
    exists expected, s. split; [assumption|]. split; [assumption|].
    pose proof (proj1 (flat_map_nil _ _) Hiss col Hc) as Hcol.
    cbv beta in Hcol. rewrite Hex, Hs in Hcol. cbv zeta in Hcol.
    destruct (_dtypes_compatible (dtype s) expected);
      [reflexivity | discriminate Hcol].
  - intros Hconf.
    assert (Hnone : unexpected_cols schema_type df = ∅).
    { apply unexpected_none. intros col Hc.
      destruct (Hconf col Hc) as (expected & _ & Hex & _).
      apply dict_get_In in Hex. apply in_map_iff. now exists (col, expected). }
    assert (Hiss : dtype_issues schema_type df = []).
    { apply flat_map_nil. intros col Hc.
      destruct (Hconf col Hc) as (expected & s & Hex & Hs & Hcomp).
      cbv beta. rewrite Hex, Hs. cbv zeta. now rewrite Hcomp. }
    unfold unexpected_warnings, dtype_warnings.
    rewrite Hiss, bool_decide_eq_true_2 by assumption. reflexivity.
Qed.

Lemma schema_warnings_witness :
  warnings (validate_schema Demo.rt NORMALIZED Demo.good) = []
  <-> conforms NORMALIZED Demo.good.
Proof.
  apply (proj2 (schema_warnings Demo.rt NORMALIZED Demo.good)). reflexivity.
Defined.

(** ** The warnings of the business pass *)

Lemma check_duplicates_warnings schema_type df r :
  warnings (check_duplicates schema_type df r)
  = warnings r ++ duplicate_warnings schema_type df.
Proof.
  unfold check_duplicates, duplicate_warnings.
  branches; simpl; now rewrite ?app_nil_r.
Qed.

Lemma str_accessor_same l a : str_accessor l = Ok a -> a = l.
Proof.
  unfold str_accessor. intros H. returned H; reflexivity.
Qed.

Lemma check_stations_warnings schema_type df r r' :
  check_stations schema_type df r = Ok r' ->
  warnings r' = warnings r ++ station_warnings schema_type df.
Proof.
  unfold check_stations, station_warnings, station_message. intros H.
  destruct (has_column (station_col schema_type) df) eqn:Hc.
  - destruct (lookup_column _ _) as [s|]; [|injection H as <-; now rewrite app_nil_r].
    destruct (bool_decide (dtype s = "object")).
    + destruct (str_accessor (values s)) as [a|] eqn:Ha; [|discriminate H].
      apply str_accessor_same in Ha. subst a. cbn [bind] in H.
      destruct (str_len_max (values s)) as [n|];
        [destruct (_ <? n)%nat|]; injection H as <-;
        destruct (nunique (values s) =? 0)%nat; simpl;
        now rewrite ?app_nil_r.
    + injection H as <-. destruct (nunique (values s) =? 0)%nat; simpl;
        now rewrite ?app_nil_r.
  - rewrite (lookup_column_None _ _ Hc). injection H as <-.
    now rewrite app_nil_r.
Qed.

Lemma check_parameters_warnings schema_type df r r' :
  check_parameters schema_type df r = Ok r' -> warnings r' = warnings r.
Proof.
  unfold check_parameters. intros H. returned H;
    try destruct (nunique (values s) =? 0)%nat; reflexivity.
Qed.

Lemma check_codes_warnings rt col heading valid df r :
  warnings (check_codes rt col heading valid df r)
  = warnings r ++ code_warnings rt col heading valid df.
Proof.
  unfold check_codes, code_warnings, unknown_codes.
  destruct (has_column col df) eqn:Hc.
  - destruct (lookup_column col (columns df)) as [s|];
      [|now rewrite app_nil_r].
    destruct (filter _ _); simpl; now rewrite ?app_nil_r.
  - rewrite (lookup_column_None _ _ Hc). now rewrite app_nil_r.
Qed.

(** The warnings of the business pass, check by check. *)
Lemma validate_business_rules_warnings rt schema_type df r :
  validate_business_rules rt schema_type df = Ok r ->
  warnings r =
    if empty df then []
    else duplicate_warnings schema_type df
         ++ station_warnings schema_type df
         ++ code_warnings rt (qual_col schema_type)
              "Unknown qualifier codes found: "
              DataConstraints.VALID_QUALIFIERS df
         ++ code_warnings rt "qa_status" "Unknown QA status codes found: "
              DataConstraints.VALID_QA_STATUS df.
Proof.
  unfold validate_business_rules. intros H. destruct (empty df).
  - now injection H as <-.
  - returned H. rewrite !check_codes_warnings.
    apply check_parameters_warnings in E0.
    apply check_stations_warnings in E.
    rewrite check_duplicates_warnings in E. simpl in E.
    rewrite E0, E, <- !app_assoc. reflexivity.
Qed.

(** ** Unknown codes *)

Lemma Forall_In {A} (P : A -> Prop) l x : Forall P l -> In x l -> P x.
Proof.
  intros H. induction H as [|y l Hy Hl IH]; intros Hx;
    [destruct Hx | destruct Hx as [<-|Hx]; auto].
Qed.

Lemma cell_mem_text code seen :
  cell_mem (Str code) seen = true <-> In (Str code) seen.
Proof.
  unfold cell_mem. rewrite existsb_exists. split.
  - intros (d & Hd & He). destruct d; try discriminate He. simpl in He.
    apply bool_decide_eq_true in He. now subst.
  - intros H. exists (Str code). split; [assumption|]. simpl.
    now apply bool_decide_eq_true.
Qed.

Lemma unique_from_texts seen l :
  Forall (fun c => is_str c = true) l ->
  NoDup (unique_from seen l)
  /\ forall c, In c (unique_from seen l) <-> In c l /\ ~ In c seen.
Proof.
  intros H. revert seen. induction H as [|c l Hc Hl IH]; intros seen.
  - simpl. split; [constructor|]. tauto.
  - destruct c as [| |code|]; try discriminate Hc. cbn [unique_from].
    destruct (cell_mem (Str code) seen) eqn:Hm.
    + apply cell_mem_text in Hm. destruct (IH seen) as [Hnd Hin].
      split; [assumption|]. intros d. rewrite Hin. simpl. split; [tauto|].
      intros [[<-|Hd] Hn]; [contradiction | tauto].
    + assert (Hn : ~ In (Str code) seen).
      { intros Hi. apply cell_mem_text in Hi. congruence. }
      destruct (IH (Str code :: seen)) as [Hnd Hin]. split.
      * constructor; [|assumption]. rewrite list_elem_of_In, Hin. simpl. tauto.
      * intros d. simpl. rewrite Hin. simpl. split.
        -- intros [<-|[Hd Hnd']]; tauto.
        -- intros [[<-|Hd] Hns]; [now left|].
           pose proof (Forall_In _ _ _ Hl Hd) as Hs.
           destruct d as [| |code'|]; try discriminate Hs.
           destruct (decide (code = code')) as [->|Hne]; [now left|].
           right. split; [assumption|]. intros [[= ->]|Hi]; tauto.
Qed.

Lemma NoDup_map_texts rt l :
  Forall (fun c => is_str c = true) l ->
  NoDup l -> NoDup (map (str_cell rt) l).
Proof.
  intros H Hnd. induction H as [|c l Hc Hl IH]; [constructor|].
  inversion Hnd as [|? ? Hout Hnd']; subst. simpl. constructor; [|auto].
  rewrite list_elem_of_In, in_map_iff. intros (d & Hd & Hin).
  pose proof (Forall_In _ _ _ Hl Hin) as Hs.
  destruct c, d; try discriminate. simpl in Hd. subst.
  now apply list_elem_of_In in Hin.
Qed.

Lemma dropna_text code l : In (Str code) (dropna l) <-> In (Str code) l.
Proof.
  unfold dropna. rewrite <- !list_elem_of_In, list_elem_of_filter.
  simpl. tauto.
Qed.

(** The unknown codes of a text column: each once, and exactly the texts
    of the column outside the valid set. *)
Lemma unknown_codes_texts rt valid l :
  Forall (fun c => is_str c = true \/ c = NA) l ->
  let unknown := map (str_cell rt) (unknown_codes rt valid l) in
  NoDup unknown
  /\ forall code, In code unknown <-> In (Str code) l /\ ~ In code valid.
Proof.
  intros H unknown. apply (dropna_of is_str) in H.
  destruct (unique_from_texts [] _ H) as [Hnd Hin].
  pose proof (unique_from_Forall _ [] _ H) as Hu.
  fold (unique (dropna l)) in Hnd, Hin, Hu.
  assert (Hf : Forall (fun c => is_str c = true) (unknown_codes rt valid l)).
  { unfold unknown_codes. apply Forall_forall. intros c Hc.
    apply list_elem_of_filter in Hc as [_ Hc].
    apply list_elem_of_In in Hc. exact (Forall_In _ _ _ Hu Hc). }
  split.
  - apply NoDup_map_texts; [assumption|].
    unfold unknown_codes. now apply NoDup_filter.
  - intros code. unfold unknown, unknown_codes. rewrite in_map_iff. split.
    + intros (c & Hc & Hi). apply list_elem_of_In, list_elem_of_filter in Hi.
      destruct Hi as [Hv Hi]. apply list_elem_of_In, Hin in Hi as [Hi _].
      pose proof (Forall_In _ _ _ H Hi) as Hs.
      destruct c as [| |code'|]; try discriminate Hs. simpl in Hc. subst code'.
      split; [now apply dropna_text|].
      unfold Str.mem in Hv. apply bool_decide_eq_false in Hv.
      simpl in Hv. now rewrite list_elem_of_In in Hv.
    + intros [Hi Hv]. exists (Str code). split; [reflexivity|].
      apply list_elem_of_In, list_elem_of_filter. split.
      * unfold Str.mem. apply bool_decide_eq_false. simpl.
        now rewrite list_elem_of_In.
      * apply list_elem_of_In, Hin. split; [now apply dropna_text | tauto].
Qed.

Lemma append_inj_l (h a b : string) : h +:+ a = h +:+ b -> a = b.
Proof. induction h as [|c h IH]; simpl; [auto|]. intros [= H]. auto. Qed.

Lemma code_warnings_shape rt col heading valid df :
  code_warnings rt col heading valid df = []
  \/ exists m, code_warnings rt col heading valid df = [heading +:+ m].
Proof. unfold code_warnings. branches; eauto. Qed.

Lemma duplicate_warnings_numeric schema_type df :
  Forall numeric_head (duplicate_warnings schema_type df).
Proof.
  unfold duplicate_warnings. branches; repeat constructor.
  apply duplicate_message_numeric.
Qed.

Lemma station_warnings_head schema_type df m :
  In m (station_warnings schema_type df) -> head m = Some "S"%char.
Proof.
  unfold station_warnings. intros H.
  repeat match type of H with
    | In _ (match ?x with _ => _ end) => destruct x
    | In _ (if ?b then _ else _) => destruct b
    end; try destruct H as [<-|[]]; try destruct H; reflexivity.
Qed.

Lemma code_heading_head k m : head (code_heading k +:+ m) = Some "U"%char.
Proof. destruct k; reflexivity. Qed.

(** A code check of the business pass on a text column: the pass warns
    under the check's heading exactly when some present code is outside
    the valid set, in one message that lists the unknown codes, each
    once, comma-joined. *)
Theorem unknown_codes_warned rt schema_type df r k s :
  validate_business_rules rt schema_type df = Ok r ->
  empty df = false ->
  lookup_column (code_col schema_type k) (columns df) = Some s ->
  Forall (fun c => is_str c = true \/ c = NA) (values s) ->
  exists unknown,
    NoDup unknown
    /\ (forall code,
          In code unknown <->
          In (Str code) (values s) /\ ~ In code (code_valid k))
    /\ (forall m,
          In (code_heading k +:+ m) (warnings r) <->
          unknown <> [] /\ m = Str.join ", " unknown).
Proof.
  intros Hr He Hs Htext.
  exists (map (str_cell rt) (unknown_codes rt (code_valid k) (values s))).
  destruct (unknown_codes_texts rt (code_valid k) (values s) Htext)
    as [Hnd Hin].
  split; [exact Hnd|]. split; [exact Hin|].
  intros m. rewrite (validate_business_rules_warnings _ _ _ _ Hr), He.
  rewrite !in_app_iff.
  assert (HD : ~ In (code_heading k +:+ m)
                 (duplicate_warnings schema_type df)).
  { intros Hi.
    pose proof (Forall_In _ _ _ (duplicate_warnings_numeric _ _) Hi) as Hn.
    apply (numeric_head_not _ "U"%char Hn); [reflexivity|].
    apply code_heading_head. }
  assert (HS : ~ In (code_heading k +:+ m)
                 (station_warnings schema_type df)).
  { intros Hi. apply station_warnings_head in Hi.
    rewrite code_heading_head in Hi. discriminate Hi. }
  assert (Hown :
    In (code_heading k +:+ m)
      (code_warnings rt (code_col schema_type k) (code_heading k)
         (code_valid k) df)
    <-> map (str_cell rt) (unknown_codes rt (code_valid k) (values s)) <> []
        /\ m = Str.join ", "
                 (map (str_cell rt)
                    (unknown_codes rt (code_valid k) (values s)))).
  { unfold code_warnings. rewrite Hs.
    destruct (unknown_codes rt (code_valid k) (values s)) as [|c u].
    - simpl. split; [tauto|]. intros [H _]. now destruct H.
    - split.
      + intros [H|[]]. apply append_inj_l in H.
        split; [discriminate | now symmetry].
      + intros [_ ->]. now left. }
  destruct k; cbn [code_col code_heading code_valid] in *.
  - assert (Hother :
      ~ In ("Unknown qualifier codes found: " +:+ m)
          (code_warnings rt "qa_status" "Unknown QA status codes found: "
             DataConstraints.VALID_QA_STATUS df)).
    { destruct (code_warnings_shape rt "qa_status"
                  "Unknown QA status codes found: "
                  DataConstraints.VALID_QA_STATUS df) as [->|[x ->]];
        [intros []|]. intros [H|[]]. discriminate H. }
    tauto.
  - assert (Hother :
      ~ In ("Unknown QA status codes found: " +:+ m)
          (code_warnings rt (qual_col schema_type)
             "Unknown qualifier codes found: "
             DataConstraints.VALID_QUALIFIERS df)).
    { destruct (code_warnings_shape rt (qual_col schema_type)
                  "Unknown qualifier codes found: "
                  DataConstraints.VALID_QUALIFIERS df) as [->|[x ->]];
        [intros []|]. intros [H|[]]. discriminate H. }
    tauto.
Qed.

Lemma unknown_codes_warned_witness :
  exists r,
    validate_business_rules Demo.rt NORMALIZED Demo.messy = Ok r
    /\ In "Unknown qualifier codes found: Z" (warnings r).
Proof.
  destruct (validate_business_rules Demo.rt NORMALIZED Demo.messy)
    as [r|] eqn:Hr; [|vm_compute in Hr; discriminate Hr].
  destruct (lookup_column "qualifier" (columns Demo.messy)) as [s|] eqn:Hs;
    [|vm_compute in Hs; discriminate Hs].
  assert (Htext : Forall (fun c => is_str c = true \/ c = NA) (values s)).
  { vm_compute in Hs. injection Hs as <-. simpl.
    repeat (constructor; [first [left; reflexivity | right; reflexivity]|]).
    constructor. }
  destruct (unknown_codes_warned Demo.rt NORMALIZED Demo.messy r Qualifiers s
              Hr eq_refl Hs Htext) as (unknown & _ & _ & Hw).
  exists r. split; [reflexivity|].
  vm_compute in Hr. injection Hr as <-. simpl. tauto.
Defined.

(** ** Long station ids *)

Lemma str_len_max_from l best k :
  (exists n,
     fold_left (fun best c =>
                  match c, best with
                  | Str s, Some n => Some (Nat.max n (Str.len s))
                  | Str s, None => Some (Str.len s)
                  | _, _ => best
                  end) l best = Some n /\ (k < n)%nat)
  <-> (exists n, best = Some n /\ (k < n)%nat)
      \/ exists text, In (Str text) l /\ (k < Str.len text)%nat.
Proof.
  revert best. induction l as [|c l IH]; intros best.
  - simpl. split; [now left|]. intros [H|(t & [] & _)]. exact H.
  - cbn [fold_left]. rewrite IH. clear IH. split.
    + intros [(n & Hn & Hk)|(t & Ht & Hk)].
      * destruct c as [| |s|]; try (left; now exists n).
        destruct best as [b|]; injection Hn as <-.
        -- destruct (Nat.max_spec b (Str.len s)) as [[_ Hm]|[_ Hm]];
             rewrite Hm in Hk.
           ++ right. exists s. split; [now left | assumption].
           ++ left. now exists b.
        -- right. exists s. split; [now left | assumption].
      * right. exists t. split; [now right | assumption].
    + intros [(n & -> & Hk)|(t & [->|Ht] & Hk)].
      * left. destruct c as [| |s|]; try (now exists n).
        exists (Nat.max n (Str.len s)). split; [reflexivity | lia].
      * left. destruct best as [b|].
        -- exists (Nat.max b (Str.len t)). split; [reflexivity | lia].
        -- now exists (Str.len t).
      * right. now exists t.
Qed.

(** With a station column present, the business pass warns of station
    ids over the maximum length exactly when the column is of dtype
    [object] and holds a text of more than 50 characters. *)
Theorem station_length_warned rt schema_type df r s :
  validate_business_rules rt schema_type df = Ok r ->
  empty df = false ->
  lookup_column (station_col schema_type) (columns df) = Some s ->
  (exists m, In ("Station IDs exceed max length (" +:+ m) (warnings r))
  <-> dtype s = "object"
      /\ exists text,
           In (Str text) (values s)
           /\ (DataConstraints.MAX_STATION_ID_LENGTH < Str.len text)%nat.
Proof.
  intros Hr He Hs.
  rewrite (validate_business_rules_warnings _ _ _ _ Hr), He.
  pose proof (str_len_max_from (values s) None
                DataConstraints.MAX_STATION_ID_LENGTH) as Hmax.
  fold (str_len_max (values s)) in Hmax.
  assert (Hlen :
    (exists n, str_len_max (values s) = Some n
               /\ (DataConstraints.MAX_STATION_ID_LENGTH < n)%nat)
    <-> exists text,
          In (Str text) (values s)
          /\ (DataConstraints.MAX_STATION_ID_LENGTH < Str.len text)%nat).
  { rewrite Hmax. split; [|now right].
    intros [(n & Hn & _)|H]; [discriminate Hn | exact H]. }
  clear Hmax. rewrite <- Hlen. clear Hlen. split.
  - intros (m & Hin). rewrite !in_app_iff in Hin.
    destruct Hin as [Hi|[Hi|[Hi|Hi]]].
    + pose proof (Forall_In _ _ _ (duplicate_warnings_numeric _ _) Hi) as Hn.
      exfalso. apply (numeric_head_not _ "S"%char Hn); reflexivity.
    + unfold station_warnings in Hi. rewrite Hs in Hi.
      case_bool_decide as Hd; [|destruct Hi]. split; [assumption|].
      destruct (str_len_max (values s)) as [n|]; [|destruct Hi].
      destruct (_ <? n)%nat eqn:Hn; [|destruct Hi].
      exists n. split; [reflexivity | now apply Nat.ltb_lt].
    + destruct (code_warnings_shape rt (qual_col schema_type)
                  "Unknown qualifier codes found: "
                  DataConstraints.VALID_QUALIFIERS df) as [H|[x H]];
        rewrite H in Hi; [destruct Hi|]. destruct Hi as [Hi|[]].
      discriminate Hi.
    + destruct (code_warnings_shape rt "qa_status"
                  "Unknown QA status codes found: "
                  DataConstraints.VALID_QA_STATUS df) as [H|[x H]];
        rewrite H in Hi; [destruct Hi|]. destruct Hi as [Hi|[]].
      discriminate Hi.
  - intros (Hd & n & Hn & Hk). unfold station_warnings. rewrite Hs, Hn.
    rewrite bool_decide_eq_true_2 by assumption.
    apply Nat.ltb_lt in Hk. rewrite Hk. eexists. rewrite !in_app_iff.
    right. left. left. unfold station_message. reflexivity.
Qed.

Lemma station_length_warned_witness :
  exists r,
    validate_business_rules Demo.rt NORMALIZED Demo.good = Ok r
    /\ ~ exists m, In ("Station IDs exceed max length (" +:+ m) (warnings r).
Proof.
  destruct (validate_business_rules Demo.rt NORMALIZED Demo.good)
    as [r|] eqn:Hr; [|vm_compute in Hr; discriminate Hr].
  destruct (lookup_column "station_id" (columns Demo.good)) as [s|] eqn:Hs;
    [|vm_compute in Hs; discriminate Hs].
  exists r. split; [reflexivity|].
  rewrite (station_length_warned Demo.rt NORMALIZED Demo.good r s Hr eq_refl Hs).
  vm_compute in Hs. injection Hs as <-. simpl.
  intros (_ & text & [[= <-]|[[= <-]|[]]] & Hlen); vm_compute in Hlen; lia.
Defined.

(** Lengths are counted in characters: thirty letters of two bytes each
    stay under the maximum, and no warning is owed to them. *)
Example station_length_characters :
  let e_acute := String (ascii_of_nat 195) (String (ascii_of_nat 169) "") in
  let id := Str.join "" (repeat e_acute 30) in
  String.length id = 60%nat /\ Str.len id = 30%nat
  /\ str_len_max [Str id; NA; Str "S1"] = Some 30%nat.
Proof. vm_compute. repeat split; reflexivity. Qed.

(** ** The parameter list *)

Lemma dropna_cons c l :
  dropna (c :: l) = if notna c then c :: dropna l else dropna l.
Proof.
  unfold dropna. rewrite filter_cons.
  destruct (decide (notna c = true)) as [H|H]; destruct (notna c);
    congruence.
Qed.

Lemma cell_mem_dropna c seen :
  notna c = true -> cell_mem c (dropna seen) = cell_mem c seen.
Proof.
  intros Hc. induction seen as [|d seen IH]; [reflexivity|].
  rewrite dropna_cons. unfold cell_mem in *.
  destruct d; simpl; rewrite IH; try reflexivity.
  destruct c; try discriminate Hc; reflexivity.
Qed.

Lemma dropna_unique_from seen l :
  dropna (unique_from seen l) = unique_from (dropna seen) (dropna l).
Proof.
  revert seen. induction l as [|c l IH]; intros seen; [reflexivity|].
  cbn [unique_from]. rewrite (dropna_cons c l).
  destruct (notna c) eqn:Hc.
  - cbn [unique_from]. rewrite cell_mem_dropna by assumption.
    destruct (cell_mem c seen); [apply IH|].
    rewrite dropna_cons, Hc, IH, dropna_cons, Hc. reflexivity.
  - destruct (cell_mem c seen); [apply IH|].
    rewrite dropna_cons, Hc, IH, dropna_cons, Hc. reflexivity.
Qed.

Lemma ltb_trichotomy a b :
  String.ltb a b = false -> a <> b -> String.ltb b a = true.
Proof.
  unfold String.ltb. rewrite (String.compare_antisym b a).
  destruct (String.compare a b) eqn:Hc; simpl; try discriminate; auto.
  intros _ Hne. apply String.compare_eq_iff in Hc. contradiction.
Qed.

Lemma insert_sorted_spec x l :
  Forall (fun c => is_str c = true) l ->
  increasing l -> NoDup l -> ~ In (Str x) l ->
  exists out,
    insert_sorted (Str x) l = Ok out
    /\ Forall (fun c => is_str c = true) out
    /\ increasing out /\ NoDup out
    /\ (forall c, In c out <-> c = Str x \/ In c l)
    /\ length out = S (length l)
    /\ (forall d, below_head d l -> cell_lt d (Str x) -> below_head d out).
Proof.
  intros H. induction H as [|c l Hc Hl IH]; intros Hinc Hnd Hout.
  - exists [Str x]. split; [reflexivity|]. split; [now repeat constructor|].
    split; [simpl; tauto|]. split.
    { constructor; [|constructor]. rewrite list_elem_of_In. simpl. tauto. }
    split; [intros c; simpl; intuition congruence|].
    split; [reflexivity|]. intros d _ Hd. exact Hd.
  - destruct c as [| |y|]; try discriminate Hc.
    cbn [insert_sorted cell_ltb bind]. destruct Hinc as [Hhd Hinc].
    apply NoDup_cons in Hnd as [Hy Hnd]. rewrite list_elem_of_In in Hy.
    destruct (String.ltb y x) eqn:Hyx.
    + destruct IH as (out & -> & Hf & Hi & Hn & Hm & Hlen & Hb); try assumption.
      { intros Hi. apply Hout. now right. }
      cbn [bind]. eexists. split; [reflexivity|].
      split; [now constructor|]. split.
      { split; [|assumption]. apply Hb; [assumption|].
        unfold cell_lt. simpl. now rewrite Hyx. }
      split.
      { constructor; [|assumption]. rewrite list_elem_of_In, Hm.
        intros [[= ->]|Hi']; [apply Hout; now left | contradiction]. }
      split; [intros c; simpl; rewrite Hm; tauto|].
      split; [simpl; now rewrite Hlen|].
      intros d Hd _. exact Hd.
    + eexists. split; [reflexivity|].
      split; [now repeat constructor|]. split.
      { split; [|split; assumption]. unfold below_head, cell_lt. simpl.
        rewrite (ltb_trichotomy y x Hyx); [reflexivity|].
        intros ->. apply Hout. now left. }
      split.
      { constructor; [now rewrite list_elem_of_In|].
        constructor; [now rewrite list_elem_of_In | assumption]. }
      split; [intros c; simpl; intuition congruence|].
      split; [reflexivity|]. intros d _ Hd. exact Hd.
Qed.

Lemma sorted_spec l :
  Forall (fun c => is_str c = true) l -> NoDup l ->
  exists out,
    sorted l = Ok out
    /\ Forall (fun c => is_str c = true) out
    /\ increasing out /\ NoDup out
    /\ (forall c, In c out <-> In c l)
    /\ length out = length l.
Proof.
  intros H. induction H as [|c l Hc Hl IH]; intros Hnd.
  - exists []. repeat split; try constructor; tauto.
  - apply NoDup_cons in Hnd as [Hy Hnd]. rewrite list_elem_of_In in Hy.
    destruct (IH Hnd) as (out & Hs & Hf & Hi & Hn & Hm & Hlen).
    destruct c as [| |x|]; try discriminate Hc.
    destruct (insert_sorted_spec x out Hf Hi Hn)
      as (out' & Hs' & Hf' & Hi' & Hn' & Hm' & Hlen' & _).
    { now rewrite Hm. }
    exists out'. cbn [sorted]. rewrite Hs. cbn [bind].
    split; [exact Hs'|]. split; [assumption|]. split; [assumption|].
    split; [assumption|]. split.
    + intros c. rewrite Hm', Hm. simpl. intuition congruence.
    + simpl. now rewrite Hlen', Hlen.
Qed.

Lemma check_codes_info rt col heading valid df r :
  info (check_codes rt col heading valid df r) = info r.
Proof. unfold check_codes. branches; reflexivity. Qed.

Lemma dropna_In c l : In c (dropna l) <-> c <> NA /\ In c l.
Proof.
  unfold dropna. rewrite <- !list_elem_of_In, list_elem_of_filter. split.
  - intros [Hn Hi]. split; [intros ->; discriminate Hn | assumption].
  - intros [Hn Hi]. split; [|assumption].
    destruct c; [now destruct Hn | reflexivity..].
Qed.

(** With a parameter column of texts present, the business pass records
    under [parameters] the present parameter names, each once and in
    increasing order, and under [unique_parameters] how many they are. *)
Theorem parameters_listed rt schema_type df r s :
  validate_business_rules rt schema_type df = Ok r ->
  empty df = false ->
  lookup_column (param_col schema_type) (columns df) = Some s ->
  Forall (fun c => is_str c = true \/ c = NA) (values s) ->
  exists names,
    info r !! "parameters" = Some (IList (map ICell names))
    /\ increasing names /\ NoDup names
    /\ (forall c, In c names <-> c <> NA /\ In c (values s))
    /\ info r !! "unique_parameters"
       = Some (IInt (Z.of_nat (length names))).
Proof.
  intros Hr He Hs Htext. unfold validate_business_rules in Hr.
  rewrite He in Hr. returned Hr. rewrite !check_codes_info.
  clear E. unfold check_parameters in E0.
  rewrite (lookup_column_has _ _ _ Hs), Hs in E0.
  change (filter (fun p => notna p = true) (unique (values s)))
    with (dropna (unique_from [] (values s))) in E0.
  rewrite dropna_unique_from in E0.
  change (unique_from (dropna []) (dropna (values s)))
    with (unique (dropna (values s))) in E0.
  pose proof (dropna_of is_str _ Htext) as Hnn.
  destruct (unique_from_texts [] _ Hnn) as [Hnd Hin].
  pose proof (unique_from_Forall _ [] _ Hnn) as Hu.
  fold (unique (dropna (values s))) in Hnd, Hin, Hu.
  destruct (sorted_spec _ Hu Hnd) as (names & Hsort & _ & Hinc & Hn & Hm & Hlen).
  rewrite Hsort in E0. cbn [bind] in E0. injection E0 as <-.
  exists names. split.
  { destruct (nunique (values s) =? 0)%nat; simpl; apply lookup_insert_eq. }
  split; [assumption|]. split; [assumption|]. split.
  { intros c. rewrite Hm, Hin, dropna_In. simpl. tauto. }
  rewrite Hlen. fold (nunique (values s)).
  destruct (nunique (values s) =? 0)%nat; simpl;
    rewrite lookup_insert_ne by discriminate; apply lookup_insert_eq.
Qed.

Lemma parameters_listed_witness :
  exists r,
    validate_business_rules Demo.rt NORMALIZED Demo.messy = Ok r
    /\ info r !! "parameters"
       = Some (IList [ICell (Str "PH"); ICell (Str "TURBIDITY")]).
Proof.
  destruct (validate_business_rules Demo.rt NORMALIZED Demo.messy)
    as [r|] eqn:Hr; [|vm_compute in Hr; discriminate Hr].
  destruct (lookup_column "parameter" (columns Demo.messy)) as [s|] eqn:Hs;
    [|vm_compute in Hs; discriminate Hs].
  assert (Htext : Forall (fun c => is_str c = true \/ c = NA) (values s)).
  { vm_compute in Hs. injection Hs as <-. simpl.
    repeat (constructor; [first [left; reflexivity | right; reflexivity]|]).
    constructor. }
  destruct (parameters_listed Demo.rt NORMALIZED Demo.messy r s
              Hr eq_refl Hs Htext) as (names & _).
  exists r. split; [reflexivity|].
  vm_compute in Hr. injection Hr as <-. reflexivity.
Defined.
